(** * AI Smart Bookmark Organizer: tree model, batch dispatcher,
      reconciliation, restore and tag index.

    A shallow embedding of the TypeScript sources
    ([hooks/useBookmarks], [services/aiService], [services/storageService],
    [components/BatchOrganize]) together with the properties of the
    specification that concern them.

    JavaScript values are modelled as follows.  An optional field
    ([parentId?], [url?], [children?], [folderType]) is an [option]; a
    string used as a condition is truthy when it is defined and non-empty
    ([truthy]); an array used as a condition is truthy whenever it is
    defined.  Calls to the browser ([chrome.bookmarks.*]) and to the
    language model are calls to an environment whose answers are
    functions of the calls made so far; every call is recorded in a
    chronological trace. *)

From Stdlib Require Import String Ascii List Bool Arith Lia ZArith.
From stdpp Require Import gmap strings list fin_maps.

Local Open Scope string_scope.
Local Open Scope list_scope.
Local Open Scope stdpp_scope.

(** ** Data model ([types/index.ts]) *)

#[local] Unset Elimination Schemes.
Inductive BookmarkNode : Type := mkNode {
  id : string;
  parentId : option string;
  url : option string;
  title : string;
  children : option (list BookmarkNode);
  folderType : option string            (* read through a cast in the sources *)
}.

#[local] Set Elimination Schemes.

(** A string in condition position: defined and non-empty. *)
Definition truthy (s : option string) : bool :=
  match s with
  | Some v => negb (String.eqb v "")
  | None => false
  end.

(** [l.includes(s)] on an array of strings. *)
Definition includes (l : list string) (s : string) : bool :=
  existsb (String.eqb s) l.

(** [o === s] for an optional string [o]. *)
Definition opt_is (o : option string) (s : string) : bool :=
  match o with
  | Some v => String.eqb v s
  | None => false
  end.

(** Induction over the tree, with the hypothesis available for every child. *)
Section NodeInd.
Variable P : BookmarkNode -> Prop.
Hypothesis Hleaf : forall i p u t ft, P (mkNode i p u t None ft).
Hypothesis Hnode : forall i p u t cs ft,
    Forall P cs -> P (mkNode i p u t (Some cs) ft).

Fixpoint BookmarkNode_tree_ind (n : BookmarkNode) : P n :=
  match n with
  | mkNode i p u t c ft =>
      match c return P (mkNode i p u t c ft) with
      | None => Hleaf i p u t ft
      | Some cs =>
          Hnode i p u t cs ft
            ((fix all (l : list BookmarkNode) : Forall P l :=
                match l with
                | [] => @List.Forall_nil _ P
                | c' :: l' => @List.Forall_cons _ P c' l' (BookmarkNode_tree_ind c') (all l')
                end) cs)
      end
  end.
End NodeInd.

(** ** Tree model ([hooks/useBookmarks.ts]) *)

(** [flattenBookmarks]: the inner [traverse] pushes the node when it has a
    URL and then visits the children in order; the result array is the
    sequence of pushes. *)
Fixpoint flatten_traverse (node : BookmarkNode) : list BookmarkNode :=
  (if truthy (url node) then [node] else []) ++
  match children node with
  | Some cs => flat_map flatten_traverse cs
  | None => []
  end.

Definition flattenBookmarks (nodes : list BookmarkNode) : list BookmarkNode :=
  flat_map flatten_traverse nodes.

Definition SYSTEM_FOLDER_IDS : list string := ["0"].
Definition SYSTEM_FOLDER_TYPES : list string := ["bookmarks-bar"; "other"; "mobile"].

(** [isSystemFolder].  The argument is a node, so the guard [!node] of the
    source never fires. *)
Definition isSystemFolder (node : BookmarkNode) : bool :=
  if String.eqb (id node) "0" then true
  else if opt_is (parentId node) "0" then true
  else if (match folderType node with
           | Some ft => truthy (Some ft) && includes SYSTEM_FOLDER_TYPES ft
           | None => false
           end) then true
  else if includes SYSTEM_FOLDER_IDS (id node) then true
  else false.

(** A node that [getBookmarkStats] counts: not a system folder. *)
Definition user_node (n : BookmarkNode) : bool := negb (isSystemFolder n).

(** [getAllFolders]. *)
Fixpoint folders_traverse (node : BookmarkNode) : list BookmarkNode :=
  (if negb (truthy (url node)) && negb (isSystemFolder node) then [node] else []) ++
  match children node with
  | Some cs => flat_map folders_traverse cs
  | None => []
  end.

Definition getAllFolders (nodes : list BookmarkNode) : list BookmarkNode :=
  flat_map folders_traverse nodes.

(** [getBookmarkStats]: the three counters are local variables updated by
    [traverse]; here they are threaded through the traversal. *)
Record Stats : Type := mkStats {
  bookmarkCount : nat;
  folderCount : nat;
  maxDepth : nat
}.

Fixpoint stats_traverse (node : BookmarkNode) (depth : nat) (st : Stats) : Stats :=
  if isSystemFolder node then
    match children node with
    | Some cs => fold_left (fun s child => stats_traverse child 0 s) cs st
    | None => st
    end
  else
    let st1 :=
      if truthy (url node)
      then mkStats (S (bookmarkCount st)) (folderCount st) (maxDepth st)
      else mkStats (bookmarkCount st) (S (folderCount st)) (maxDepth st) in
    let st2 := mkStats (bookmarkCount st1) (folderCount st1) (Nat.max (maxDepth st1) depth) in
    match children node with
    | Some cs => fold_left (fun s child => stats_traverse child (depth + 1) s) cs st2
    | None => st2
    end.

Definition getBookmarkStats (nodes : list BookmarkNode) : Stats :=
  fold_left (fun s node => stats_traverse node 0 s) nodes (mkStats 0 0 0).

(** ** Batch dispatcher ([services/aiService.ts]) *)

(** An element of the classifier's answer, typed in the source as
    [{ id: string; category: string; isNewCategory: boolean }]. *)
Module Item.
Record t : Type := mk {
  id : string;
  category : string;
  isNewCategory : bool
}.
End Item.

(** A value of the result map. *)
Module Suggestion.
Record t : Type := mk {
  category : string;
  isNewCategory : bool
}.
End Suggestion.

(** What [JSON.parse] returned, as far as the dispatcher looks at it: an
    array or anything else.  An array element is [None] when it is [null],
    on which the property access [item.id] raises a [TypeError]. *)
Inductive Json : Type :=
  | JArray (items : list (option Item.t))
  | JOther.

Definition batchSize : nat := 20.

(** [arr.slice(i, j)] for [0 <= i <= j]. *)
Definition slice {A : Type} (i j : nat) (arr : list A) : list A :=
  take (j - i) (drop i arr).

(** The loop [for (let i = 0; i < bookmarks.length; i += size)
    batches.push(bookmarks.slice(i, i + size))], which the dispatcher runs
    with [size = batchSize].  [fuel] bounds the number of iterations;
    [length bookmarks] iterations always suffice (lemma [batches_from_fuel]). *)
Fixpoint batches_from {A : Type} (size fuel : nat) (bookmarks : list A) (i : nat)
  : list (list A) :=
  match fuel with
  | 0 => []
  | S fuel' =>
      if (i <? length bookmarks)%nat
      then slice i (i + size) bookmarks
             :: batches_from size fuel' bookmarks (i + size)
      else []
  end.

Definition make_batches {A : Type} (bookmarks : list A) : list (list A) :=
  batches_from batchSize (length bookmarks) bookmarks 0.

(** [ceil(n / b)]. *)
Definition ceil_div (n b : nat) : nat := (n + b - 1) / b.

(** What the dispatcher does to the outside, in order. *)
Inductive Event : Type :=
  | Classify (batch : list BookmarkNode)      (* one [callAI] for this batch *)
  | Progress (current total : nat).           (* one [onProgress(current, total)] *)

Section Dispatcher.
(** [callAI i batch]: the answer to the [i]-th call, whose prompt is built
    from [batch]; [None] when the call rejects. *)
Variable callAI : nat -> list BookmarkNode -> option string.
(** [parseResponse r] stands for
    [JSON.parse(r.replace(/```json\n?|\n?```/g, '').trim())];
    [None] when [JSON.parse] raises. *)
Variable parseResponse : string -> option Json.
(** Whether the optional [onProgress] argument was passed. *)
Variable onProgress : bool.

(** [parsed.forEach(item => results.set(item.id, {...}))]; a [null]
    element raises, which ends the [forEach] and leaves the entries set
    so far. *)
Fixpoint forEach_set (parsed : list (option Item.t))
    (results : gmap string Suggestion.t) : gmap string Suggestion.t :=
  match parsed with
  | [] => results
  | None :: _ => results
  | Some item :: rest =>
      forEach_set rest
        (<[Item.id item :=
             Suggestion.mk (Item.category item) (Item.isNewCategory item)]> results)
  end.

(** The [try { ... } catch (e) { console.error(...) }] block for batch [i]. *)
Definition classify_batch (i : nat) (batch : list BookmarkNode)
    (results : gmap string Suggestion.t) : gmap string Suggestion.t :=
  match callAI i batch with
  | None => results
  | Some response =>
      match parseResponse response with
      | None => results
      | Some JOther => results
      | Some (JArray parsed) => forEach_set parsed results
      end
  end.

(** The loop [for (let i = 0; i < batches.length; i++)]. *)
Fixpoint organize_loop (batches : list (list BookmarkNode)) (i total : nat)
    (results : gmap string Suggestion.t) (trace : list Event)
  : gmap string Suggestion.t * list Event :=
  match batches with
  | [] => (results, trace)
  | batch :: rest =>
      let results' := classify_batch i batch results in
      let trace' :=
        trace ++ [Classify batch] ++
        (if onProgress then [Progress ((i + 1) * batchSize) total] else []) in
      organize_loop rest (S i) total results' trace'
  end.

Definition getOrganizeSuggestions (bookmarks : list BookmarkNode)
  : gmap string Suggestion.t * list Event :=
  organize_loop (make_batches bookmarks) 0 (length bookmarks) ∅ [].
End Dispatcher.

(** The entries that batch [i] alone puts into the result map, and whether
    its call failed: [callAI] rejected, or the answer did not parse, or it
    parsed to something that is not an array. *)
Definition batch_entries (callAI : nat -> list BookmarkNode -> option string)
    (parseResponse : string -> option Json) (i : nat) (batch : list BookmarkNode)
  : gmap string Suggestion.t :=
  classify_batch callAI parseResponse i batch ∅.

Definition batch_failed (callAI : nat -> list BookmarkNode -> option string)
    (parseResponse : string -> option Json) (i : nat) (batch : list BookmarkNode) : bool :=
  match callAI i batch with
  | None => true
  | Some response =>
      match parseResponse response with
      | Some (JArray _) => false
      | Some JOther => true
      | None => true
      end
  end.

(** The result map built from the entries of a sequence of batches, later
    batches overriding earlier ones on a common id. *)
Definition merge_entries (entries : list (gmap string Suggestion.t))
    (results : gmap string Suggestion.t) : gmap string Suggestion.t :=
  fold_left (fun acc e => e ∪ acc) entries results.

(** The elements that [parsed.forEach] stores: those before the first
    [null], on which the loop raises. *)
Fixpoint stored (parsed : list (option Item.t)) : list Item.t :=
  match parsed with
  | Some item :: rest => item :: stored rest
  | _ => []
  end.

(** The elements stored for batch [i]: none when the call rejects or its
    answer does not parse or is not an array. *)
Definition answered (callAI : nat -> list BookmarkNode -> option string)
    (parseResponse : string -> option Json) (i : nat) (batch : list BookmarkNode)
  : list Item.t :=
  match callAI i batch with
  | Some response =>
      match parseResponse response with
      | Some (JArray parsed) => stored parsed
      | _ => []
      end
  | None => []
  end.

(** What a sequence of stored elements leaves under the key [x]: the
    category and flag of the last element whose [id] is [x]. *)
Definition last_answer (items : list Item.t) (x : string) : option Suggestion.t :=
  match List.find (fun item => String.eqb (Item.id item) x) (rev items) with
  | Some item => Some (Suggestion.mk (Item.category item) (Item.isNewCategory item))
  | None => None
  end.

Definition classify_calls (trace : list Event) : list (list BookmarkNode) :=
  flat_map (fun e => match e with Classify b => [b] | Progress _ _ => [] end) trace.

Definition progress_reports (trace : list Event) : list (nat * nat) :=
  flat_map (fun e => match e with Classify _ => [] | Progress c t => [(c, t)] end) trace.

(** ** The browser's bookmark API, as the sources call it *)

Inductive Call : Type :=
  | CreateCall (parent : string) (name : string) (link : option string)
  | MoveCall (node : string) (parent : string)
  | GetChildrenCall (folder : string)
  | RemoveCall (node : string)
  | RemoveTreeCall (folder : string).

(** The answers of [chrome.bookmarks], each a function of the calls made
    before.  [create] answers the id of the new node, [getChildren] the
    children; [None], or [false] for the calls without a result, means
    that the call rejects. *)
Record Chrome : Type := mkChrome {
  bookmarks_create : list Call -> string -> string -> option string -> option string;
  bookmarks_move : list Call -> string -> string -> bool;
  bookmarks_getChildren : list Call -> string -> option (list BookmarkNode);
  bookmarks_remove : list Call -> string -> bool;
  bookmarks_removeTree : list Call -> string -> bool
}.

(** ** Reconciliation ([components/BatchOrganize.tsx]) *)

Module OrganizeResult.
Record t : Type := mk {
  bookmarkId : string;
  title : string;
  url : string;
  originalFolder : string;
  suggestedFolder : string;
  isNewCategory : bool
}.
End OrganizeResult.

(** A [for (const node of nodes)] loop whose body either returns from the
    function ([Some r]) or falls through to the next node ([None]), and
    which is followed by [return '1']. *)
Definition for_nodes_return (body : BookmarkNode -> option string)
  : list BookmarkNode -> string :=
  fix go (nodes : list BookmarkNode) : string :=
    match nodes with
    | [] => "1"
    | node :: rest =>
        match body node with
        | Some r => r
        | None => go rest
        end
    end.

(** The body of the loop of [findBookmarkBarId]. *)
Fixpoint findBookmarkBarId_body (node : BookmarkNode) : option string :=
  if String.eqb (title node) "书签栏" || String.eqb (title node) "Bookmarks Bar"
  then Some (id node)
  else
    match children node with
    | Some cs =>
        let found := for_nodes_return findBookmarkBarId_body cs in
        if truthy (Some found) then Some found else None
    | None => None
    end.

Definition findBookmarkBarId (nodes : list BookmarkNode) : string :=
  for_nodes_return findBookmarkBarId_body nodes.

(** What [handleApplyChanges] did: the browser calls it issued, and whether
    it reached [setCurrentStep('complete')] rather than the [catch]. *)
Record ApplyOutcome : Type := mkApplyOutcome {
  apply_calls : list Call;
  apply_complete : bool
}.

Section Reconciliation.
Variable chrome : Chrome.
(** The bookmark tree held by the component, and its memoised folders. *)
Variable tree : list BookmarkNode.

Definition existingFolders : list BookmarkNode := getAllFolders tree.

(** First loop: create the new folders.  [None] when a [create] rejects,
    which leaves the [try] block. *)
Fixpoint create_loop (organizeResults : list OrganizeResult.t)
    (newFolders : gmap string string) (h : list Call)
  : option (gmap string string) * list Call :=
  match organizeResults with
  | [] => (Some newFolders, h)
  | result :: rest =>
      if OrganizeResult.isNewCategory result
         && negb (bool_decide (is_Some (newFolders !! OrganizeResult.suggestedFolder result)))
      then
        let bookmarkBarId := findBookmarkBarId tree in
        let h' := h ++ [CreateCall bookmarkBarId (OrganizeResult.suggestedFolder result) None] in
        match bookmarks_create chrome h bookmarkBarId
                (OrganizeResult.suggestedFolder result) None with
        | None => (None, h')
        | Some newFolderId =>
            create_loop rest
              (<[OrganizeResult.suggestedFolder result := newFolderId]> newFolders) h'
        end
      else create_loop rest newFolders h
  end.

(** The target of one result, as computed at the head of the second loop. *)
Definition targetFolderId (newFolders : gmap string string)
    (result : OrganizeResult.t) : option string :=
  if OrganizeResult.isNewCategory result
  then newFolders !! OrganizeResult.suggestedFolder result
  else id <$> List.find
         (fun f => String.eqb (title f) (OrganizeResult.suggestedFolder result))
         existingFolders.

(** The condition [targetFolderId && targetFolderId !== result.bookmarkId]. *)
Definition move_guard (target : option string) (result : OrganizeResult.t) : bool :=
  truthy target && negb (opt_is target (OrganizeResult.bookmarkId result)).

(** Second loop: move the bookmarks.  [false] when a [move] rejects. *)
Fixpoint move_loop (organizeResults : list OrganizeResult.t)
    (newFolders : gmap string string) (h : list Call) : bool * list Call :=
  match organizeResults with
  | [] => (true, h)
  | result :: rest =>
      match targetFolderId newFolders result with
      | Some target =>
          if move_guard (Some target) result then
            let h' := h ++ [MoveCall (OrganizeResult.bookmarkId result) target] in
            if bookmarks_move chrome h (OrganizeResult.bookmarkId result) target
            then move_loop rest newFolders h'
            else (false, h')
          else move_loop rest newFolders h
      | None => move_loop rest newFolders h
      end
  end.

Definition handleApplyChanges (organizeResults : list OrganizeResult.t)
  : ApplyOutcome :=
  match create_loop organizeResults ∅ [] with
  | (None, h) => mkApplyOutcome h false
  | (Some newFolders, h) =>
      let '(ok, h') := move_loop organizeResults newFolders h in
      mkApplyOutcome h' ok
  end.
End Reconciliation.

Definition created_titles (calls : list Call) : list string :=
  flat_map (fun c => match c with CreateCall _ name _ => [name] | _ => [] end) calls.

(** ** Snapshots and restore ([services/storageService.ts]) *)

Module Snapshot.
Record t : Type := mk {
  id : string;
  timestamp : Z;
  bookmarkCount : nat;
  treeData : list BookmarkNode;
  description : string
}.
End Snapshot.

Section Restore.
Variable chrome : Chrome.

(** [clearFolderContents].  The recursion follows the folders the browser
    reports, so it is bounded by [fuel]; at [0] nothing is done. *)
Fixpoint clearFolderContents (fuel : nat) (folderId : string) (h : list Call)
  : list Call :=
  match fuel with
  | 0 => h
  | S fuel' =>
      let h1 := h ++ [GetChildrenCall folderId] in
      match bookmarks_getChildren chrome h folderId with
      | None => h1
      | Some cs =>
          (fix loop (cs : list BookmarkNode) (h : list Call) : list Call :=
             match cs with
             | [] => h
             | child :: rest =>
                 if truthy (url child) then
                   let h' := h ++ [RemoveCall (id child)] in
                   if bookmarks_remove chrome h (id child) then loop rest h' else h'
                 else
                   let h' := clearFolderContents fuel' (id child) h in
                   if negb (truthy (folderType child)) then
                     let h'' := h' ++ [RemoveTreeCall (id child)] in
                     if bookmarks_removeTree chrome h' (id child)
                     then loop rest h'' else h''
                   else loop rest h'
             end) cs h1
      end
  end.

(** [clearBookmarks]. *)
Definition clearBookmarks (fuel : nat) (nodes : list BookmarkNode) (h : list Call)
  : list Call :=
  fold_left
    (fun h node =>
       if String.eqb (id node) "0" then
         match children node with
         | Some cs => fold_left (fun h child => clearFolderContents fuel (id child) h) cs h
         | None => h
         end
       else h)
    nodes h.

(** [createBookmarkFromNode]: the id of the created node, or [None] for
    the [undefined] returned from the [catch]. *)
Fixpoint createBookmarkFromNode (node : BookmarkNode) (parent : string)
    (h : list Call) : option string * list Call :=
  if truthy (url node) then
    (bookmarks_create chrome h parent (title node) (url node),
     h ++ [CreateCall parent (title node) (url node)])
  else
    let h1 := h ++ [CreateCall parent (title node) None] in
    match bookmarks_create chrome h parent (title node) None with
    | None => (None, h1)
    | Some resultId =>
        match children node with
        | Some cs =>
            (Some resultId,
             fold_left (fun h child => snd (createBookmarkFromNode child resultId h)) cs h1)
        | None => (Some resultId, h1)
        end
    end.

(** One iteration of the loop of [restoreBookmarksFromSnapshot]; the
    recursive call on [[child]] is this function on [child]. *)
Fixpoint restore_node (node : BookmarkNode) (parent : option string)
    (h : list Call) : list Call :=
  if String.eqb (id node) "0" then
    match children node with
    | Some cs => fold_left (fun h child => restore_node child (Some (id child)) h) cs h
    | None => h
    end
  else if truthy (folderType node) then
    match children node with
    | Some cs => fold_left (fun h child => snd (createBookmarkFromNode child (id node) h)) cs h
    | None => h
    end
  else
    match parent with
    | Some p => if truthy (Some p) then snd (createBookmarkFromNode node p h) else h
    | None => h
    end.

Definition restoreBookmarksFromSnapshot (nodes : list BookmarkNode)
    (parent : option string) (h : list Call) : list Call :=
  fold_left (fun h node => restore_node node parent h) nodes h.

(** [restoreSnapshot]: [None] for the error thrown when the snapshot is
    missing; [currentTree] is the answer of [chrome.bookmarks.getTree()]. *)
Definition restoreSnapshot (fuel : nat) (snapshots : gmap string Snapshot.t)
    (snapshotId : string) (currentTree : list BookmarkNode) : option (list Call) :=
  match snapshots !! snapshotId with
  | None => None
  | Some snapshot =>
      let h := clearBookmarks fuel currentTree [] in
      Some (restoreBookmarksFromSnapshot (Snapshot.treeData snapshot) None h)
  end.
End Restore.

(** ** Tag index ([services/storageService.ts]) *)

Module Tag.
Record t : Type := mk {
  id : string;
  name : string;
  bookmarkIds : list string;
  createdAt : Z
}.
End Tag.

(** The object store ['tags']: records keyed by [id] (the key path), with a
    unique index on [name]. *)
Definition name_taken (tags : gmap string Tag.t) (tag : Tag.t) : bool :=
  existsb
    (fun kt => String.eqb (Tag.name (snd kt)) (Tag.name tag)
               && negb (String.eqb (fst kt) (Tag.id tag)))
    (map_to_list tags).

(** [store.put(tag)]: [None] when the unique index on [name] refuses it. *)
Definition store_put (tags : gmap string Tag.t) (tag : Tag.t)
  : option (gmap string Tag.t) :=
  if name_taken tags tag then None else Some (<[Tag.id tag := tag]> tags).

(** [getTagByName]: [index.get(name)]. *)
Definition getTagByName (tags : gmap string Tag.t) (name : string) : option Tag.t :=
  snd <$> List.find (fun kt => String.eqb (Tag.name (snd kt)) name) (map_to_list tags).

(** The store together with the number of tags created so far, which
    indexes the clock and the random source. *)
Record TagDB : Type := mkTagDB {
  tags : gmap string Tag.t;
  created : nat
}.

Section TagIndex.
(** [normalize s] is [s.trim().toLowerCase()]. *)
Variable normalize : string -> string.
(** The id [`tag_${Date.now()}_${Math.random()...}`] and the time
    [Date.now()] drawn at the [n]-th creation. *)
Variable newTagId : nat -> string.
Variable dateNow : nat -> Z.

(** One iteration of the loop of [addTagsToBookmark]; [None] when
    [saveTag] rejects. *)
Definition addTag_step (db : TagDB) (bookmarkId tagName : string) : option TagDB :=
  let normalizedName := normalize tagName in
  if String.eqb normalizedName "" then Some db
  else
    match getTagByName (tags db) normalizedName with
    | Some existingTag =>
        if negb (includes (Tag.bookmarkIds existingTag) bookmarkId) then
          let updated :=
            Tag.mk (Tag.id existingTag) (Tag.name existingTag)
              (Tag.bookmarkIds existingTag ++ [bookmarkId]) (Tag.createdAt existingTag) in
          match store_put (tags db) updated with
          | Some tags' => Some (mkTagDB tags' (created db))
          | None => None
          end
        else Some db
    | None =>
        let newTag :=
          Tag.mk (newTagId (created db)) normalizedName [bookmarkId]
            (dateNow (created db)) in
        match store_put (tags db) newTag with
        | Some tags' => Some (mkTagDB tags' (S (created db)))
        | None => None
        end
    end.

(** [addTagsToBookmark]: the store afterwards, and whether the promise
    resolved ([true]) or rejected. *)
Fixpoint addTagsToBookmark (db : TagDB) (bookmarkId : string)
    (tagNames : list string) : TagDB * bool :=
  match tagNames with
  | [] => (db, true)
  | tagName :: rest =>
      match addTag_step db bookmarkId tagName with
      | Some db' => addTagsToBookmark db' bookmarkId rest
      | None => (db, false)
      end
  end.
End TagIndex.

(** [removeTagFromBookmark]. *)
Definition removeTagFromBookmark (db : TagDB) (bookmarkId tagId : string) : TagDB :=
  match tags db !! tagId with
  | Some tag =>
      let remaining :=
        List.filter (fun i => negb (String.eqb i bookmarkId)) (Tag.bookmarkIds tag) in
      if (length remaining =? 0)%nat then
        mkTagDB (delete tagId (tags db)) (created db)
      else
        match store_put (tags db)
                (Tag.mk (Tag.id tag) (Tag.name tag) remaining (Tag.createdAt tag)) with
        | Some tags' => mkTagDB tags' (created db)
        | None => db
        end
  | None => db
  end.

(** [deleteTag]. *)
Definition deleteTag (db : TagDB) (tagId : string) : TagDB :=
  mkTagDB (delete tagId (tags db)) (created db).

(** A normaliser for ASCII strings, to run the tag index on examples:
    [trim] removes the ASCII white space at both ends, [toLowerCase] maps
    [A]-[Z] to [a]-[z]. *)
Definition is_space (c : ascii) : bool :=
  let n := nat_of_ascii c in
  ((9 <=? n) && (n <=? 13) || (n =? 32))%nat.

Fixpoint trimStart (s : string) : string :=
  match s with
  | String c s' => if is_space c then trimStart s' else s
  | EmptyString => EmptyString
  end.

Fixpoint trimEnd (s : string) : string :=
  match s with
  | String c s' =>
      let r := trimEnd s' in
      if is_space c && String.eqb r "" then "" else String c r
  | EmptyString => EmptyString
  end.

Definition lower (c : ascii) : ascii :=
  let n := nat_of_ascii c in
  if ((65 <=? n) && (n <=? 90))%nat then ascii_of_nat (n + 32) else c.

Fixpoint toLowerCase (s : string) : string :=
  match s with
  | String c s' => String (lower c) (toLowerCase s')
  | EmptyString => EmptyString
  end.

Definition ascii_normalize (s : string) : string :=
  toLowerCase (trimEnd (trimStart s)).

(** All the nodes of a tree, parents before children. *)
Fixpoint node_list (node : BookmarkNode) : list BookmarkNode :=
  node ::
  match children node with
  | Some cs => flat_map node_list cs
  | None => []
  end.

Definition all_nodes (nodes : list BookmarkNode) : list BookmarkNode :=
  flat_map node_list nodes.

(** The system layer of the data model: the root, its immediate children
    and the nodes marked as system containers are folders, that is, no node
    that [isSystemFolder] classifies as a system folder has a URL. *)
Definition system_nodes_are_folders (nodes : list BookmarkNode) : bool :=
  forallb (fun n => negb (isSystemFolder n && truthy (url n))) (all_nodes nodes).

(** The title test of [findBookmarkBarId]. *)
Definition is_bar_title (node : BookmarkNode) : bool :=
  String.eqb (title node) "书签栏" || String.eqb (title node) "Bookmarks Bar".

(** What [findBookmarkBarId] can return: ['1'], or the id of a node of the
    tree that carries one of the two titles. *)
Definition bar_id_of (nodes : list BookmarkNode) (r : string) : Prop :=
  r = "1" \/ exists m, In m nodes /\ is_bar_title m = true /\ id m = r.

(** The [url] argument of the [create] call for a node: the URL of a
    bookmark, nothing for a folder. *)
Definition node_link (node : BookmarkNode) : option string :=
  if truthy (url node) then url node else None.

(** The guarantees of the object store: a record is stored under its own
    [id] (the key path) and no two records have the same [name] (the unique
    index). *)
Definition store_wf (tags : gmap string Tag.t) : Prop :=
  (forall k t, tags !! k = Some t -> Tag.id t = k) /\
  (forall k1 k2 t1 t2, tags !! k1 = Some t1 -> tags !! k2 = Some t2 ->
                       Tag.name t1 = Tag.name t2 -> k1 = k2).

(** The invariant of the tag index: every stored tag has a non-empty list of
    bookmark ids, without repetition. *)
Definition tags_nonempty (tags : gmap string Tag.t) : Prop :=
  forall k t, tags !! k = Some t -> Tag.bookmarkIds t <> [].

Definition tags_nodup (tags : gmap string Tag.t) : Prop :=
  forall k t, tags !! k = Some t -> NoDup (Tag.bookmarkIds t).

Definition tag_index_inv (db : TagDB) : Prop :=
  store_wf (tags db) /\ tags_nonempty (tags db) /\ tags_nodup (tags db).

(** [bookmarkIds.filter(id => id !== bookmarkId)]. *)
Definition without (bookmarkId : string) (ids : list string) : list string :=
  List.filter (fun i => negb (String.eqb i bookmarkId)) ids.

(** ** The copy of [getBookmarkStats] in [services/storageService.ts] *)

(** Used by [createSnapshot]: it counts every node that has a URL. *)
Module StorageService.
Fixpoint traverse (node : BookmarkNode) (bookmarkCount : nat) : nat :=
  let bookmarkCount' := if truthy (url node) then S bookmarkCount else bookmarkCount in
  match children node with
  | Some cs => fold_left (fun count child => traverse child count) cs bookmarkCount'
  | None => bookmarkCount'
  end.

Definition getBookmarkStats (nodes : list BookmarkNode) : nat :=
  fold_left (fun count node => traverse node count) nodes 0.
End StorageService.

(** ** The selection tree ([components/BookmarkTreeSelect.tsx]) *)

(** [[...new Set(ids)]]: the elements in the order of their first
    occurrence. *)
Definition new_Set (ids : list string) : list string :=
  fold_left (fun seen i => if includes seen i then seen else seen ++ [i]) ids [].

Module TreeSelect.
(** [getAllDescendantIds]. *)
Fixpoint getAllDescendantIds (node : BookmarkNode) : list string :=
  match children node with
  | Some cs =>
      flat_map
        (fun child =>
           (if truthy (url child) then [id child] else []) ++ getAllDescendantIds child)
        cs
  | None => []
  end.

(** [countBookmarks]. *)
Fixpoint countBookmarks (node : BookmarkNode) : nat :=
  let count := if truthy (url node) then 1 else 0 in
  match children node with
  | Some cs => fold_left (fun count child => count + countBookmarks child) cs count
  | None => count
  end.

(** A [for (const node of nodes)] loop whose body returns a node or falls
    through, followed by [return null]. *)
Definition for_nodes_find (body : BookmarkNode -> option BookmarkNode)
  : list BookmarkNode -> option BookmarkNode :=
  fix go (nodes : list BookmarkNode) : option BookmarkNode :=
    match nodes with
    | [] => None
    | node :: rest =>
        match body node with
        | Some found => Some found
        | None => go rest
        end
    end.

(** The body of the loop of [findNodeById]. *)
Fixpoint findNodeById_body (i : string) (node : BookmarkNode) : option BookmarkNode :=
  if String.eqb (id node) i then Some node
  else
    match children node with
    | Some cs => for_nodes_find (findNodeById_body i) cs
    | None => None
    end.

Definition findNodeById (nodes : list BookmarkNode) (i : string) : option BookmarkNode :=
  for_nodes_find (findNodeById_body i) nodes.

(** [handleToggleSelect]: the argument of [onSelectionChange], or [None]
    when it is not called (a folder id that is not in the tree). *)
Definition handleToggleSelect (nodes : list BookmarkNode) (selectedIds : list string)
    (i : string) (isFolder : bool) : option (list string) :=
  if isFolder then
    match findNodeById nodes i with
    | Some folder =>
        let descendantIds := getAllDescendantIds folder in
        let allSelected := forallb (includes selectedIds) descendantIds in
        if allSelected
        then Some (List.filter (fun sid => negb (includes descendantIds sid)) selectedIds)
        else Some (new_Set (selectedIds ++ descendantIds))
    | None => None
    end
  else
    if includes selectedIds i
    then Some (List.filter (fun sid => negb (String.eqb sid i)) selectedIds)
    else Some (selectedIds ++ [i]).
End TreeSelect.

(** [selectedBookmarks] of [BatchOrganize]. *)
Definition selectedBookmarks (tree : list BookmarkNode) (selectedIds : list string)
  : list BookmarkNode :=
  List.filter (fun b => includes selectedIds (id b)) (flattenBookmarks tree).

(** The two kinds of call that [handleApplyChanges] issues. *)
Definition is_create (c : Call) : Prop :=
  match c with
  | CreateCall _ _ _ => True
  | _ => False
  end.

Definition is_move (c : Call) : Prop :=
  match c with
  | MoveCall _ _ => True
  | _ => False
  end.

(** ** The object stores ['snapshots'] and ['logs'] ([services/storageService.ts]) *)

From Stdlib Require Import DecimalString.
From stdpp Require Import sorting.

(** An object store is a map from the key ([id], the key path) to the
    record; [timestamp] is indexed. *)
Section ObjectStore.
Context {T : Type}.
Variable key : T -> string.
Variable stamp : T -> Z.

(** The order in which a cursor opened on the index with direction ['prev']
    delivers the records: by decreasing timestamp, records of equal
    timestamp by decreasing key. *)
Definition newer_first (a b : T) : Prop :=
  (stamp b < stamp a)%Z \/ (stamp a = stamp b /\ String.leb (key b) (key a) = true).

#[global] Instance newer_first_dec (a b : T) : Decision (newer_first a b).
Proof. unfold newer_first. apply _. Defined.

(** [getAllSnapshots] and [getAllLogs]: the records pushed by the cursor. *)
Definition getAll (store : gmap string T) : list T :=
  merge_sort newer_first (snd <$> map_to_list store).

(** [store.add(record)]: [None] when the key is already in the store. *)
Definition store_add (store : gmap string T) (record : T) : option (gmap string T) :=
  match store !! key record with
  | Some _ => None
  | None => Some (<[key record := record]> store)
  end.

(** [cleanupOldSnapshots] and [cleanupOldLogs], with the number to keep. *)
Definition cleanup (keep : nat) (store : gmap string T) : gmap string T :=
  let all := getAll store in
  if (length all <=? keep)%nat then store
  else fold_left (fun s record => delete (key record) s) (drop keep all) store.
End ObjectStore.

(** [`${n}`] for an integer [n]. *)
Definition decimal (n : Z) : string := NilZero.string_of_int (Z.to_int n).

Definition getAllSnapshots (snapshots : gmap string Snapshot.t) : list Snapshot.t :=
  getAll Snapshot.id Snapshot.timestamp snapshots.

(** [getSnapshot]: [request.result || null]. *)
Definition getSnapshot (snapshots : gmap string Snapshot.t) (i : string)
  : option Snapshot.t :=
  snapshots !! i.

Definition deleteSnapshot (snapshots : gmap string Snapshot.t) (i : string)
  : gmap string Snapshot.t :=
  delete i snapshots.

Definition cleanupOldSnapshots (snapshots : gmap string Snapshot.t)
  : gmap string Snapshot.t :=
  cleanup Snapshot.id Snapshot.timestamp 10 snapshots.

(** [createSnapshot]; [now_id] and [now_stamp] are the two readings of
    [Date.now()].  The result is the snapshot, or [None] when the promise
    rejects, and the store afterwards. *)
Definition createSnapshot (snapshots : gmap string Snapshot.t) (now_id now_stamp : Z)
    (treeData : list BookmarkNode) (description : string)
  : option Snapshot.t * gmap string Snapshot.t :=
  let snapshot :=
    Snapshot.mk ("snapshot_" +:+ decimal now_id) now_stamp
      (StorageService.getBookmarkStats treeData) treeData description in
  match store_add Snapshot.id snapshots snapshot with
  | Some snapshots' => (Some snapshot, snapshots')
  | None => (None, snapshots)
  end.

Inductive OperationType : Type := organize | clean | rollback.

Module OperationLog.
Record t : Type := mk {
  id : string;
  timestamp : Z;
  type : OperationType;
  affectedCount : nat;
  description : string;
  snapshotId : option string
}.
End OperationLog.

(** [addOperationLog]; the argument carries the fields other than [id] and
    [timestamp]. *)
Definition addOperationLog (logs : gmap string OperationLog.t) (now_id now_stamp : Z)
    (type : OperationType) (affectedCount : nat) (description : string)
    (snapshotId : option string)
  : option OperationLog.t * gmap string OperationLog.t :=
  let fullLog :=
    OperationLog.mk ("log_" +:+ decimal now_id) now_stamp type affectedCount description
      snapshotId in
  match store_add OperationLog.id logs fullLog with
  | Some logs' => (Some fullLog, logs')
  | None => (None, logs)
  end.

Definition getAllLogs (logs : gmap string OperationLog.t) : list OperationLog.t :=
  getAll OperationLog.id OperationLog.timestamp logs.

Definition cleanupOldLogs (logs : gmap string OperationLog.t)
  : gmap string OperationLog.t :=
  cleanup OperationLog.id OperationLog.timestamp 50 logs.

(** A store is keyed when every record sits under its own [id]. *)
Definition keyed {T : Type} (key : T -> string) (store : gmap string T) : Prop :=
  forall k x, store !! k = Some x -> key x = k.

(** The data-model invariant that a bookmark (a node with a URL) has no
    children, for all the nodes of a subtree. *)
Definition bookmarks_are_leaves (node : BookmarkNode) : Prop :=
  forall m, In m (node_list node) -> truthy (url m) = true ->
            children m = None \/ children m = Some [].

(** A browser that accepts every creation. *)
Definition accepts_creations (chrome : Chrome) : Prop :=
  forall h parent name link, is_Some (bookmarks_create chrome h parent name link).

(** The calls by which [clearFolderContents] changes the tree, with what it
    knew of the node when it issued them. *)
Definition clearing_call (chrome : Chrome) (c : Call) : Prop :=
  match c with
  | GetChildrenCall _ => True
  | RemoveCall x =>
      exists h folder cs child,
        bookmarks_getChildren chrome h folder = Some cs /\ In child cs /\
        id child = x /\ truthy (url child) = true
  | RemoveTreeCall x =>
      exists h folder cs child,
        bookmarks_getChildren chrome h folder = Some cs /\ In child cs /\
        id child = x /\ truthy (url child) = false /\ truthy (folderType child) = false
  | CreateCall _ _ _ => False
  | MoveCall _ _ => False
  end.

(** ** Queries on the tag index ([services/storageService.ts]) *)

(** [getAllTags]: the cursor on the index ['createdAt'], direction ['prev']. *)
Definition getAllTags (tags : gmap string Tag.t) : list Tag.t :=
  getAll Tag.id Tag.createdAt tags.

(** [getTagsByBookmarkId]. *)
Definition getTagsByBookmarkId (tags : gmap string Tag.t) (bookmarkId : string)
  : list Tag.t :=
  List.filter (fun tag => includes (Tag.bookmarkIds tag) bookmarkId) (getAllTags tags).

(** How a stored tag can differ from the store before: it holds exactly
    [bookmarkId], or it is the tag stored under the same key before, with the
    same name and the same ids, or with [bookmarkId], which it did not hold,
    appended. *)
Definition tagged_from (db : TagDB) (bookmarkId k : string) (t' : Tag.t) : Prop :=
  Tag.bookmarkIds t' = [bookmarkId] \/
  exists t, tags db !! k = Some t /\ Tag.name t' = Tag.name t /\
            (Tag.bookmarkIds t' = Tag.bookmarkIds t \/
             (~ In bookmarkId (Tag.bookmarkIds t) /\
              Tag.bookmarkIds t' = Tag.bookmarkIds t ++ [bookmarkId])).

(** The ids drawn for the next [m] tags are pairwise different and not in
    the store. *)
Definition fresh_ids (newTagId : nat -> string) (db : TagDB) (m : nat) : Prop :=
  (forall i j, created db <= i < created db + m -> created db <= j < created db + m ->
               newTagId i = newTagId j -> i = j) /\
  (forall i, created db <= i < created db + m -> tags db !! newTagId i = None).

(** ** Original folder names and the analysis run ([components/BatchOrganize.tsx]) *)

(** The properties of the object literal [SYSTEM_FOLDER_NAMES]. *)
Definition SYSTEM_FOLDER_NAMES (k : string) : option string :=
  if String.eqb k "0" then Some "根"
  else if String.eqb k "1" then Some "书签栏"
  else if String.eqb k "2" then Some "其他书签"
  else if String.eqb k "3" then Some "移动书签"
  else if String.eqb k "bookmarks-bar" then Some "书签栏"
  else if String.eqb k "other" then Some "其他书签"
  else if String.eqb k "mobile" then Some "移动书签"
  else None.

(** The names that every object literal inherits from [Object.prototype].
    [SYSTEM_FOLDER_NAMES[k]] for one of them is a member that is not a
    string; the function above covers the other keys.  The ids and folder
    types that the browser gives to its nodes are none of these names, which
    is what [plain_keys] says of a tree. *)
Definition inherited_names : list string :=
  ["constructor"; "__proto__"; "hasOwnProperty"; "isPrototypeOf";
   "propertyIsEnumerable"; "toLocaleString"; "toString"; "valueOf";
   "__defineGetter__"; "__defineSetter__"; "__lookupGetter__"; "__lookupSetter__"].

Definition plain_keys (nodes : list BookmarkNode) : bool :=
  forallb
    (fun n =>
       negb (includes inherited_names (id n)) &&
       match folderType n with
       | Some ft => negb (includes inherited_names ft)
       | None => true
       end)
    (all_nodes nodes).

(** The name returned for the parent [node] once a child with the id has
    been found. *)
Definition friendly_name (node : BookmarkNode) : string :=
  match (if truthy (folderType node)
         then match folderType node with
              | Some ft => SYSTEM_FOLDER_NAMES ft
              | None => None
              end
         else None) with
  | Some name => name
  | None =>
      match SYSTEM_FOLDER_NAMES (id node) with
      | Some name => name
      | None => if truthy (Some (title node)) then title node else "未知"
      end
  end.

(** Whether the inner loop over [node.children] finds [child.id === bookmarkId]. *)
Definition has_child (bookmarkId : string) (node : BookmarkNode) : bool :=
  match children node with
  | Some cs => existsb (fun child => String.eqb (id child) bookmarkId) cs
  | None => false
  end.

(** A [for (const node of nodes)] loop whose body either returns from the
    function or falls through, followed by [return fallback]. *)
Definition for_nodes_or (fallback : string) (body : BookmarkNode -> option string)
  : list BookmarkNode -> string :=
  fix go (nodes : list BookmarkNode) : string :=
    match nodes with
    | [] => fallback
    | node :: rest =>
        match body node with
        | Some r => r
        | None => go rest
        end
    end.

(** The body of the outer loop of [findParentFolderName]. *)
Fixpoint findParentFolderName_body (bookmarkId : string) (node : BookmarkNode)
  : option string :=
  match children node with
  | Some cs =>
      if existsb (fun child => String.eqb (id child) bookmarkId) cs
      then Some (friendly_name node)
      else
        let found := for_nodes_or "未知" (findParentFolderName_body bookmarkId) cs in
        if truthy (Some found) && negb (String.eqb found "未知") then Some found else None
  | None => None
  end.

Definition findParentFolderName (nodes : list BookmarkNode) (bookmarkId : string)
  : string :=
  for_nodes_or "未知" (findParentFolderName_body bookmarkId) nodes.

(** Where [handleStartProcess] leaves the dialogue: at the preview with the
    results, or back at the analysis step after the [catch]. *)
Inductive ProcessOutcome : Type :=
  | Preview (results : list OrganizeResult.t)
  | BackToAnalyze.

Section StartProcess.
(** [callAI j i batch]: the answer to the [i]-th call of the [j]-th run of
    [getOrganizeSuggestions]. *)
Variable callAI : nat -> nat -> list BookmarkNode -> option string.
Variable parseResponse : string -> option Json.

(** The record pushed for one bookmark of a batch. *)
Definition result_for (tree : list BookmarkNode)
    (suggestions : gmap string Suggestion.t) (bookmark : BookmarkNode)
  : OrganizeResult.t :=
  let suggestion := suggestions !! id bookmark in
  let originalFolder := findParentFolderName tree (id bookmark) in
  OrganizeResult.mk (id bookmark) (title bookmark)
    (if truthy (url bookmark) then default "" (url bookmark) else "")
    originalFolder
    (match suggestion with
     | Some s =>
         if truthy (Some (Suggestion.category s)) then Suggestion.category s
         else originalFolder
     | None => originalFolder
     end)
    (match suggestion with
     | Some s => Suggestion.isNewCategory s
     | None => false
     end).

(** The loop over the batches: the results pushed and the classifier calls
    made, in order. *)
Fixpoint process_loop (tree : list BookmarkNode) (batches : list (list BookmarkNode))
    (j : nat) (results : list OrganizeResult.t) (trace : list Event)
  : list OrganizeResult.t * list Event :=
  match batches with
  | [] => (results, trace)
  | batch :: rest =>
      let answer := getOrganizeSuggestions (callAI j) parseResponse false batch in
      process_loop tree rest (S j)
        (results ++ map (result_for tree (fst answer)) batch)
        (trace ++ snd answer)
  end.

(** [handleStartProcess], with the two readings of the clock that
    [createSnapshot] makes: the outcome, the snapshot store afterwards and the
    classifier calls. *)
Definition handleStartProcess (snapshots : gmap string Snapshot.t) (now_id now_stamp : Z)
    (tree : list BookmarkNode) (selectedIds : list string)
  : ProcessOutcome * gmap string Snapshot.t * list Event :=
  let selected := selectedBookmarks tree selectedIds in
  let description :=
    "批量整理前 - " +:+ decimal (Z.of_nat (length selected)) +:+ " 个书签" in
  match createSnapshot snapshots now_id now_stamp tree description with
  | (Some _, snapshots') =>
      let run := process_loop tree (make_batches selected) 0 [] [] in
      (Preview (fst run), snapshots', snd run)
  | (None, snapshots') => (BackToAnalyze, snapshots', [])
  end.
End StartProcess.

(** What a result of the analysis run says: its original folder is the
    parent folder's name, and either it proposes to leave the bookmark where
    it is, or its proposal is an element of the answer given for a batch:
    the element's category (the original folder when that is empty) and
    flag. *)
Definition result_explained (callAI : nat -> nat -> list BookmarkNode -> option string)
    (parseResponse : string -> option Json) (tree selected : list BookmarkNode)
    (r : OrganizeResult.t) : Prop :=
  OrganizeResult.originalFolder r = findParentFolderName tree (OrganizeResult.bookmarkId r) /\
  ((OrganizeResult.suggestedFolder r = OrganizeResult.originalFolder r /\
    OrganizeResult.isNewCategory r = false) \/
   exists j batch response parsed item,
     make_batches selected !! j = Some batch /\
     callAI j 0 batch = Some response /\
     parseResponse response = Some (JArray parsed) /\
     In (Some item) parsed /\
     Item.id item = OrganizeResult.bookmarkId r /\
     OrganizeResult.isNewCategory r = Item.isNewCategory item /\
     OrganizeResult.suggestedFolder r
     = if String.eqb (Item.category item) "" then OrganizeResult.originalFolder r
       else Item.category item).

(** ** Example inputs *)

(** The scenario tree of the specification:
    root -> bookmarks bar -> [FolderA {bookmark1}, bookmark2]. *)
Definition bookmark1 : BookmarkNode :=
  mkNode "11" (Some "10") (Some "https://u1.example/") "bookmark1" None None.
Definition bookmark2 : BookmarkNode :=
  mkNode "12" (Some "1") (Some "https://u2.example/") "bookmark2" None None.
Definition folderA : BookmarkNode :=
  mkNode "10" (Some "1") None "FolderA" (Some [bookmark1]) None.
Definition bookmarks_bar : BookmarkNode :=
  mkNode "1" (Some "0") None "Bookmarks Bar" (Some [folderA; bookmark2])
    (Some "bookmarks-bar").
Definition scenario_tree : list BookmarkNode :=
  [mkNode "0" None None "" (Some [bookmarks_bar]) None].

(** Five bookmarks, fewer than one full batch. *)
Definition five_bookmarks : list BookmarkNode :=
  map (fun i => mkNode i (Some "1") (Some "https://site.example/") "page" None None)
    ["21"; "22"; "23"; "24"; "25"].

(** Twenty-two bookmarks (two batches), a classifier whose first call
    rejects and whose later calls answer for bookmark 121. *)
Definition many_bookmarks : list BookmarkNode :=
  map (fun i => mkNode i (Some "1") (Some "https://site.example/") "page" None None)
    ["101"; "102"; "103"; "104"; "105"; "106"; "107"; "108"; "109"; "110";
     "111"; "112"; "113"; "114"; "115"; "116"; "117"; "118"; "119"; "120";
     "121"; "122"].

Definition flaky_callAI (i : nat) (batch : list BookmarkNode) : option string :=
  match i with
  | 0 => None
  | S _ => Some "[{...}]"
  end.

Definition example_parse (response : string) : option Json :=
  Some (JArray [Some (Item.mk "121" "Reading" false)]).

(** A classifier answer about bookmark 101, which is in the first batch of
    [many_bookmarks]. *)
Definition stray_parse (response : string) : option Json :=
  Some (JArray [Some (Item.mk "101" "Reading" false)]).

(** A browser that accepts every call and names every new node ["900"]. *)
Definition chrome_ok : Chrome :=
  mkChrome (fun _ _ _ _ => Some "900") (fun _ _ _ => true)
    (fun _ _ => Some []) (fun _ _ => true) (fun _ _ => true).

(** The result that [handleStartProcess] builds for [bookmark1] when the
    classifier proposes no change: the suggested folder is the current one. *)
Definition unchanged_result : OrganizeResult.t :=
  OrganizeResult.mk "11" "bookmark1" "https://u1.example/" "FolderA" "FolderA" false.

(** Five bookmarks that all go to the new category "Research". *)
Definition research_results : list OrganizeResult.t :=
  map (fun i => OrganizeResult.mk i "page" "https://site.example/" "FolderA" "Research" true)
    ["21"; "22"; "23"; "24"; "25"].

(** A tree whose bookmarks bar carries another title and contains a user
    folder titled "Bookmarks Bar". *)
Definition imported_folder : BookmarkNode :=
  mkNode "9" (Some "1") None "Bookmarks Bar"
    (Some [mkNode "12" (Some "9") (Some "https://u2.example/") "page" None None]) None.
Definition tree_with_homonym : list BookmarkNode :=
  [mkNode "0" None None ""
     (Some [mkNode "1" (Some "0") None "Favorites bar" (Some [imported_folder])
              (Some "bookmarks-bar")]) None].
Definition homonym_results : list OrganizeResult.t :=
  [OrganizeResult.mk "12" "page" "https://u2.example/" "Bookmarks Bar" "Research" true].

(** A tree whose bookmarks bar is not in the first branch. *)
Definition tree_bar_second : list BookmarkNode :=
  [mkNode "0" None None ""
     (Some [mkNode "2" (Some "0") None "Other Bookmarks" (Some []) (Some "other");
            mkNode "5" (Some "0") None "Bookmarks Bar" (Some []) (Some "bookmarks-bar")])
     None].

(** A snapshot taken when the bookmarks bar had id 1, and a live tree in
    which the bookmarks bar has id 100. *)
Definition snapshot_bar : BookmarkNode :=
  mkNode "1" (Some "0") None "Bookmarks Bar" (Some [bookmark2]) (Some "bookmarks-bar").
Definition example_snapshot : Snapshot.t :=
  Snapshot.mk "snapshot_1700000000000" 1700000000000 1
    [mkNode "0" None None "" (Some [snapshot_bar]) None] "before organize".
Definition example_snapshots : gmap string Snapshot.t :=
  {[ "snapshot_1700000000000" := example_snapshot ]}.
Definition live_tree : list BookmarkNode :=
  [mkNode "0" None None ""
     (Some [mkNode "100" (Some "0") None "Bookmarks Bar" (Some []) (Some "bookmarks-bar")])
     None].

(** A clock and an id source for the tag index. *)
Definition example_newTagId (n : nat) : string :=
  match n with
  | 0 => "tag_1700000000000_k3j9x2m1q"
  | S _ => "tag_1700000000001_z8w4c5v6b"
  end.
Definition example_dateNow (n : nat) : Z := (1700000000000 + Z.of_nat n)%Z.
Definition empty_db : TagDB := mkTagDB ∅ 0.

(** A tag index with two tags: "ai" on the bookmarks X and Y, "work" on X. *)
Definition tag_ai : Tag.t := Tag.mk "tag_a" "ai" ["X"; "Y"] 1699999999000.
Definition tag_work : Tag.t := Tag.mk "tag_b" "work" ["X"] 1699999999500.
Definition example_tag_db : TagDB :=
  mkTagDB (<["tag_a" := tag_ai]> (<["tag_b" := tag_work]> ∅)) 0.

(** Two operation-log records, keyed by their ids. *)
Definition example_logs : gmap string OperationLog.t :=
  {[ "log_1700000000000" :=
       OperationLog.mk "log_1700000000000" 1700000000000 organize 5 "organized" None;
     "log_1700000005000" :=
       OperationLog.mk "log_1700000005000" 1700000005000 rollback 5 "rolled back"
         (Some "snapshot_1700000000000") ]}.

(** Eleven snapshots, taken at the times 1 to 11. *)
Definition snapshot_at (t : Z) : Snapshot.t :=
  Snapshot.mk ("snapshot_" +:+ decimal t) t 0 [] "before organize".
Definition eleven_snapshots : gmap string Snapshot.t :=
  list_to_map
    (map (fun t => (Snapshot.id (snapshot_at t), snapshot_at t))
       [1; 2; 3; 4; 5; 6; 7; 8; 9; 10; 11]%Z).

(** ** The specification's statements, for the cases where the code differs *)

(** C5 as stated, for one run: when the call of a batch fails, the
    bookmarks of that batch are absent from the mapping, every batch is still
    called, and the mapping contains the entries produced by every other
    batch. *)
Definition bad_batch_isolated (callAI : nat -> list BookmarkNode -> option string)
    (parseResponse : string -> option Json) (onProgress : bool)
    (bookmarks : list BookmarkNode) : Prop :=
  forall k bk,
    make_batches bookmarks !! k = Some bk ->
    batch_failed callAI parseResponse k bk = true ->
    let run := getOrganizeSuggestions callAI parseResponse onProgress bookmarks in
    (forall b, In b bk -> fst run !! id b = None) /\
    classify_calls (snd run) = make_batches bookmarks /\
    (forall j bj, j <> k -> make_batches bookmarks !! j = Some bj ->
                  batch_entries callAI parseResponse j bj ⊆ fst run).

(** The bookmarks-bar id as the specification words it: the id of a node
    titled '书签栏' or 'Bookmarks Bar' found by searching the tree, ['1'] if
    there is none. *)
Definition spec_bookmarkBarId (nodes : list BookmarkNode) : string :=
  match List.find is_bar_title (all_nodes nodes) with
  | Some node => id node
  | None => "1"
  end.

(** The live system container that has a given role, as C2 words it: the
    child of the live root whose type marker is that role. *)
Definition live_container_id (currentTree : list BookmarkNode) (role : string)
  : option string :=
  id <$> List.find (fun n => opt_is (folderType n) role)
           (flat_map (fun root => match children root with
                                  | Some cs => cs
                                  | None => []
                                  end) currentTree).

(** C2 as stated, for one restore: each recorded child of a recorded system
    container is created under the live container of the same role, and not
    under the recorded id when the two differ. *)
Definition restores_under_live_container (chrome : Chrome) (fuel : nat)
    (snapshots : gmap string Snapshot.t) (snapshotId : string)
    (currentTree : list BookmarkNode) : Prop :=
  forall snapshot calls root containers c role cs child liveId,
    snapshots !! snapshotId = Some snapshot ->
    restoreSnapshot chrome fuel snapshots snapshotId currentTree = Some calls ->
    In root (Snapshot.treeData snapshot) -> children root = Some containers ->
    In c containers -> folderType c = Some role ->
    children c = Some cs -> In child cs ->
    live_container_id currentTree role = Some liveId ->
    In (CreateCall liveId (title child) (node_link child)) calls /\
    (liveId <> id c -> ~ In (CreateCall (id c) (title child) (node_link child)) calls).

(** * Properties *)

(** ** Tree model *)

Lemma flatten_traverse_url (node : BookmarkNode) :
  Forall (fun n => truthy (url n) = true) (flatten_traverse node).
Proof.
  induction node as [i p u t ft | i p u t cs ft IH] using BookmarkNode_tree_ind;
    cbn [flatten_traverse children url].
  - rewrite app_nil_r. destruct (truthy u) eqn:E; repeat constructor; exact E.
  - apply Forall_app; split.
    + destruct (truthy u) eqn:E; repeat constructor; exact E.
    + induction IH as [| c cs' Hc _ IHcs]; cbn [flat_map]; [constructor |].
      apply Forall_app; split; assumption.
Qed.

Lemma flattenBookmarks_url (nodes : list BookmarkNode) :
  Forall (fun n => truthy (url n) = true) (flattenBookmarks nodes).
Proof.
  unfold flattenBookmarks.
  induction nodes as [| n ns IH]; cbn [flat_map]; [constructor |].
  apply Forall_app; split; [apply flatten_traverse_url | exact IH].
Qed.

Lemma stats_children_count (depth : nat) (cs : list BookmarkNode) :
  Forall (fun c => forall d st,
            bookmarkCount (stats_traverse c d st)
            = bookmarkCount st + length (List.filter user_node (flatten_traverse c))) cs ->
  forall st,
    bookmarkCount (fold_left (fun s child => stats_traverse child depth s) cs st)
    = bookmarkCount st + length (List.filter user_node (flat_map flatten_traverse cs)).
Proof.
  induction 1 as [| c cs' Hc _ IH]; intros st; cbn [fold_left flat_map].
  - cbn. lia.
  - rewrite IH, Hc, List.filter_app, length_app. lia.
Qed.

Lemma stats_traverse_count (node : BookmarkNode) :
  forall depth st,
    bookmarkCount (stats_traverse node depth st)
    = bookmarkCount st + length (List.filter user_node (flatten_traverse node)).
Proof.
  induction node as [i p u t ft | i p u t cs ft IH] using BookmarkNode_tree_ind;
    intros depth st; cbn [stats_traverse flatten_traverse children url];
    set (n := mkNode _ _ _ _ _ _); rewrite List.filter_app, length_app.
  - destruct (isSystemFolder n) eqn:Es; destruct (truthy u);
      cbn [List.filter]; unfold user_node; rewrite ?Es; cbn; lia.
  - destruct (isSystemFolder n) eqn:Es.
    + rewrite (stats_children_count 0 cs IH).
      destruct (truthy u); cbn [List.filter]; unfold user_node;
        rewrite ?Es; cbn; lia.
    + rewrite (stats_children_count (depth + 1) cs IH).
      destruct (truthy u); cbn [List.filter]; unfold user_node;
        rewrite ?Es; cbn; lia.
Qed.

(** [bookmarkCount] counts the URL nodes that are not classified as system
    folders. *)
Lemma bookmarkCount_flatten (nodes : list BookmarkNode) :
  bookmarkCount (getBookmarkStats nodes)
  = length (List.filter user_node (flattenBookmarks nodes)).
Proof.
  unfold getBookmarkStats, flattenBookmarks.
  rewrite (stats_children_count 0 nodes); [reflexivity |].
  apply Forall_forall. intros c _ d st. apply stats_traverse_count.
Qed.

Lemma filter_all_true {A : Type} (f : A -> bool) (l : list A) :
  Forall (fun x => f x = true) l -> List.filter f l = l.
Proof.
  induction 1 as [| x l' Hx _ IH]; cbn; [reflexivity |]. rewrite Hx, IH. reflexivity.
Qed.

Lemma folders_traverse_user (node : BookmarkNode) :
  Forall (fun n => isSystemFolder n = false) (folders_traverse node).
Proof.
  induction node as [i p u t ft | i p u t cs ft IH] using BookmarkNode_tree_ind;
    cbn [folders_traverse children url]; set (n := mkNode _ _ _ _ _ _);
    apply Forall_app; split.
  - destruct (isSystemFolder n) eqn:Es; destruct (truthy u); cbn;
      repeat constructor; exact Es.
  - constructor.
  - destruct (isSystemFolder n) eqn:Es; destruct (truthy u); cbn;
      repeat constructor; exact Es.
  - induction IH as [| c cs' Hc _ IHcs]; cbn [flat_map]; [constructor |].
    apply Forall_app; split; assumption.
Qed.

Lemma getAllFolders_user (nodes : list BookmarkNode) :
  Forall (fun n => isSystemFolder n = false) (getAllFolders nodes).
Proof.
  unfold getAllFolders.
  induction nodes as [| n ns IH]; cbn [flat_map]; [constructor |].
  apply Forall_app; split; [apply folders_traverse_user | exact IH].
Qed.

(** C7. A node whose [parentId] is the root id ['0'] is a system folder for
    [isSystemFolder] whatever its [folderType], [url] and other fields are:
    the parent test comes before the type-marker test.  Such a node is
    therefore never listed by [getAllFolders] as a user folder. *)
Theorem isSystemFolder_child_of_root (node : BookmarkNode) :
  parentId node = Some "0" ->
  isSystemFolder node = true /\
  forall nodes : list BookmarkNode, ~ In node (getAllFolders nodes).
Proof.
  intros Hp.
  assert (Hs : isSystemFolder node = true).
  { unfold isSystemFolder. rewrite Hp. cbn [opt_is].
    destruct (String.eqb (id node) "0"); reflexivity. }
  split; [exact Hs |].
  intros nodes Hin.
  pose proof (getAllFolders_user nodes) as Hall.
  rewrite Forall_forall in Hall. specialize (Hall node).
  rewrite <- list_elem_of_In in Hin. specialize (Hall Hin). congruence.
Qed.

Lemma isSystemFolder_child_of_root_witness :
  parentId (mkNode "1" (Some "0") None "Bookmarks bar" (Some []) None) = Some "0" /\
  isSystemFolder (mkNode "1" (Some "0") None "Bookmarks bar" (Some []) None) = true.
Proof.
  split; [reflexivity |].
  apply (isSystemFolder_child_of_root
           (mkNode "1" (Some "0") None "Bookmarks bar" (Some []) None)).
  reflexivity.
Defined.

Lemma flatten_traverse_preorder (node : BookmarkNode) :
  flatten_traverse node = List.filter (fun n => truthy (url n)) (node_list node).
Proof.
  induction node as [i p u t ft | i p u t cs ft IH] using BookmarkNode_tree_ind;
    cbn [flatten_traverse node_list children url List.filter].
  - destruct (truthy u); reflexivity.
  - assert (Hcs : flat_map flatten_traverse cs
                  = List.filter (fun n => truthy (url n)) (flat_map node_list cs)).
    { induction IH as [| c cs' Hc _ IHcs]; cbn [flat_map]; [reflexivity |].
      rewrite List.filter_app, Hc, IHcs. reflexivity. }
    rewrite Hcs. destruct (truthy u); reflexivity.
Qed.

Lemma flattenBookmarks_filter (nodes : list BookmarkNode) :
  flattenBookmarks nodes = List.filter (fun n => truthy (url n)) (all_nodes nodes).
Proof.
  unfold flattenBookmarks, all_nodes.
  induction nodes as [| n ns IH]; cbn [flat_map]; [reflexivity |].
  rewrite List.filter_app, flatten_traverse_preorder, IH. reflexivity.
Qed.

(** C8. On every tree of the data model, in which the nodes of the system
    layer are folders, the number of nodes returned by [flattenBookmarks] is
    the [bookmarkCount] computed by [getBookmarkStats] on the same tree, and
    every node returned by [flattenBookmarks] has a URL. *)
Theorem flatten_length_bookmarkCount (nodes : list BookmarkNode) :
  system_nodes_are_folders nodes = true ->
  length (flattenBookmarks nodes) = bookmarkCount (getBookmarkStats nodes) /\
  Forall (fun n => truthy (url n) = true) (flattenBookmarks nodes).
Proof.
  intros Hmodel. split; [| apply flattenBookmarks_url].
  rewrite bookmarkCount_flatten, filter_all_true; [reflexivity |].
  apply List.Forall_forall. intros n Hn.
  rewrite flattenBookmarks_filter in Hn. apply filter_In in Hn as [Hin Hurl].
  unfold system_nodes_are_folders in Hmodel.
  rewrite forallb_forall in Hmodel. specialize (Hmodel n Hin).
  unfold user_node. rewrite Hurl, andb_true_r in Hmodel. exact Hmodel.
Qed.

Lemma flatten_length_bookmarkCount_witness :
  system_nodes_are_folders scenario_tree = true /\
  length (flattenBookmarks scenario_tree) = bookmarkCount (getBookmarkStats scenario_tree) /\
  Forall (fun n => truthy (url n) = true) (flattenBookmarks scenario_tree).
Proof.
  split; [reflexivity |].
  exact (flatten_length_bookmarkCount scenario_tree eq_refl).
Defined.

(** The scenario of the specification. *)
Example scenario_stats_flatten :
  getBookmarkStats scenario_tree = mkStats 2 1 1 /\
  flattenBookmarks scenario_tree = [bookmark1; bookmark2].
Proof. split; reflexivity. Qed.

(** ** Batch dispatcher *)

Lemma batchSize_pos : 0 < batchSize.
Proof. unfold batchSize. lia. Qed.

Lemma slice_take_drop {A : Type} (i n : nat) (l : list A) :
  slice i (i + n) l = take n (drop i l).
Proof. unfold slice. replace (i + n - i) with n by lia. reflexivity. Qed.

Lemma ceil_div_step (n b : nat) :
  0 < b -> 0 < n -> ceil_div n b = S (ceil_div (n - b) b).
Proof.
  intros Hb Hn. unfold ceil_div.
  destruct (Nat.le_gt_cases b n) as [Hle | Hgt].
  - replace (n + b - 1) with ((n - b + b - 1) + 1 * b) by lia.
    rewrite Nat.div_add by lia. lia.
  - replace (n - b) with 0 by lia. cbn [Nat.add].
    replace (n + b - 1) with ((n - 1) + 1 * b) by lia.
    rewrite Nat.div_add by lia.
    rewrite !Nat.div_small by lia. reflexivity.
Qed.

(** The batching loop, for any positive group size. *)
Section Batches.
Context {A : Type}.
Variable size : nat.
Hypothesis size_pos : 0 < size.

(** The loop leaves by its condition, not by lack of fuel: its groups put
    together are the rest of the input. *)
Lemma batches_from_concat (fuel : nat) (l : list A) :
  forall i, length l - i <= fuel -> concat (batches_from size fuel l i) = drop i l.
Proof.
  induction fuel as [| fuel IH]; intros i Hfuel; cbn [batches_from].
  - rewrite drop_ge by lia. reflexivity.
  - destruct (Nat.ltb_spec i (length l)) as [Hlt | Hge].
    + cbn [concat]. rewrite IH by lia.
      rewrite slice_take_drop, <- drop_drop. apply take_drop.
    + rewrite drop_ge by lia. reflexivity.
Qed.

Lemma batches_from_fuel (l : list A) :
  forall fuel fuel' i,
    length l - i <= fuel -> length l - i <= fuel' ->
    batches_from size fuel l i = batches_from size fuel' l i.
Proof.
  induction fuel as [| fuel IH]; intros fuel' i H1 H2.
  - destruct fuel' as [| fuel']; [reflexivity |]. cbn [batches_from].
    destruct (Nat.ltb_spec i (length l)); [lia | reflexivity].
  - destruct fuel' as [| fuel']; cbn [batches_from];
      destruct (Nat.ltb_spec i (length l)); try lia; try reflexivity.
    f_equal. apply IH; lia.
Qed.

Lemma batches_from_length (fuel : nat) (l : list A) :
  forall i, length l - i <= fuel ->
    length (batches_from size fuel l i) = ceil_div (length l - i) size.
Proof.
  induction fuel as [| fuel IH]; intros i Hfuel; cbn [batches_from].
  - replace (length l - i) with 0 by lia. unfold ceil_div. cbn [Nat.add length].
    rewrite Nat.div_small by lia. reflexivity.
  - destruct (Nat.ltb_spec i (length l)) as [Hlt | Hge].
    + cbn [length]. rewrite IH by lia.
      rewrite (ceil_div_step (length l - i)) by lia.
      do 2 f_equal. lia.
    + replace (length l - i) with 0 by lia. unfold ceil_div. cbn [Nat.add length].
      rewrite Nat.div_small by lia. reflexivity.
Qed.

Lemma batches_from_lookup (fuel : nat) (l : list A) :
  forall i k g,
    batches_from size fuel l i !! k = Some g ->
    g = take size (drop (i + k * size) l) /\ i + k * size < length l.
Proof.
  induction fuel as [| fuel IH]; intros i k g Hk; cbn [batches_from] in Hk.
  - discriminate Hk.
  - destruct (Nat.ltb_spec i (length l)) as [Hlt | Hge]; [| discriminate Hk].
    destruct k as [| k]; cbn in Hk.
    + injection Hk as <-. rewrite slice_take_drop.
      replace (i + 0 * size) with i by lia. split; [reflexivity | exact Hlt].
    + apply IH in Hk. replace (i + S k * size) with (i + size + k * size) by lia.
      exact Hk.
Qed.

(** For every list of length [N] and every group size [B > 0], the loop
    makes [ceil(N / B)] groups, which put one after the other are the input;
    group [k] is the [B] elements from position [k * B] on, it is not empty,
    and every group but the last has exactly [B] elements. *)
Lemma batches_from_partition (l : list A) :
  let groups := batches_from size (length l) l 0 in
  length groups = ceil_div (length l) size /\
  concat groups = l /\
  forall k g, groups !! k = Some g ->
    g = take size (drop (k * size) l) /\
    0 < length g /\ length g <= size /\
    (S k < length groups -> length g = size).
Proof.
  cbv zeta. split; [| split].
  - rewrite batches_from_length by lia. rewrite Nat.sub_0_r. reflexivity.
  - rewrite batches_from_concat by lia. reflexivity.
  - intros k g Hk. pose proof (batches_from_lookup _ _ _ _ _ Hk) as [Hg Hlt].
    cbn [Nat.add] in Hg, Hlt. split; [exact Hg |].
    subst g. rewrite length_take, length_drop.
    split; [lia |]. split; [lia |].
    intros Hnext.
    destruct (lookup_lt_is_Some_2 (batches_from size (length l) l 0) (S k) Hnext)
      as [g' Hg'].
    apply batches_from_lookup in Hg' as [_ Hlt']. lia.
Qed.
End Batches.

Section DispatcherFacts.
Variable callAI : nat -> list BookmarkNode -> option string.
Variable parseResponse : string -> option Json.
Variable onProgress : bool.

Lemma organize_loop_calls (batches : list (list BookmarkNode)) :
  forall i total results trace,
    classify_calls
      (snd (organize_loop callAI parseResponse onProgress batches i total results trace))
    = classify_calls trace ++ batches.
Proof.
  induction batches as [| b bs IH]; intros i total results trace; cbn [organize_loop snd].
  - rewrite app_nil_r. reflexivity.
  - rewrite IH. unfold classify_calls. rewrite !flat_map_app.
    destruct onProgress; cbn; rewrite ?app_nil_r, <- app_assoc; reflexivity.
Qed.

Lemma organize_loop_progress (batches : list (list BookmarkNode)) :
  forall i total results trace,
    progress_reports
      (snd (organize_loop callAI parseResponse true batches i total results trace))
    = progress_reports trace
      ++ map (fun j => ((j + 1) * batchSize, total)) (seq i (length batches)).
Proof.
  induction batches as [| b bs IH]; intros i total results trace; cbn [organize_loop snd].
  - cbn. rewrite app_nil_r. reflexivity.
  - rewrite IH. unfold progress_reports. rewrite !flat_map_app.
    cbn. rewrite <- app_assoc. reflexivity.
Qed.
End DispatcherFacts.

(** The progress reports of a run: one per batch, the [j]-th (from 0) with
    the count [(j + 1) * batchSize]. *)
Lemma getOrganizeSuggestions_progress callAI parseResponse (bookmarks : list BookmarkNode) :
  progress_reports (snd (getOrganizeSuggestions callAI parseResponse true bookmarks))
  = map (fun j => ((j + 1) * batchSize, length bookmarks))
      (seq 0 (ceil_div (length bookmarks) batchSize)).
Proof.
  unfold getOrganizeSuggestions. rewrite organize_loop_progress. cbn [progress_reports flat_map app].
  unfold make_batches. rewrite (batches_from_length batchSize batchSize_pos) by lia.
  rewrite Nat.sub_0_r. reflexivity.
Qed.

(** C4, at an input where the code departs from it. With five bookmarks
    (one batch, smaller than [batchSize]) the single progress report is
    [onProgress(20, 5)]: the count passed is the batch number times 20, not
    the number of bookmarks attempted, and the last report is not 5. *)
Theorem progress_report_five_bookmarks callAI parseResponse :
  progress_reports (snd (getOrganizeSuggestions callAI parseResponse true five_bookmarks))
  = [(20, 5)].
Proof. rewrite getOrganizeSuggestions_progress. reflexivity. Qed.

(** C6. The classification calls of a run are issued for [ceil(N / 20)]
    groups; the groups put one after the other are the input list, so that
    every bookmark is in exactly one group, in input order; group [k] is the
    [batchSize] bookmarks from position [k * batchSize] on, it is never
    empty, and every group but the last has exactly [batchSize] bookmarks. *)
Theorem dispatcher_partitions_input callAI parseResponse onProgress
    (bookmarks : list BookmarkNode) :
  let calls :=
    classify_calls (snd (getOrganizeSuggestions callAI parseResponse onProgress bookmarks)) in
  length calls = ceil_div (length bookmarks) batchSize /\
  concat calls = bookmarks /\
  forall k g, calls !! k = Some g ->
    g = take batchSize (drop (k * batchSize) bookmarks) /\
    0 < length g /\ length g <= batchSize /\
    (S k < length calls -> length g = batchSize).
Proof.
  cbv zeta. unfold getOrganizeSuggestions. rewrite organize_loop_calls.
  cbn [classify_calls flat_map app]. unfold make_batches.
  exact (batches_from_partition batchSize batchSize_pos bookmarks).
Qed.

Lemma concat_lookup_elem {A B : Type} (f : A -> B) (bs : list (list A)) :
  forall j bj x, bs !! j = Some bj -> x ∈ f <$> bj -> x ∈ f <$> concat bs.
Proof.
  induction bs as [| b bs IH]; intros j bj x Hj Hx; [discriminate Hj |].
  cbn [concat]. rewrite fmap_app, elem_of_app.
  destruct j as [| j]; cbn in Hj.
  - injection Hj as ->. left. exact Hx.
  - right. eapply IH; eassumption.
Qed.

Lemma concat_NoDup_disjoint {A B : Type} (f : A -> B) (bs : list (list A)) :
  NoDup (f <$> concat bs) ->
  forall j j' bj bj' x,
    j < j' -> bs !! j = Some bj -> bs !! j' = Some bj' ->
    x ∈ f <$> bj -> x ∈ f <$> bj' -> False.
Proof.
  induction bs as [| b bs IH]; intros Hnd j j' bj bj' x Hlt Hj Hj' Hx Hx';
    [discriminate Hj |].
  cbn [concat] in Hnd. rewrite fmap_app in Hnd.
  apply NoDup_app in Hnd as (_ & Hdisj & Hnd).
  destruct j' as [| j']; [lia |]. cbn in Hj'.
  destruct j as [| j]; cbn in Hj.
  - injection Hj as ->. apply (Hdisj x Hx).
    eapply concat_lookup_elem; eassumption.
  - eapply (IH Hnd j j'); try eassumption. lia.
Qed.

Section PartialFailure.
Variable callAI : nat -> list BookmarkNode -> option string.
Variable parseResponse : string -> option Json.
Variable onProgress : bool.

Lemma forEach_set_union (parsed : list (option Item.t)) :
  forall results : gmap string Suggestion.t,
    forEach_set parsed results = forEach_set parsed ∅ ∪ results.
Proof.
  induction parsed as [| [item |] rest IH]; intros results; cbn [forEach_set].
  - rewrite (left_id_L ∅ (∪)). reflexivity.
  - rewrite IH. rewrite (IH (<[_ := _]> ∅)).
    rewrite insert_empty, <- (assoc_L (∪)), <- insert_union_singleton_l. reflexivity.
  - rewrite (left_id_L ∅ (∪)). reflexivity.
Qed.

Lemma classify_batch_union (i : nat) (batch : list BookmarkNode)
    (results : gmap string Suggestion.t) :
  classify_batch callAI parseResponse i batch results
  = batch_entries callAI parseResponse i batch ∪ results.
Proof.
  unfold batch_entries, classify_batch.
  destruct (callAI i batch) as [response |];
    [destruct (parseResponse response) as [[parsed |] |] |];
    rewrite ?(left_id_L ∅ (∪)); try reflexivity.
  apply forEach_set_union.
Qed.

(** A failed batch leaves the result map as it was. *)
Lemma batch_failed_entries (i : nat) (batch : list BookmarkNode) :
  batch_failed callAI parseResponse i batch = true ->
  batch_entries callAI parseResponse i batch = ∅.
Proof.
  unfold batch_failed, batch_entries, classify_batch.
  destruct (callAI i batch) as [response |];
    [destruct (parseResponse response) as [[parsed |] |] |];
    intros H; try reflexivity; discriminate H.
Qed.

Lemma organize_loop_untouched (batches : list (list BookmarkNode)) (x : string) :
  forall i total results trace,
    (forall j bj, batches !! j = Some bj ->
                  batch_entries callAI parseResponse (i + j) bj !! x = None) ->
    fst (organize_loop callAI parseResponse onProgress batches i total results trace) !! x
    = results !! x.
Proof.
  induction batches as [| b bs IH]; intros i total results trace Hnone;
    cbn [organize_loop fst]; [reflexivity |].
  rewrite IH.
  - rewrite classify_batch_union. apply lookup_union_r.
    specialize (Hnone 0 b eq_refl). rewrite Nat.add_0_r in Hnone. exact Hnone.
  - intros j bj Hj. specialize (Hnone (S j) bj Hj).
    replace (S i + j) with (i + S j) by lia. exact Hnone.
Qed.

Lemma organize_loop_entry (batches : list (list BookmarkNode)) (x : string)
    (v : Suggestion.t) :
  forall j bj i total results trace,
    batches !! j = Some bj ->
    batch_entries callAI parseResponse (i + j) bj !! x = Some v ->
    (forall j' bj', j < j' -> batches !! j' = Some bj' ->
                    batch_entries callAI parseResponse (i + j') bj' !! x = None) ->
    fst (organize_loop callAI parseResponse onProgress batches i total results trace) !! x
    = Some v.
Proof.
  induction batches as [| b bs IH]; intros j bj i total results trace Hj Hv Hlater;
    [discriminate Hj |].
  cbn [organize_loop fst].
  destruct j as [| j]; cbn in Hj.
  - injection Hj as ->. rewrite Nat.add_0_r in Hv.
    rewrite organize_loop_untouched.
    + rewrite classify_batch_union. apply lookup_union_Some_l. exact Hv.
    + intros j' bj' Hj'. replace (S i + j') with (i + S j') by lia.
      apply Hlater; [lia | exact Hj'].
  - apply (IH j bj); [exact Hj | |].
    + replace (S i + j) with (i + S j) by lia. exact Hv.
    + intros j' bj' Hlt Hj'. replace (S i + j') with (i + S j') by lia.
      apply Hlater; [lia | exact Hj'].
Qed.
End PartialFailure.

Lemma merge_entries_skip_empty (entries : list (gmap string Suggestion.t)) :
  forall k results,
    entries !! k = Some ∅ ->
    merge_entries (delete k entries) results = merge_entries entries results.
Proof.
  unfold merge_entries.
  induction entries as [| e es IH]; intros k results Hk; [discriminate Hk |].
  destruct k as [| k]; cbn in Hk |- *.
  - injection Hk as ->. rewrite (left_id_L ∅ (∪)). reflexivity.
  - apply IH. exact Hk.
Qed.

Lemma organize_loop_results callAI parseResponse onProgress
    (batches : list (list BookmarkNode)) :
  forall i total results trace,
    fst (organize_loop callAI parseResponse onProgress batches i total results trace)
    = merge_entries
        (imap (fun j batch => batch_entries callAI parseResponse (i + j) batch) batches)
        results.
Proof.
  unfold merge_entries.
  induction batches as [| b bs IH]; intros i total results trace;
    cbn [organize_loop fst]; [reflexivity |].
  rewrite IH, imap_cons. cbn [fold_left]. rewrite classify_batch_union, Nat.add_0_r.
  f_equal. apply imap_ext. intros j x _. cbn. f_equal. lia.
Qed.

Lemma find_app_first {A : Type} (f : A -> bool) (l1 l2 : list A) :
  List.find f (l1 ++ l2)
  = match List.find f l1 with
    | Some x => Some x
    | None => List.find f l2
    end.
Proof.
  induction l1 as [| x l1 IH]; cbn [app List.find]; [reflexivity |].
  destruct (f x); [reflexivity | exact IH].
Qed.

Lemma forEach_set_lookup (items : list Item.t) :
  forall (results : gmap string Suggestion.t) (x : string),
    forEach_set (map Some items) results !! x
    = match List.find (fun item => String.eqb (Item.id item) x) (rev items) with
      | Some item => Some (Suggestion.mk (Item.category item) (Item.isNewCategory item))
      | None => results !! x
      end.
Proof.
  induction items as [| item rest IH]; intros results x; cbn [map forEach_set rev];
    [reflexivity |].
  rewrite IH, find_app_first.
  destruct (List.find _ (rev rest)) as [later |]; [reflexivity |].
  cbn [List.find]. destruct (String.eqb_spec (Item.id item) x) as [<- | Hne].
  - apply lookup_insert_eq.
  - apply lookup_insert_ne. exact Hne.
Qed.

Lemma forEach_set_stored (parsed : list (option Item.t)) :
  forall results : gmap string Suggestion.t,
    forEach_set parsed results = forEach_set (map Some (stored parsed)) results.
Proof.
  induction parsed as [| [item |] rest IH]; intros results; cbn [stored map forEach_set];
    [reflexivity | apply IH | reflexivity].
Qed.

Lemma batch_entries_lookup callAI parseResponse (i : nat) (batch : list BookmarkNode)
    (x : string) :
  batch_entries callAI parseResponse i batch !! x
  = last_answer (answered callAI parseResponse i batch) x.
Proof.
  unfold batch_entries, classify_batch, answered, last_answer.
  destruct (callAI i batch) as [response |]; [| apply lookup_empty].
  destruct (parseResponse response) as [[parsed |] |]; try apply lookup_empty.
  rewrite forEach_set_stored, forEach_set_lookup.
  destruct (List.find _ (rev (stored parsed))); [reflexivity | apply lookup_empty].
Qed.

Lemma answered_failed callAI parseResponse (i : nat) (batch : list BookmarkNode) :
  batch_failed callAI parseResponse i batch = true ->
  answered callAI parseResponse i batch = [].
Proof.
  unfold batch_failed, answered.
  destruct (callAI i batch) as [response |]; [| reflexivity].
  destruct (parseResponse response) as [[parsed |] |]; try reflexivity. discriminate.
Qed.

Lemma last_answer_app (l1 l2 : list Item.t) (x : string) :
  last_answer (l1 ++ l2) x
  = match last_answer l2 x with
    | Some v => Some v
    | None => last_answer l1 x
    end.
Proof.
  unfold last_answer. rewrite rev_app_distr, find_app_first.
  destruct (List.find _ (rev l2)); reflexivity.
Qed.

Lemma last_answer_Some (l : list Item.t) (x : string) (v : Suggestion.t) :
  last_answer l x = Some v ->
  exists item, In item l /\ Item.id item = x /\
               v = Suggestion.mk (Item.category item) (Item.isNewCategory item).
Proof.
  unfold last_answer.
  destruct (List.find _ (rev l)) as [item |] eqn:E; [| discriminate].
  intros [= <-]. apply find_some in E as [Hin Hid].
  exists item. split; [apply in_rev; exact Hin |].
  split; [apply String.eqb_eq; exact Hid | reflexivity].
Qed.

Lemma last_answer_None (l : list Item.t) (x : string) :
  last_answer l x = None <-> forall item, In item l -> Item.id item <> x.
Proof.
  unfold last_answer. split.
  - destruct (List.find _ (rev l)) as [item |] eqn:E; [discriminate |].
    intros _ item Hin Hid.
    pose proof (find_none _ _ E item (proj1 (in_rev l item) Hin)) as Hn.
    cbn in Hn. rewrite Hid, String.eqb_refl in Hn. discriminate Hn.
  - intros Hall. destruct (List.find _ (rev l)) as [item |] eqn:E; [| reflexivity].
    apply find_some in E as [Hin Hid]. apply String.eqb_eq in Hid.
    exfalso. exact (Hall item (proj2 (in_rev l item) Hin) Hid).
Qed.

Lemma merge_entries_lookup (es : list (gmap string Suggestion.t))
    (iss : list (list Item.t)) :
  Forall2 (fun e items => forall x, e !! x = last_answer items x) es iss ->
  forall (results : gmap string Suggestion.t) (x : string),
    merge_entries es results !! x
    = match last_answer (concat iss) x with
      | Some v => Some v
      | None => results !! x
      end.
Proof.
  unfold merge_entries.
  induction 1 as [| e items es' iss' He _ IH]; intros results x; cbn [fold_left concat].
  - reflexivity.
  - rewrite IH, last_answer_app.
    destruct (last_answer (concat iss') x); [reflexivity |].
    rewrite <- He. destruct (e !! x) as [v |] eqn:Ex.
    + apply lookup_union_Some_l. exact Ex.
    + apply lookup_union_r. exact Ex.
Qed.

Lemma imap_Forall2 {A B C : Type} (P : B -> C -> Prop) (l : list A) :
  forall (f : nat -> A -> B) (g : nat -> A -> C),
    (forall j a, P (f j a) (g j a)) -> Forall2 P (imap f l) (imap g l).
Proof.
  induction l as [| a l IH]; intros f g Hfg; [constructor |].
  rewrite !imap_cons. constructor; [apply Hfg |].
  apply IH. intros j b. apply Hfg.
Qed.

Lemma concat_delete_nil {A : Type} (l : list (list A)) :
  forall k, l !! k = Some [] -> concat (delete k l) = concat l.
Proof.
  induction l as [| a l IH]; intros k Hk; [discriminate Hk |].
  destruct k as [| k]; cbn in Hk |- *.
  - injection Hk as ->. reflexivity.
  - rewrite IH by exact Hk. reflexivity.
Qed.

(** The mapping returned by [getOrganizeSuggestions] holds, for each id,
    what the last stored element naming it says, over all batches in
    order. *)
Lemma getOrganizeSuggestions_lookup callAI parseResponse onProgress
    (bookmarks : list BookmarkNode) (x : string) :
  fst (getOrganizeSuggestions callAI parseResponse onProgress bookmarks) !! x
  = last_answer
      (concat (imap (answered callAI parseResponse) (make_batches bookmarks))) x.
Proof.
  unfold getOrganizeSuggestions. rewrite organize_loop_results.
  rewrite (merge_entries_lookup _ (imap (answered callAI parseResponse)
                                     (make_batches bookmarks))).
  - rewrite lookup_empty. destruct (last_answer _ x); reflexivity.
  - apply imap_Forall2. intros j a y. cbn [Nat.add]. apply batch_entries_lookup.
Qed.

(** C5 fails as stated: the first batch of [many_bookmarks] fails and the
    answer for the second batch names bookmark 101, which is in the first;
    the id is stored as answered, so a bookmark of the failed batch is in
    the mapping. *)
Lemma bad_batch_isolated_counterexample :
  ~ bad_batch_isolated flaky_callAI stray_parse false many_bookmarks.
Proof.
  intros H.
  destruct (H 0 (take 20 many_bookmarks) eq_refl eq_refl) as [Habsent _].
  specialize (Habsent (mkNode "101" (Some "1") (Some "https://site.example/") "page"
                         None None) (or_introl eq_refl)).
  vm_compute in Habsent. discriminate Habsent.
Qed.

(** C5, amended. If the call for batch [k] rejects, or its answer does not
    parse or is not an array, the dispatcher still issues the call of every
    batch, and the returned mapping is the one built from the answers of the
    other batches alone: each id is mapped to what the last element naming
    it in those answers says, so a bookmark of batch [k] is absent exactly
    when no other answer names its id. When moreover the bookmark ids are
    pairwise distinct and every answer names only ids of its own batch, no
    bookmark of batch [k] is in the mapping and the mapping contains every
    entry produced by each other batch. *)
Theorem failed_batch_does_not_abort callAI parseResponse onProgress
    (bookmarks : list BookmarkNode) (k : nat) (bk : list BookmarkNode) :
  make_batches bookmarks !! k = Some bk ->
  batch_failed callAI parseResponse k bk = true ->
  let run := getOrganizeSuggestions callAI parseResponse onProgress bookmarks in
  let others :=
    concat (delete k (imap (answered callAI parseResponse) (make_batches bookmarks))) in
  classify_calls (snd run) = make_batches bookmarks /\
  (forall x, fst run !! x = last_answer others x) /\
  (forall b, In b bk ->
     (fst run !! id b = None <-> forall item, In item others -> Item.id item <> id b)) /\
  (NoDup (id <$> bookmarks) ->
   (forall j bj item,
       make_batches bookmarks !! j = Some bj ->
       In item (answered callAI parseResponse j bj) -> Item.id item ∈ id <$> bj) ->
   (forall b, In b bk -> fst run !! id b = None) /\
   (forall j bj, j <> k -> make_batches bookmarks !! j = Some bj ->
                 batch_entries callAI parseResponse j bj ⊆ fst run)).
Proof.
  intros Hk Hfail. cbv zeta.
  assert (Hmap : forall x,
             fst (getOrganizeSuggestions callAI parseResponse onProgress bookmarks) !! x
             = last_answer
                 (concat (delete k (imap (answered callAI parseResponse)
                                      (make_batches bookmarks)))) x).
  { intros x. rewrite getOrganizeSuggestions_lookup, concat_delete_nil; [reflexivity |].
    rewrite list_lookup_imap, Hk. cbn.
    rewrite answered_failed by exact Hfail. reflexivity. }
  split; [unfold getOrganizeSuggestions; rewrite organize_loop_calls; reflexivity |].
  split; [exact Hmap |].
  split; [intros b _; rewrite Hmap; apply last_answer_None |].
  intros Hnd Hanswers.
  assert (Hown : forall j bj x,
             make_batches bookmarks !! j = Some bj ->
             is_Some (batch_entries callAI parseResponse j bj !! x) -> x ∈ id <$> bj).
  { intros j bj x Hj [v Hv]. rewrite batch_entries_lookup in Hv.
    apply last_answer_Some in Hv as (item & Hin & <- & _).
    exact (Hanswers j bj item Hj Hin). }
  assert (Hdisj : forall j j' bj bj' x,
             j <> j' -> make_batches bookmarks !! j = Some bj ->
             make_batches bookmarks !! j' = Some bj' ->
             x ∈ id <$> bj -> x ∈ id <$> bj' -> False).
  { assert (Hc : NoDup (id <$> concat (make_batches bookmarks))).
    { unfold make_batches.
      rewrite (batches_from_concat batchSize batchSize_pos) by lia. exact Hnd. }
    intros j j' bj bj' x Hne Hj Hj' Hx Hx'.
    destruct (Nat.lt_total j j') as [Hlt | [Heq | Hgt]]; [| congruence |].
    - exact (concat_NoDup_disjoint id _ Hc j j' bj bj' x Hlt Hj Hj' Hx Hx').
    - exact (concat_NoDup_disjoint id _ Hc j' j bj' bj x Hgt Hj' Hj Hx' Hx). }
  unfold getOrganizeSuggestions. split.
  - intros b Hb. rewrite organize_loop_untouched; [apply lookup_empty |].
    intros j bj Hj. cbn [Nat.add].
    destruct (decide (j = k)) as [-> | Hne].
    + rewrite Hj in Hk. injection Hk as ->.
      rewrite batch_failed_entries by exact Hfail. apply lookup_empty.
    + destruct (batch_entries callAI parseResponse j bj !! id b) eqn:E; [| reflexivity].
      exfalso. apply (Hdisj j k bj bk (id b) Hne Hj Hk).
      * apply (Hown j bj); [exact Hj | rewrite E; eauto].
      * apply list_elem_of_fmap_2, list_elem_of_In. exact Hb.
  - intros j bj Hne Hj. apply map_subseteq_spec. intros x v Hv.
    apply (organize_loop_entry callAI parseResponse onProgress _ x v j bj);
      [exact Hj | exact Hv |].
    intros j' bj' Hlt Hj'. cbn [Nat.add].
    destruct (batch_entries callAI parseResponse j' bj' !! x) eqn:E; [| reflexivity].
    exfalso. apply (Hdisj j j' bj bj' x); [lia | exact Hj | exact Hj' | |].
    + apply (Hown j bj); [exact Hj | rewrite Hv; eauto].
    + apply (Hown j' bj'); [exact Hj' | rewrite E; eauto].
Qed.

Lemma failed_batch_does_not_abort_witness :
  let run := getOrganizeSuggestions flaky_callAI example_parse true many_bookmarks in
  (make_batches many_bookmarks !! 0 = Some (take 20 many_bookmarks) /\
   batch_failed flaky_callAI example_parse 0 (take 20 many_bookmarks) = true) /\
  classify_calls (snd run) = make_batches many_bookmarks /\
  fst run !! "121" = Some (Suggestion.mk "Reading" false) /\
  forall b, In b (take 20 many_bookmarks) -> fst run !! id b = None.
Proof.
  cbv zeta. split; [split; reflexivity |].
  destruct (failed_batch_does_not_abort flaky_callAI example_parse true many_bookmarks 0
              (take 20 many_bookmarks) eq_refl eq_refl) as (Hcalls & Hmap & Habsent & _).
  split; [exact Hcalls |]. split; [rewrite (Hmap "121"); reflexivity |].
  intros b Hb. apply (Habsent b Hb). intros item Hitem Hid.
  vm_compute in Hitem. destruct Hitem as [<- | []].
  cbn in Hb.
  repeat (destruct Hb as [<- | Hb]; [discriminate Hid |]).
  exact Hb.
Defined.

(** ** Reconciliation *)

Section ReconciliationFacts.
Variable chrome : Chrome.
Variable tree : list BookmarkNode.

(** The first loop appends one [create] per name in [new], each under
    [findBookmarkBarId tree] and without URL; the names are distinct, were
    not yet in [newFolders], and each is the suggested folder of a result
    flagged as a new category. *)
Lemma create_loop_trace (organizeResults : list OrganizeResult.t) :
  forall newFolders h,
  exists new,
    snd (create_loop chrome tree organizeResults newFolders h)
    = h ++ map (fun name => CreateCall (findBookmarkBarId tree) name None) new /\
    NoDup new /\
    forall name, name ∈ new ->
      newFolders !! name = None /\
      exists r, r ∈ organizeResults /\
                OrganizeResult.isNewCategory r = true /\
                OrganizeResult.suggestedFolder r = name.
Proof.
  induction organizeResults as [| r rs IH]; intros newFolders h; cbn [create_loop].
  - exists []. cbn. rewrite app_nil_r. split; [reflexivity |].
    split; [constructor |]. intros name Hin. inversion Hin.
  - destruct (OrganizeResult.isNewCategory r) eqn:Enew; cbn [andb].
    2:{ destruct (IH newFolders h) as (new & Htr & Hnd & Hnew).
        exists new. split; [exact Htr |]. split; [exact Hnd |].
        intros name Hin. destruct (Hnew name Hin) as (Hnone & r' & Hr' & Hf).
        split; [exact Hnone |]. exists r'. split; [right; exact Hr' | exact Hf]. }
    destruct (bool_decide (is_Some (newFolders !! OrganizeResult.suggestedFolder r)))
      eqn:Ehas; cbn [negb].
    { destruct (IH newFolders h) as (new & Htr & Hnd & Hnew).
      exists new. split; [exact Htr |]. split; [exact Hnd |].
      intros name Hin. destruct (Hnew name Hin) as (Hnone & r' & Hr' & Hf).
      split; [exact Hnone |]. exists r'. split; [right; exact Hr' | exact Hf]. }
    apply bool_decide_eq_false in Ehas.
    assert (Hfree : newFolders !! OrganizeResult.suggestedFolder r = None).
    { destruct (newFolders !! OrganizeResult.suggestedFolder r) eqn:E; [| reflexivity].
      exfalso. apply Ehas. eauto. }
    destruct (bookmarks_create chrome h (findBookmarkBarId tree)
                (OrganizeResult.suggestedFolder r) None) as [newFolderId |].
    + destruct (IH (<[OrganizeResult.suggestedFolder r := newFolderId]> newFolders)
                   (h ++ [CreateCall (findBookmarkBarId tree)
                            (OrganizeResult.suggestedFolder r) None]))
        as (new & Htr & Hnd & Hnew).
      exists (OrganizeResult.suggestedFolder r :: new).
      split; [rewrite Htr; cbn [map]; rewrite <- app_assoc; reflexivity |].
      split.
      * constructor; [| exact Hnd]. intros Hin.
        destruct (Hnew _ Hin) as [Hnone _]. rewrite lookup_insert_eq in Hnone.
        discriminate Hnone.
      * intros name Hin. apply elem_of_cons in Hin as [-> | Hin].
        -- split; [exact Hfree |]. exists r. split; [left | split; [exact Enew | reflexivity]].
        -- destruct (Hnew name Hin) as (Hnone & r' & Hr' & Hf).
           split.
           ++ destruct (decide (OrganizeResult.suggestedFolder r = name)) as [Heq | Hne].
              ** rewrite Heq, lookup_insert_eq in Hnone. discriminate Hnone.
              ** rewrite lookup_insert_ne in Hnone by exact Hne. exact Hnone.
           ++ exists r'. split; [right; exact Hr' | exact Hf].
    + exists [OrganizeResult.suggestedFolder r]. cbn [snd map].
      split; [reflexivity |]. split; [apply NoDup_singleton |].
      intros name Hin. apply list_elem_of_singleton in Hin as ->.
      split; [exact Hfree |]. exists r. split; [left | split; [exact Enew | reflexivity]].
Qed.

(** The second loop appends [move] calls only. *)
Lemma move_loop_trace (organizeResults : list OrganizeResult.t) :
  forall newFolders h,
  exists moves,
    snd (move_loop chrome tree organizeResults newFolders h) = h ++ moves /\
    created_titles moves = [].
Proof.
  induction organizeResults as [| r rs IH]; intros newFolders h; cbn [move_loop].
  - exists []. rewrite app_nil_r. split; reflexivity.
  - destruct (targetFolderId tree newFolders r) as [target |]; [| apply IH].
    destruct (move_guard (Some target) r); [| apply IH].
    destruct (bookmarks_move chrome h (OrganizeResult.bookmarkId r) target).
    + destruct (IH newFolders (h ++ [MoveCall (OrganizeResult.bookmarkId r) target]))
        as (moves & Htr & Hnone).
      exists (MoveCall (OrganizeResult.bookmarkId r) target :: moves).
      split; [rewrite Htr, <- app_assoc; reflexivity | exact Hnone].
    + exists [MoveCall (OrganizeResult.bookmarkId r) target]. split; reflexivity.
Qed.
End ReconciliationFacts.

Lemma created_titles_app (l1 l2 : list Call) :
  created_titles (l1 ++ l2) = created_titles l1 ++ created_titles l2.
Proof. unfold created_titles. apply flat_map_app. Qed.

Lemma created_titles_creates (parent : string) (new : list string) :
  created_titles (map (fun name => CreateCall parent name None) new) = new.
Proof.
  induction new as [| name new IH]; cbn; [reflexivity |]. f_equal. exact IH.
Qed.

Lemma created_titles_In (calls : list Call) (parent name : string) (link : option string) :
  In (CreateCall parent name link) calls -> In name (created_titles calls).
Proof.
  induction calls as [| c calls IH]; intros Hin; [inversion Hin |].
  destruct Hin as [-> | Hin]; cbn.
  - left. reflexivity.
  - apply in_or_app. right. apply IH. exact Hin.
Qed.

(** The calls of [handleApplyChanges]: the folder creations, then the moves. *)
Lemma handleApplyChanges_calls (chrome : Chrome) (tree : list BookmarkNode)
    (organizeResults : list OrganizeResult.t) :
  exists new moves,
    apply_calls (handleApplyChanges chrome tree organizeResults)
    = map (fun name => CreateCall (findBookmarkBarId tree) name None) new ++ moves /\
    created_titles moves = [] /\
    NoDup new /\
    forall name, name ∈ new ->
      exists r, r ∈ organizeResults /\
                OrganizeResult.isNewCategory r = true /\
                OrganizeResult.suggestedFolder r = name.
Proof.
  unfold handleApplyChanges.
  destruct (create_loop_trace chrome tree organizeResults ∅ []) as (new & Htr & Hnd & Hnew).
  assert (Hnew' : forall name, name ∈ new ->
            exists r, r ∈ organizeResults /\
                      OrganizeResult.isNewCategory r = true /\
                      OrganizeResult.suggestedFolder r = name).
  { intros name Hin. exact (proj2 (Hnew name Hin)). }
  destruct (create_loop chrome tree organizeResults ∅ []) as [[newFolders |] h];
    cbn [snd app] in Htr; subst h.
  - destruct (move_loop_trace chrome tree organizeResults newFolders
                (map (fun name => CreateCall (findBookmarkBarId tree) name None) new))
      as (moves & Hmv & Hnone).
    destruct (move_loop chrome tree organizeResults newFolders _) as [ok h'].
    cbn [snd] in Hmv. subst h'. exists new, moves. cbn [apply_calls]. auto.
  - exists new, []. cbn [apply_calls]. rewrite app_nil_r. auto.
Qed.

Lemma handleApplyChanges_titles (chrome : Chrome) (tree : list BookmarkNode)
    (organizeResults : list OrganizeResult.t) :
  NoDup (created_titles (apply_calls (handleApplyChanges chrome tree organizeResults))) /\
  forall name,
    name ∈ created_titles (apply_calls (handleApplyChanges chrome tree organizeResults)) ->
    exists r, r ∈ organizeResults /\
              OrganizeResult.isNewCategory r = true /\
              OrganizeResult.suggestedFolder r = name.
Proof.
  destruct (handleApplyChanges_calls chrome tree organizeResults)
    as (new & moves & -> & Hnone & Hnd & Hnew).
  rewrite created_titles_app, created_titles_creates, Hnone, app_nil_r.
  split; assumption.
Qed.

(** A first result flagged as a new category makes [create] the first call. *)
Lemma handleApplyChanges_first_create (chrome : Chrome) (tree : list BookmarkNode)
    (r : OrganizeResult.t) (rs : list OrganizeResult.t) :
  OrganizeResult.isNewCategory r = true ->
  exists later,
    apply_calls (handleApplyChanges chrome tree (r :: rs))
    = CreateCall (findBookmarkBarId tree) (OrganizeResult.suggestedFolder r) None :: later.
Proof.
  intros Enew. unfold handleApplyChanges. cbn [create_loop]. rewrite Enew.
  rewrite lookup_empty. cbn [andb negb app].
  replace (bool_decide (is_Some (@None string))) with false
    by (symmetry; apply bool_decide_eq_false; intros [x Hx]; discriminate Hx).
  cbn [negb].
  destruct (bookmarks_create chrome [] (findBookmarkBarId tree)
              (OrganizeResult.suggestedFolder r) None) as [newFolderId |].
  - set (h1 := [CreateCall _ _ _]). set (nf := <[_ := _]> ∅).
    destruct (create_loop_trace chrome tree rs nf h1) as (new & Htr & _).
    destruct (create_loop chrome tree rs nf h1) as [[newFolders |] h];
      cbn [snd] in Htr; subst h.
    + destruct (move_loop_trace chrome tree (r :: rs) newFolders
                  (h1 ++ map (fun name => CreateCall (findBookmarkBarId tree) name None) new))
        as (moves & Hmv & _).
      destruct (move_loop chrome tree (r :: rs) newFolders _) as [ok h'].
      cbn [snd] in Hmv. subst h'. cbn [apply_calls]. eexists. reflexivity.
    + cbn [apply_calls]. eexists. reflexivity.
  - cbn [apply_calls]. eexists. reflexivity.
Qed.

(** C3. In every run of [handleApplyChanges] the titles of the folder
    creation calls are pairwise distinct, and each is the suggested folder of
    a result flagged [isNewCategory]: at most one creation call per new
    category name. When all the results (one or more, in particular five)
    suggest the same new category, exactly one creation call is made, and it
    is for that name. *)
Theorem one_create_per_new_category (chrome : Chrome) (tree : list BookmarkNode)
    (organizeResults : list OrganizeResult.t) :
  let titles := created_titles (apply_calls (handleApplyChanges chrome tree organizeResults)) in
  NoDup titles /\
  (forall name, name ∈ titles ->
     exists r, r ∈ organizeResults /\
               OrganizeResult.isNewCategory r = true /\
               OrganizeResult.suggestedFolder r = name) /\
  (forall name,
     organizeResults <> [] ->
     Forall (fun r => OrganizeResult.isNewCategory r = true /\
                      OrganizeResult.suggestedFolder r = name) organizeResults ->
     titles = [name]).
Proof.
  cbv zeta.
  destruct (handleApplyChanges_titles chrome tree organizeResults) as [Hnd Hfrom].
  split; [exact Hnd |]. split; [exact Hfrom |].
  intros name Hne Hall.
  destruct organizeResults as [| r rs]; [congruence |].
  pose proof (Forall_inv Hall) as [Enew Ename].
  destruct (handleApplyChanges_first_create chrome tree r rs Enew) as [later Hfirst].
  rewrite Hfirst in Hnd, Hfrom |- *. cbn [created_titles flat_map app] in *.
  fold (created_titles later) in *. rewrite Ename in *.
  destruct (created_titles later) as [| name' rest]; [reflexivity |].
  exfalso. apply NoDup_cons in Hnd as [Hnotin _]. apply Hnotin.
  destruct (Hfrom name') as (r' & Hr' & _ & Hname'); [right; left |].
  rewrite Forall_forall in Hall.
  destruct (Hall r' Hr') as [_ Hsame]. rewrite <- Hname', Hsame. left.
Qed.

Lemma one_create_per_new_category_witness :
  research_results <> [] /\
  Forall (fun r => OrganizeResult.isNewCategory r = true /\
                   OrganizeResult.suggestedFolder r = "Research") research_results /\
  created_titles (apply_calls (handleApplyChanges chrome_ok scenario_tree research_results))
  = ["Research"].
Proof.
  assert (Hne : research_results <> []) by discriminate.
  assert (Hall : Forall (fun r => OrganizeResult.isNewCategory r = true /\
                                  OrganizeResult.suggestedFolder r = "Research")
                   research_results).
  { repeat constructor. }
  split; [exact Hne |]. split; [exact Hall |].
  exact (proj2 (proj2 (one_create_per_new_category chrome_ok scenario_tree research_results))
           "Research" Hne Hall).
Defined.

(** The guard of the second loop compares the target with the bookmark's own
    id: a resolved target is moved to unless it is empty or is the id of the
    bookmark being moved. *)
Lemma move_guard_spec (target : string) (r : OrganizeResult.t) :
  move_guard (Some target) r = true <->
  target <> "" /\ target <> OrganizeResult.bookmarkId r.
Proof.
  unfold move_guard, truthy, opt_is.
  destruct (String.eqb_spec target ""), (String.eqb_spec target (OrganizeResult.bookmarkId r));
    cbn; split; intros H; try discriminate H; try (destruct H; congruence); auto.
Qed.

(** C1, at an input where the code departs from it. [bookmark1] is in
    FolderA (id 10) and its result names FolderA as target, so the target
    resolves to the folder the bookmark is already in; [handleApplyChanges]
    nevertheless issues [move('11', {parentId: '10'})]. *)
Theorem move_issued_for_bookmark_in_target (chrome : Chrome) :
  In bookmark1 (flattenBookmarks scenario_tree) /\
  parentId bookmark1 = Some "10" /\
  targetFolderId scenario_tree ∅ unchanged_result = Some "10" /\
  apply_calls (handleApplyChanges chrome scenario_tree [unchanged_result])
  = [MoveCall "11" "10"].
Proof.
  split; [left; reflexivity |]. split; [reflexivity |]. split; [reflexivity |].
  unfold handleApplyChanges.
  change (create_loop chrome scenario_tree [unchanged_result] ∅ [])
    with (Some (∅ : gmap string string), @nil Call).
  cbn [move_loop].
  change (targetFolderId scenario_tree ∅ unchanged_result) with (Some "10").
  change (move_guard (Some "10") unchanged_result) with true.
  change (OrganizeResult.bookmarkId unchanged_result) with "11".
  cbn [app].
  destruct (bookmarks_move chrome [] "11" "10"); reflexivity.
Qed.

Lemma for_nodes_return_result (P : string -> Prop) (body : BookmarkNode -> option string)
    (nodes : list BookmarkNode) :
  P "1" ->
  Forall (fun n => forall r, body n = Some r -> P r) nodes ->
  P (for_nodes_return body nodes).
Proof.
  intros Hone. induction 1 as [| n ns Hn _ IH]; cbn [for_nodes_return]; [exact Hone |].
  destruct (body n) as [r |] eqn:E; [apply Hn; reflexivity | exact IH].
Qed.

Lemma bar_id_of_children (pre cs : list BookmarkNode) :
  Forall (fun c => forall r, findBookmarkBarId_body c = Some r ->
                             bar_id_of (node_list c) r) cs ->
  Forall (fun c => forall r, findBookmarkBarId_body c = Some r ->
                             bar_id_of (pre ++ flat_map node_list cs) r) cs.
Proof.
  rewrite !List.Forall_forall. intros H c Hc r Hr.
  destruct (H c Hc r Hr) as [-> | (m & Hm & Hbar & Hid)]; [left; reflexivity |].
  right. exists m. split; [| split; assumption].
  apply in_or_app. right. apply in_flat_map. exists c. split; assumption.
Qed.

Lemma findBookmarkBarId_body_result (node : BookmarkNode) :
  forall r, findBookmarkBarId_body node = Some r -> bar_id_of (node_list node) r.
Proof.
  induction node as [i p u t ft | i p u t cs ft IH] using BookmarkNode_tree_ind;
    intros r; cbn [findBookmarkBarId_body node_list children title id];
    set (n := mkNode _ _ _ _ _ _);
    destruct (String.eqb t "书签栏" || String.eqb t "Bookmarks Bar") eqn:Et.
  - intros [= <-]. right. exists n. split; [left; reflexivity |]. split; [exact Et | reflexivity].
  - discriminate.
  - intros [= <-]. right. exists n. split; [left; reflexivity |]. split; [exact Et | reflexivity].
  - destruct (truthy (Some (for_nodes_return findBookmarkBarId_body cs))); [| discriminate].
    intros [= <-].
    apply (for_nodes_return_result (bar_id_of (n :: flat_map node_list cs)));
      [left; reflexivity |].
    exact (bar_id_of_children [n] cs IH).
Qed.

Lemma findBookmarkBarId_result (nodes : list BookmarkNode) :
  bar_id_of (all_nodes nodes) (findBookmarkBarId nodes).
Proof.
  unfold findBookmarkBarId, all_nodes.
  apply for_nodes_return_result; [left; reflexivity |].
  apply (bar_id_of_children [] nodes).
  apply List.Forall_forall. intros c _. apply findBookmarkBarId_body_result.
Qed.

(** Every folder created by [handleApplyChanges] is created without URL
    under [findBookmarkBarId tree], which is ['1'] or the id of a node of the
    tree titled '书签栏' or 'Bookmarks Bar'. *)
Lemma created_folder_parent (chrome : Chrome) (tree : list BookmarkNode)
    (organizeResults : list OrganizeResult.t) (parent name : string) (link : option string) :
  In (CreateCall parent name link)
     (apply_calls (handleApplyChanges chrome tree organizeResults)) ->
  link = None /\
  parent = findBookmarkBarId tree /\
  bar_id_of (all_nodes tree) parent.
Proof.
  intros Hin.
  destruct (handleApplyChanges_calls chrome tree organizeResults)
    as (new & moves & Hcalls & Hnone & _ & _).
  rewrite Hcalls in Hin. apply in_app_or in Hin as [Hin | Hin].
  - apply in_map_iff in Hin as (name' & [= <- <- <-] & _).
    split; [reflexivity |]. split; [reflexivity |].
    apply findBookmarkBarId_result.
  - apply created_titles_In in Hin. rewrite Hnone in Hin. inversion Hin.
Qed.

(** C10, at an input where the code departs from it. The bookmarks bar of
    [tree_with_homonym] is the system container of id 1, titled "Favorites
    bar"; inside it lies the user folder of id 9, titled "Bookmarks Bar".
    [findBookmarkBarId] recognises the bar by its title alone, so it answers
    9, and [handleApplyChanges] creates the new folder "Research" inside
    that user folder, whatever the browser answers. *)
Theorem new_folder_created_in_user_folder (chrome : Chrome) :
  In imported_folder (getAllFolders tree_with_homonym) /\
  id imported_folder = "9" /\
  (forall n, In n (all_nodes tree_with_homonym) ->
             folderType n = Some "bookmarks-bar" -> id n = "1") /\
  findBookmarkBarId tree_with_homonym = "9" /\
  exists later,
    apply_calls (handleApplyChanges chrome tree_with_homonym homonym_results)
    = CreateCall "9" "Research" None :: later.
Proof.
  split; [left; reflexivity |]. split; [reflexivity |]. split; [| split; [reflexivity |]].
  - intros n Hn Hft. cbn in Hn.
    destruct Hn as [<- | [<- | [<- | [<- | []]]]];
      first [reflexivity | discriminate Hft].
  - exact (handleApplyChanges_first_create chrome tree_with_homonym
             (OrganizeResult.mk "12" "page" "https://u2.example/" "Bookmarks Bar"
                "Research" true) [] eq_refl).
Qed.

(** The search of [findBookmarkBarId] ends in the first node that has a
    [children] array: the result of the recursive call is a non-empty string
    even when it is the fallback ['1'], so [if (found) return found] returns
    it. Here the node titled "Bookmarks Bar" has id 5. *)
Example findBookmarkBarId_first_branch :
  findBookmarkBarId tree_bar_second = "1" /\ spec_bookmarkBarId tree_bar_second = "5".
Proof. split; reflexivity. Qed.

(** ** Restore *)

Section RestoreFacts.
Variable chrome : Chrome.

Lemma fold_left_extends {A : Type} (f : list Call -> A -> list Call) (l : list A) :
  Forall (fun x => forall h, exists ext, f h x = h ++ ext) l ->
  forall h, exists ext, fold_left f l h = h ++ ext.
Proof.
  induction 1 as [| x l' Hx _ IH]; intros h; cbn [fold_left].
  - exists []. rewrite app_nil_r. reflexivity.
  - destruct (Hx h) as [e1 ->]. destruct (IH (h ++ e1)) as [e2 ->].
    exists (e1 ++ e2). rewrite app_assoc. reflexivity.
Qed.

(** The first call of [createBookmarkFromNode] creates the node itself
    under the given parent; the calls made before are kept. *)
Lemma createBookmarkFromNode_trace (node : BookmarkNode) :
  forall parent h,
  exists later,
    snd (createBookmarkFromNode chrome node parent h)
    = h ++ CreateCall parent (title node) (node_link node) :: later.
Proof.
  induction node as [i p u t ft | i p u t cs ft IH] using BookmarkNode_tree_ind;
    intros parent h; cbn [createBookmarkFromNode children url title];
    unfold node_link; cbn [url]; destruct (truthy u); cbn [snd];
    try (exists []; reflexivity).
  - destruct (bookmarks_create chrome h parent t None); exists []; reflexivity.
  - destruct (bookmarks_create chrome h parent t None) as [resultId |];
      [| exists []; reflexivity].
    cbn [snd].
    destruct (fold_left_extends
                (fun h child => snd (createBookmarkFromNode chrome child resultId h)) cs)
      with (h := h ++ [CreateCall parent t None]) as [ext Hext].
    + eapply List.Forall_impl; [| exact IH].
      intros c Hc h'. destruct (Hc resultId h') as [later ->]. eauto.
    + rewrite Hext, <- app_assoc. eauto.
Qed.

(** Every node of [cs] is created under [parent] by the loop over [cs]. *)
Lemma create_children_calls (parent : string) (cs : list BookmarkNode) :
  forall h,
    let h' := fold_left (fun h child => snd (createBookmarkFromNode chrome child parent h))
                cs h in
    (exists ext, h' = h ++ ext) /\
    forall child, In child cs ->
      In (CreateCall parent (title child) (node_link child)) h'.
Proof.
  induction cs as [| c cs IH]; intros h; cbn [fold_left]; cbv zeta.
  - split; [exists []; rewrite app_nil_r; reflexivity | intros child []].
  - destruct (createBookmarkFromNode_trace c parent h) as [later Hc]. rewrite Hc.
    destruct (IH (h ++ CreateCall parent (title c) (node_link c) :: later))
      as [[ext Hext] Hin].
    split.
    + rewrite Hext, <- app_assoc. eauto.
    + intros child [<- | Hchild]; [| apply Hin; exact Hchild].
      rewrite Hext. apply in_or_app. left. apply in_or_app. right. left. reflexivity.
Qed.

Lemma restore_node_extends (node : BookmarkNode) :
  forall parent h, exists ext, restore_node chrome node parent h = h ++ ext.
Proof.
  induction node as [i p u t ft | i p u t cs ft IH] using BookmarkNode_tree_ind;
    intros parent h; cbn [restore_node children id folderType];
    set (n := mkNode _ _ _ _ _ _).
  - destruct (String.eqb i "0"); [exists []; rewrite app_nil_r; reflexivity |].
    destruct (truthy ft); [exists []; rewrite app_nil_r; reflexivity |].
    destruct parent as [q |]; [| exists []; rewrite app_nil_r; reflexivity].
    destruct (truthy (Some q)); [| exists []; rewrite app_nil_r; reflexivity].
    destruct (createBookmarkFromNode_trace n q h) as [later ->]. eauto.
  - destruct (String.eqb i "0").
    { apply fold_left_extends. eapply List.Forall_impl; [| exact IH].
      intros c Hc h'. apply Hc. }
    destruct (truthy ft).
    { exact (proj1 (create_children_calls i cs h)). }
    destruct parent as [q |]; [| exists []; rewrite app_nil_r; reflexivity].
    destruct (truthy (Some q)); [| exists []; rewrite app_nil_r; reflexivity].
    destruct (createBookmarkFromNode_trace n q h) as [later ->]. eauto.
Qed.

(** A node of the snapshot that is not the root and carries a type marker
    has its children created under its own recorded id. *)
Lemma restore_node_container (c : BookmarkNode) (cs : list BookmarkNode) :
  id c <> "0" -> truthy (folderType c) = true -> children c = Some cs ->
  forall parent h child,
    In child cs ->
    In (CreateCall (id c) (title child) (node_link child)) (restore_node chrome c parent h).
Proof.
  intros Hid Hft Hcs parent h child Hchild.
  destruct c as [i p u t ch ft]. cbn [id folderType children] in *. subst ch.
  cbn [restore_node id folderType children].
  destruct (String.eqb_spec i "0") as [-> | _]; [congruence |].
  rewrite Hft. apply (proj2 (create_children_calls i cs h)). exact Hchild.
Qed.

Lemma restore_containers_calls (containers : list BookmarkNode) :
  forall h c cs child,
    In c containers ->
    id c <> "0" -> truthy (folderType c) = true -> children c = Some cs ->
    In child cs ->
    In (CreateCall (id c) (title child) (node_link child))
       (fold_left (fun h child => restore_node chrome child (Some (id child)) h)
          containers h).
Proof.
  induction containers as [| c0 rest IH]; intros h c cs child Hc Hid Hft Hcs Hchild;
    [inversion Hc |].
  cbn [fold_left]. destruct Hc as [-> | Hc].
  - pose proof (restore_node_container c cs Hid Hft Hcs (Some (id c)) h child Hchild) as Hin.
    destruct (fold_left_extends
                (fun h child => restore_node chrome child (Some (id child)) h) rest)
      with (h := restore_node chrome c (Some (id c)) h) as [ext ->].
    + apply List.Forall_forall. intros x _ h'. apply restore_node_extends.
    + apply in_or_app. left. exact Hin.
  - eapply IH; eassumption.
Qed.
End RestoreFacts.

Lemma fold_left_call_kept {A : Type} (f : list Call -> A -> list Call) (l : list A)
    (call : Call) :
  (forall x h, exists ext, f h x = h ++ ext) ->
  forall x, In x l -> (forall h, In call (f h x)) ->
  forall h, In call (fold_left f l h).
Proof.
  intros Hext x Hx Hcall. induction l as [| y l IH]; intros h; [inversion Hx |].
  cbn [fold_left]. destruct Hx as [-> | Hx]; [| apply IH; exact Hx].
  destruct (fold_left_extends f l) with (h := f h x) as [ext ->].
  - apply List.Forall_forall. intros z _ h'. apply Hext.
  - apply in_or_app. left. apply Hcall.
Qed.

(** C2 fails as stated: with a snapshot that recorded the bookmarks bar
    under id 1 and a live bookmarks bar of id 100, the recorded bookmark is
    not created under 100. *)
Lemma restores_under_live_container_counterexample :
  ~ restores_under_live_container chrome_ok 3 example_snapshots
      "snapshot_1700000000000" live_tree.
Proof.
  intros H.
  destruct (H example_snapshot
              [GetChildrenCall "100"; CreateCall "1" "bookmark2" (Some "https://u2.example/")]
              (mkNode "0" None None "" (Some [snapshot_bar]) None)
              [snapshot_bar] snapshot_bar "bookmarks-bar" [bookmark2] bookmark2 "100")
    as [Hlive _]; try reflexivity; try (left; reflexivity).
  cbn in Hlive. destruct Hlive as [Hc | [Hc | []]]; discriminate Hc.
Qed.

(** C2, amended. When the snapshot exists, [restoreSnapshot] creates every
    recorded child of a recorded container (a child of the recorded root that
    carries a type marker) under the id recorded for that container in the
    snapshot; the live tree is used by the clearing step only. *)
Theorem restore_under_recorded_id (chrome : Chrome) (fuel : nat)
    (snapshots : gmap string Snapshot.t) (snapshotId : string) (snapshot : Snapshot.t)
    (currentTree : list BookmarkNode)
    (root : BookmarkNode) (containers : list BookmarkNode)
    (c : BookmarkNode) (cs : list BookmarkNode) (child : BookmarkNode) :
  snapshots !! snapshotId = Some snapshot ->
  In root (Snapshot.treeData snapshot) -> id root = "0" ->
  children root = Some containers ->
  In c containers -> id c <> "0" -> truthy (folderType c) = true ->
  children c = Some cs -> In child cs ->
  exists calls,
    restoreSnapshot chrome fuel snapshots snapshotId currentTree = Some calls /\
    In (CreateCall (id c) (title child) (node_link child)) calls.
Proof.
  intros Hsnap Hroot Hrid Hcont Hc Hcid Hft Hcs Hchild.
  unfold restoreSnapshot. rewrite Hsnap. eexists. split; [reflexivity |].
  unfold restoreBookmarksFromSnapshot.
  apply (fold_left_call_kept (fun h node => restore_node chrome node None h)
           (Snapshot.treeData snapshot) _ (fun x h => restore_node_extends chrome x None h)
           root Hroot).
  intros h. destruct root as [i p u t ch ft]. cbn [id children] in Hrid, Hcont. subst i ch.
  cbn [restore_node id children String.eqb Ascii.eqb Bool.eqb].
  change (String.eqb "0" "0") with true. cbv iota.
  eapply restore_containers_calls; eassumption.
Qed.

Lemma restore_under_recorded_id_witness :
  exists calls,
    restoreSnapshot chrome_ok 3 example_snapshots "snapshot_1700000000000" live_tree
    = Some calls /\
    In (CreateCall "1" "bookmark2" (Some "https://u2.example/")) calls.
Proof.
  apply (restore_under_recorded_id chrome_ok 3 example_snapshots "snapshot_1700000000000"
           example_snapshot live_tree
           (mkNode "0" None None "" (Some [snapshot_bar]) None)
           [snapshot_bar] snapshot_bar [bookmark2] bookmark2);
    try reflexivity; try (left; reflexivity); discriminate.
Defined.

(** ** Tag index *)

Lemma store_put_Some (tags tags' : gmap string Tag.t) (tag : Tag.t) :
  store_put tags tag = Some tags' ->
  tags' = <[Tag.id tag := tag]> tags /\
  forall k t, tags !! k = Some t -> Tag.name t = Tag.name tag -> k = Tag.id tag.
Proof.
  unfold store_put. destruct (name_taken tags tag) eqn:E; [discriminate |].
  intros [= <-]. split; [reflexivity |].
  intros k t Hk Hname.
  destruct (String.eqb_spec k (Tag.id tag)) as [-> | Hne]; [reflexivity |].
  exfalso. unfold name_taken in E.
  assert (Hex : existsb
                  (fun kt => String.eqb (Tag.name (snd kt)) (Tag.name tag)
                             && negb (String.eqb (fst kt) (Tag.id tag)))
                  (map_to_list tags) = true).
  { apply existsb_exists. exists (k, t). split.
    - apply list_elem_of_In, elem_of_map_to_list. exact Hk.
    - cbn [fst snd]. rewrite Hname, String.eqb_refl.
      apply String.eqb_neq in Hne. rewrite Hne. reflexivity. }
  congruence.
Qed.

Lemma store_put_free (tags : gmap string Tag.t) (tag : Tag.t) :
  (forall k t, tags !! k = Some t -> Tag.name t = Tag.name tag -> k = Tag.id tag) ->
  store_put tags tag = Some (<[Tag.id tag := tag]> tags).
Proof.
  intros Hfree. unfold store_put.
  destruct (name_taken tags tag) eqn:E; [| reflexivity].
  exfalso. unfold name_taken in E. apply existsb_exists in E as ([k t] & Hin & Hc).
  apply list_elem_of_In, elem_of_map_to_list in Hin. cbn [fst snd] in Hc.
  apply andb_true_iff in Hc as [Hname Hkey].
  apply String.eqb_eq in Hname. apply negb_true_iff, String.eqb_neq in Hkey.
  apply Hkey. exact (Hfree k t Hin Hname).
Qed.

Lemma getTagByName_Some (tags : gmap string Tag.t) (name : string) (tag : Tag.t) :
  getTagByName tags name = Some tag ->
  Tag.name tag = name /\ exists k, tags !! k = Some tag.
Proof.
  unfold getTagByName.
  destruct (List.find _ (map_to_list tags)) as [[k t] |] eqn:E; [| discriminate].
  cbn. intros [= <-]. apply find_some in E as [Hin Hname]. cbn [snd] in Hname.
  apply String.eqb_eq in Hname. split; [exact Hname |].
  exists k. apply elem_of_map_to_list, list_elem_of_In. exact Hin.
Qed.

Lemma getTagByName_None (tags : gmap string Tag.t) (name : string) :
  getTagByName tags name = None ->
  forall k t, tags !! k = Some t -> Tag.name t <> name.
Proof.
  unfold getTagByName.
  destruct (List.find _ (map_to_list tags)) as [[k0 t0] |] eqn:E; [discriminate |].
  intros _ k t Hk Hname.
  pose proof (find_none _ _ E (k, t)) as Hnone. cbn [snd] in Hnone.
  rewrite Hname, String.eqb_refl in Hnone.
  specialize (Hnone (proj1 (list_elem_of_In _ _) (proj2 (elem_of_map_to_list _ _ _) Hk))).
  discriminate Hnone.
Qed.

(** Storing a record with a non-empty, repetition-free id list over the
    record of the same name, if any, keeps the invariant. *)
Lemma inv_insert (store : gmap string Tag.t) (created created' : nat) (tag : Tag.t) :
  tag_index_inv (mkTagDB store created) ->
  (forall k t, store !! k = Some t -> Tag.name t = Tag.name tag -> k = Tag.id tag) ->
  Tag.bookmarkIds tag <> [] -> NoDup (Tag.bookmarkIds tag) ->
  tag_index_inv (mkTagDB (<[Tag.id tag := tag]> store) created').
Proof.
  intros ([Hkey Huniq] & Hne & Hnd) Hfree Hids Hnodup. cbn [tags] in *.
  split; [split |]; [| | split]; cbn [tags].
  - intros k t Hk. apply lookup_insert_Some in Hk as [[<- <-] | [_ Hk]];
      [reflexivity | exact (Hkey k t Hk)].
  - intros k1 k2 t1 t2 H1 H2 Hname.
    apply lookup_insert_Some in H1 as [[<- <-] | [Hn1 H1]];
      apply lookup_insert_Some in H2 as [[<- <-] | [Hn2 H2]].
    + reflexivity.
    + symmetry. apply (Hfree k2 t2 H2). symmetry. exact Hname.
    + apply (Hfree k1 t1 H1). exact Hname.
    + exact (Huniq k1 k2 t1 t2 H1 H2 Hname).
  - intros k t Hk. apply lookup_insert_Some in Hk as [[_ <-] | [_ Hk]];
      [exact Hids | exact (Hne k t Hk)].
  - intros k t Hk. apply lookup_insert_Some in Hk as [[_ <-] | [_ Hk]];
      [exact Hnodup | exact (Hnd k t Hk)].
Qed.

Lemma inv_delete (db : TagDB) (tagId : string) :
  tag_index_inv db -> tag_index_inv (mkTagDB (delete tagId (tags db)) (created db)).
Proof.
  intros ([Hkey Huniq] & Hne & Hnd).
  split; [split |]; [| | split]; cbn [tags].
  - intros k t Hk. apply lookup_delete_Some in Hk as [_ Hk]. exact (Hkey k t Hk).
  - intros k1 k2 t1 t2 H1 H2. apply lookup_delete_Some in H1 as [_ H1].
    apply lookup_delete_Some in H2 as [_ H2]. exact (Huniq k1 k2 t1 t2 H1 H2).
  - intros k t Hk. apply lookup_delete_Some in Hk as [_ Hk]. exact (Hne k t Hk).
  - intros k t Hk. apply lookup_delete_Some in Hk as [_ Hk]. exact (Hnd k t Hk).
Qed.

Lemma includes_In (l : list string) (s : string) : includes l s = true <-> In s l.
Proof.
  unfold includes. rewrite existsb_exists. split.
  - intros (x & Hin & Heq). apply String.eqb_eq in Heq. subst x. exact Hin.
  - intros Hin. exists s. split; [exact Hin | apply String.eqb_refl].
Qed.

Section TagIndexFacts.
Variable normalize : string -> string.
Variable newTagId : nat -> string.
Variable dateNow : nat -> Z.

(** One iteration of [addTagsToBookmark] on a store that satisfies the
    invariant: [saveTag] is never refused, the invariant is kept, and the
    tag of the normalised name ends up holding [bookmarkId]: a new tag
    holds exactly [bookmarkId], an existing tag holds its former ids and
    [bookmarkId]. *)
Lemma addTag_step_spec (db : TagDB) (bookmarkId tagName : string) :
  tag_index_inv db ->
  exists db',
    addTag_step normalize newTagId dateNow db bookmarkId tagName = Some db' /\
    tag_index_inv db' /\
    (normalize tagName <> "" ->
     match getTagByName (tags db) (normalize tagName) with
     | None =>
         exists t, tags db' !! newTagId (created db) = Some t /\
                   Tag.name t = normalize tagName /\
                   Tag.bookmarkIds t = [bookmarkId]
     | Some old =>
         exists t, tags db' !! Tag.id old = Some t /\
                   Tag.name t = normalize tagName /\
                   (forall x, In x (Tag.bookmarkIds t) <->
                              In x (Tag.bookmarkIds old) \/ x = bookmarkId)
     end).
Proof.
  intros Hinv. pose proof Hinv as ([Hkey Huniq] & Hne & Hnd).
  unfold addTag_step.
  destruct (String.eqb_spec (normalize tagName) "") as [Hempty | Hnonempty].
  { exists db. split; [reflexivity |]. split; [exact Hinv | congruence]. }
  destruct (getTagByName (tags db) (normalize tagName)) as [old |] eqn:Eget.
  - apply getTagByName_Some in Eget as [Hname [k Hk]].
    pose proof (Hkey k old Hk) as Hid. subst k.
    destruct (includes (Tag.bookmarkIds old) bookmarkId) eqn:Einc; cbn [negb].
    + exists db. split; [reflexivity |]. split; [exact Hinv |]. intros _.
      exists old. split; [exact Hk |]. split; [exact Hname |].
      intros x. split; [auto |]. intros [Hx | ->]; [exact Hx |].
      apply includes_In. exact Einc.
    + set (updated := Tag.mk (Tag.id old) (Tag.name old)
                        (Tag.bookmarkIds old ++ [bookmarkId]) (Tag.createdAt old)).
      assert (Hfree : forall k t, tags db !! k = Some t ->
                                  Tag.name t = Tag.name updated -> k = Tag.id updated).
      { intros k t Hkt Hn. exact (Huniq k (Tag.id old) t old Hkt Hk Hn). }
      rewrite (store_put_free _ _ Hfree).
      eexists. split; [reflexivity |]. split.
      * destruct db as [store n]. apply (inv_insert store n n updated Hinv Hfree).
        -- cbn. intros Happ. apply app_eq_nil in Happ as [_ Happ]. discriminate Happ.
        -- cbn. apply NoDup_app. split; [exact (Hnd _ _ Hk) |].
           split; [| apply NoDup_singleton].
           intros x Hx Hx'. apply list_elem_of_singleton in Hx'. subst x.
           apply list_elem_of_In, includes_In in Hx. congruence.
      * intros _. exists updated. cbn [tags]. split; [apply lookup_insert_eq |].
        split; [exact Hname |]. intros x. cbn. rewrite in_app_iff. cbn.
        split; [intros [H | [H | []]]; [left; exact H | right; symmetry; exact H]
               | intros [H | ->]; [left; exact H | right; left; reflexivity]].
  - set (newTag := Tag.mk (newTagId (created db)) (normalize tagName) [bookmarkId]
                     (dateNow (created db))).
    assert (Hfree : forall k t, tags db !! k = Some t ->
                                Tag.name t = Tag.name newTag -> k = Tag.id newTag).
    { intros k t Hkt Hn. exfalso. exact (getTagByName_None _ _ Eget k t Hkt Hn). }
    rewrite (store_put_free _ _ Hfree).
    eexists. split; [reflexivity |]. split.
    + destruct db as [store n]. apply (inv_insert store n (S n) newTag Hinv Hfree).
      * discriminate.
      * apply NoDup_singleton.
    + intros _. exists newTag. cbn [tags]. split; [apply lookup_insert_eq |].
      split; reflexivity.
Qed.

Lemma addTagsToBookmark_inv (tagNames : list string) :
  forall db bookmarkId,
    tag_index_inv db ->
    snd (addTagsToBookmark normalize newTagId dateNow db bookmarkId tagNames) = true /\
    tag_index_inv (fst (addTagsToBookmark normalize newTagId dateNow db bookmarkId tagNames)).
Proof.
  induction tagNames as [| tagName rest IH]; intros db bookmarkId Hinv;
    cbn [addTagsToBookmark].
  - split; [reflexivity | exact Hinv].
  - destruct (addTag_step_spec db bookmarkId tagName Hinv) as (db' & -> & Hinv' & _).
    apply IH. exact Hinv'.
Qed.
End TagIndexFacts.

Lemma without_NoDup (bookmarkId : string) (ids : list string) :
  NoDup ids -> NoDup (without bookmarkId ids).
Proof.
  rewrite !NoDup_ListNoDup. apply List.NoDup_filter.
Qed.

(** [removeTagFromBookmark] on a store that satisfies the invariant: the
    tag is deleted when no id remains, and otherwise stored with the
    remaining ids. *)
Lemma removeTagFromBookmark_lookup (db : TagDB) (bookmarkId tagId : string) (tag : Tag.t) :
  tag_index_inv db ->
  tags db !! tagId = Some tag ->
  tags (removeTagFromBookmark db bookmarkId tagId) !! tagId
  = match without bookmarkId (Tag.bookmarkIds tag) with
    | [] => None
    | remaining =>
        Some (Tag.mk (Tag.id tag) (Tag.name tag) remaining (Tag.createdAt tag))
    end.
Proof.
  intros ([Hkey Huniq] & _ & _) Htag. unfold removeTagFromBookmark. rewrite Htag.
  fold (without bookmarkId (Tag.bookmarkIds tag)).
  destruct (without bookmarkId (Tag.bookmarkIds tag)) as [| i rest] eqn:Erem; cbn [length Nat.eqb].
  - cbn [tags]. apply lookup_delete_eq.
  - rewrite store_put_free.
    + cbn [tags Tag.id]. rewrite (Hkey tagId tag Htag). apply lookup_insert_eq.
    + intros k t Hk Hname. cbn [Tag.id Tag.name] in *.
      rewrite (Hkey tagId tag Htag). exact (Huniq k tagId t tag Hk Htag Hname).
Qed.

Lemma removeTagFromBookmark_inv (db : TagDB) (bookmarkId tagId : string) :
  tag_index_inv db -> tag_index_inv (removeTagFromBookmark db bookmarkId tagId).
Proof.
  intros Hinv. pose proof Hinv as (_ & _ & Hnd).
  unfold removeTagFromBookmark.
  destruct (tags db !! tagId) as [tag |] eqn:Htag; [| exact Hinv].
  fold (without bookmarkId (Tag.bookmarkIds tag)).
  destruct (without bookmarkId (Tag.bookmarkIds tag)) as [| i rest] eqn:Erem;
    cbn [length Nat.eqb].
  - apply inv_delete. exact Hinv.
  - destruct (store_put _ _) as [tags' |] eqn:Eput; [| exact Hinv].
    apply store_put_Some in Eput as [-> Hfree].
    destruct db as [store n].
    apply (inv_insert store n n _ Hinv Hfree); cbn [Tag.bookmarkIds].
    + discriminate.
    + rewrite <- Erem. apply without_NoDup. exact (Hnd _ _ Htag).
Qed.

Lemma nonempty_insert (store : gmap string Tag.t) (tag : Tag.t) :
  tags_nonempty store -> Tag.bookmarkIds tag <> [] ->
  tags_nonempty (<[Tag.id tag := tag]> store).
Proof.
  intros Hne Hids k t Hk. apply lookup_insert_Some in Hk as [[_ <-] | [_ Hk]];
    [exact Hids | exact (Hne k t Hk)].
Qed.

Lemma nonempty_delete (store : gmap string Tag.t) (tagId : string) :
  tags_nonempty store -> tags_nonempty (delete tagId store).
Proof.
  intros Hne k t Hk. apply lookup_delete_Some in Hk as [_ Hk]. exact (Hne k t Hk).
Qed.

Lemma addTag_step_nonempty normalize newTagId dateNow (db db' : TagDB)
    (bookmarkId tagName : string) :
  addTag_step normalize newTagId dateNow db bookmarkId tagName = Some db' ->
  tags_nonempty (tags db) -> tags_nonempty (tags db').
Proof.
  unfold addTag_step. intros Hstep Hne.
  destruct (String.eqb (normalize tagName) ""); [injection Hstep as <-; exact Hne |].
  destruct (getTagByName (tags db) (normalize tagName)) as [old |].
  - destruct (includes (Tag.bookmarkIds old) bookmarkId); cbn [negb] in Hstep;
      [injection Hstep as <-; exact Hne |].
    destruct (store_put _ _) as [tags' |] eqn:Eput; [| discriminate Hstep].
    injection Hstep as <-. cbn [tags].
    apply store_put_Some in Eput as [-> _].
    apply nonempty_insert; [exact Hne |]. cbn.
    intros Happ. apply app_eq_nil in Happ as [_ Happ]. discriminate Happ.
  - destruct (store_put _ _) as [tags' |] eqn:Eput; [| discriminate Hstep].
    injection Hstep as <-. cbn [tags].
    apply store_put_Some in Eput as [-> _].
    apply nonempty_insert; [exact Hne | discriminate].
Qed.

Lemma addTagsToBookmark_nonempty normalize newTagId dateNow (tagNames : list string) :
  forall db bookmarkId,
    tags_nonempty (tags db) ->
    tags_nonempty
      (tags (fst (addTagsToBookmark normalize newTagId dateNow db bookmarkId tagNames))).
Proof.
  induction tagNames as [| tagName rest IH]; intros db bookmarkId Hne;
    cbn [addTagsToBookmark]; [exact Hne |].
  destruct (addTag_step normalize newTagId dateNow db bookmarkId tagName) as [db' |] eqn:Estep;
    [| exact Hne].
  apply IH. exact (addTag_step_nonempty _ _ _ _ _ _ _ Estep Hne).
Qed.

Lemma removeTagFromBookmark_nonempty (db : TagDB) (bookmarkId tagId : string) :
  tags_nonempty (tags db) -> tags_nonempty (tags (removeTagFromBookmark db bookmarkId tagId)).
Proof.
  intros Hne. unfold removeTagFromBookmark.
  destruct (tags db !! tagId) as [tag |] eqn:Htag; [| exact Hne].
  fold (without bookmarkId (Tag.bookmarkIds tag)).
  destruct (without bookmarkId (Tag.bookmarkIds tag)) as [| i rest] eqn:Erem;
    cbn [length Nat.eqb].
  - apply nonempty_delete. exact Hne.
  - destruct (store_put _ _) as [tags' |] eqn:Eput; [| exact Hne].
    apply store_put_Some in Eput as [-> _]. cbn [tags].
    apply nonempty_insert; [exact Hne | discriminate].
Qed.

Lemma getTagByName_unique (store : gmap string Tag.t) (k : string) (t : Tag.t) :
  store_wf store -> store !! k = Some t -> getTagByName store (Tag.name t) = Some t.
Proof.
  intros [Hkey Huniq] Hk.
  destruct (getTagByName store (Tag.name t)) as [t' |] eqn:Eget.
  - apply getTagByName_Some in Eget as [Hname [k' Hk']].
    pose proof (Huniq k' k t' t Hk' Hk Hname) as ->. congruence.
  - exfalso. exact (getTagByName_None _ _ Eget k t Hk eq_refl).
Qed.

Section TagIndexMore.
Variable normalize : string -> string.
Variable newTagId : nat -> string.
Variable dateNow : nat -> Z.

(** What one iteration of [addTagsToBookmark] leaves in place, when the id
    drawn for a new tag is not in the store. *)
Lemma addTag_step_frame (db db' : TagDB) (bookmarkId tagName : string) :
  tag_index_inv db ->
  tags db !! newTagId (created db) = None ->
  addTag_step normalize newTagId dateNow db bookmarkId tagName = Some db' ->
  (forall k t, tags db !! k = Some t ->
     exists t', tags db' !! k = Some t' /\ Tag.name t' = Tag.name t /\
                forall x, In x (Tag.bookmarkIds t) -> In x (Tag.bookmarkIds t')) /\
  (created db <= created db' <= S (created db)) /\
  (forall k, tags db !! k = None -> k <> newTagId (created db) -> tags db' !! k = None).
Proof.
  intros ([Hkey Huniq] & _ & _) Hfresh. unfold addTag_step.
  assert (Hsame : forall k t, tags db !! k = Some t ->
            exists t', tags db !! k = Some t' /\ Tag.name t' = Tag.name t /\
                       forall x, In x (Tag.bookmarkIds t) -> In x (Tag.bookmarkIds t')).
  { intros k t Hk. exists t. auto. }
  destruct (String.eqb (normalize tagName) "").
  { intros [= <-]. split; [exact Hsame |]. split; [lia | auto]. }
  destruct (getTagByName (tags db) (normalize tagName)) as [old |] eqn:Eget.
  - apply getTagByName_Some in Eget as [Hname [k0 Hk0]].
    pose proof (Hkey k0 old Hk0) as Hid. subst k0.
    destruct (includes (Tag.bookmarkIds old) bookmarkId); cbn [negb].
    { intros [= <-]. split; [exact Hsame |]. split; [lia | auto]. }
    destruct (store_put _ _) as [tags' |] eqn:Eput; [| discriminate].
    apply store_put_Some in Eput as [-> _]. cbn [Tag.id]. intros [= <-]. cbn [tags created].
    split; [| split; [lia |]].
    + intros k t Hk. destruct (decide (k = Tag.id old)) as [-> | Hne].
      * rewrite lookup_insert_eq. eexists. split; [reflexivity |].
        assert (t = old) by congruence. subst t. cbn. split; [reflexivity |].
        intros x Hx. apply in_or_app. left. exact Hx.
      * rewrite lookup_insert_ne by congruence. exists t. auto.
    + intros k Hk _. rewrite lookup_insert_ne; [exact Hk | congruence].
  - destruct (store_put _ _) as [tags' |] eqn:Eput; [| discriminate].
    apply store_put_Some in Eput as [-> _]. cbn [Tag.id]. intros [= <-]. cbn [tags created].
    split; [| split; [lia |]].
    + intros k t Hk. rewrite lookup_insert_ne by congruence. exists t. auto.
    + intros k Hk Hne. rewrite lookup_insert_ne; [exact Hk | congruence].
Qed.

Lemma addTag_step_fresh (db db' : TagDB) (bookmarkId tagName : string) (m : nat) :
  tag_index_inv db ->
  fresh_ids newTagId db (S m) ->
  addTag_step normalize newTagId dateNow db bookmarkId tagName = Some db' ->
  fresh_ids newTagId db' m.
Proof.
  intros Hinv [Hinj Hnone] Hstep.
  assert (H0 : tags db !! newTagId (created db) = None) by (apply Hnone; lia).
  destruct (addTag_step_frame db db' bookmarkId tagName Hinv H0 Hstep)
    as (_ & Hcreated & Hkeep).
  split.
  - intros i j Hi Hj. apply Hinj; lia.
  - intros i Hi. destruct (decide (i = created db)) as [-> | Hne].
    + assert (created db' = created db) by lia.
      unfold addTag_step in Hstep.
      destruct (String.eqb (normalize tagName) ""); [congruence |].
      destruct (getTagByName (tags db) (normalize tagName)) as [old |] eqn:Eget.
      * apply getTagByName_Some in Eget as [_ [k0 Hk0]].
        destruct Hinv as ([Hkey _] & _). pose proof (Hkey k0 old Hk0) as Hid. subst k0.
        destruct (includes (Tag.bookmarkIds old) bookmarkId); cbn [negb] in Hstep;
          [congruence |].
        destruct (store_put _ _) as [tags' |] eqn:Eput; [| discriminate].
        apply store_put_Some in Eput as [-> _]. injection Hstep as <-. cbn [tags Tag.id].
        rewrite lookup_insert_ne; [exact H0 | congruence].
      * destruct (store_put _ _) as [tags' |]; [| discriminate].
        injection Hstep as <-. cbn [created] in *. lia.
    + apply Hkeep; [apply Hnone; lia |].
      intros Heq. apply Hne. apply Hinj; [lia | lia | exact Heq].
Qed.

(** After [addTagsToBookmark], on a store that satisfies the invariant and
    with fresh ids: every tag that was stored is still stored under its key
    and name with at least its former bookmarks, and every name of the
    list whose normal form is not empty has a tag that holds [bookmarkId]. *)
Lemma addTagsToBookmark_tagged (bookmarkId : string) (tagNames : list string) :
  forall db,
    tag_index_inv db ->
    fresh_ids newTagId db (length tagNames) ->
    let db1 := fst (addTagsToBookmark normalize newTagId dateNow db bookmarkId tagNames) in
    tag_index_inv db1 /\
    (forall k t, tags db !! k = Some t ->
       exists t', tags db1 !! k = Some t' /\ Tag.name t' = Tag.name t /\
                  forall x, In x (Tag.bookmarkIds t) -> In x (Tag.bookmarkIds t')) /\
    (forall tagName, In tagName tagNames -> normalize tagName <> "" ->
       exists k t, tags db1 !! k = Some t /\ Tag.name t = normalize tagName /\
                   In bookmarkId (Tag.bookmarkIds t)).
Proof.
  induction tagNames as [| tagName rest IH]; intros db Hinv Hfresh; cbn [addTagsToBookmark].
  - cbn [fst]. split; [exact Hinv |]. split; [| intros ? []].
    intros k t Hk. exists t. auto.
  - cbn [length] in Hfresh.
    destruct (addTag_step_spec normalize newTagId dateNow db bookmarkId tagName Hinv)
      as (db' & Hstep & Hinv' & Hdetail).
    rewrite Hstep.
    assert (H0 : tags db !! newTagId (created db) = None) by (apply (proj2 Hfresh); lia).
    destruct (addTag_step_frame db db' bookmarkId tagName Hinv H0 Hstep) as (Hframe & _ & _).
    pose proof (addTag_step_fresh db db' bookmarkId tagName _ Hinv Hfresh Hstep) as Hfresh'.
    destruct (IH db' Hinv' Hfresh') as (Hinv1 & Hframe1 & Htagged1).
    split; [exact Hinv1 |]. split.
    + intros k t Hk. destruct (Hframe k t Hk) as (t' & Hk' & Hn' & Hi').
      destruct (Hframe1 k t' Hk') as (t'' & Hk'' & Hn'' & Hi'').
      exists t''. split; [exact Hk'' |]. split; [congruence | auto].
    + intros name [<- | Hin] Hne; [| exact (Htagged1 name Hin Hne)].
      specialize (Hdetail Hne).
      assert (Hnow : exists k t, tags db' !! k = Some t /\ Tag.name t = normalize tagName /\
                                 In bookmarkId (Tag.bookmarkIds t)).
      { destruct (getTagByName (tags db) (normalize tagName)) as [old |].
        - destruct Hdetail as (t & Ht & Hn & Hids). exists (Tag.id old), t.
          split; [exact Ht |]. split; [exact Hn |]. apply Hids. right. reflexivity.
        - destruct Hdetail as (t & Ht & Hn & Hids). exists (newTagId (created db)), t.
          split; [exact Ht |]. split; [exact Hn |]. rewrite Hids. left. reflexivity. }
      destruct Hnow as (k & t & Hk & Hn & Hb).
      destruct (Hframe1 k t Hk) as (t' & Hk' & Hn' & Hi').
      exists k, t'. split; [exact Hk' |]. split; [congruence | auto].
Qed.

(** Tagging again with names whose tags already hold the bookmark changes
    nothing. *)
Lemma addTagsToBookmark_noop (bookmarkId : string) (tagNames : list string) (db : TagDB) :
  store_wf (tags db) ->
  (forall tagName, In tagName tagNames -> normalize tagName <> "" ->
     exists k t, tags db !! k = Some t /\ Tag.name t = normalize tagName /\
                 In bookmarkId (Tag.bookmarkIds t)) ->
  addTagsToBookmark normalize newTagId dateNow db bookmarkId tagNames = (db, true).
Proof.
  intros Hwf. induction tagNames as [| tagName rest IH]; intros Htagged;
    cbn [addTagsToBookmark]; [reflexivity |].
  assert (Hstep : addTag_step normalize newTagId dateNow db bookmarkId tagName = Some db).
  { unfold addTag_step.
    destruct (String.eqb_spec (normalize tagName) "") as [_ | Hne]; [reflexivity |].
    destruct (Htagged tagName (or_introl eq_refl) Hne) as (k & t & Hk & Hn & Hb).
    rewrite <- Hn, (getTagByName_unique _ k t Hwf Hk).
    apply includes_In in Hb. rewrite Hb. reflexivity. }
  rewrite Hstep. apply IH. intros name Hin. apply Htagged. right. exact Hin.
Qed.
End TagIndexMore.

Section TagIndexOnly.
Variable normalize : string -> string.
Variable newTagId : nat -> string.
Variable dateNow : nat -> Z.

Lemma addTag_step_only (db db' : TagDB) (bookmarkId tagName : string) :
  store_wf (tags db) ->
  addTag_step normalize newTagId dateNow db bookmarkId tagName = Some db' ->
  forall k t', tags db' !! k = Some t' -> tagged_from db bookmarkId k t'.
Proof.
  intros [Hkey _]. unfold addTag_step.
  assert (Hsame : forall k t', tags db !! k = Some t' -> tagged_from db bookmarkId k t').
  { intros k t' Hk. right. exists t'. auto. }
  destruct (String.eqb (normalize tagName) ""); [intros [= <-]; exact Hsame |].
  destruct (getTagByName (tags db) (normalize tagName)) as [old |] eqn:Eget.
  - apply getTagByName_Some in Eget as [_ [k0 Hk0]].
    pose proof (Hkey k0 old Hk0) as Hid. subst k0.
    destruct (includes (Tag.bookmarkIds old) bookmarkId) eqn:Einc; cbn [negb];
      [intros [= <-]; exact Hsame |].
    destruct (store_put _ _) as [tags' |] eqn:Eput; [| discriminate].
    apply store_put_Some in Eput as [-> _]. cbn [Tag.id]. intros [= <-] k t'. cbn [tags].
    intros Hk. apply lookup_insert_Some in Hk as [[<- <-] | [_ Hk]]; [| exact (Hsame k t' Hk)].
    right. exists old. split; [exact Hk0 |]. split; [reflexivity |]. right.
    split; [| reflexivity]. intros Hin. apply includes_In in Hin. congruence.
  - destruct (store_put _ _) as [tags' |] eqn:Eput; [| discriminate].
    apply store_put_Some in Eput as [-> _]. cbn [Tag.id]. intros [= <-] k t'. cbn [tags].
    intros Hk. apply lookup_insert_Some in Hk as [[<- <-] | [_ Hk]]; [| exact (Hsame k t' Hk)].
    left. reflexivity.
Qed.

Lemma addTagsToBookmark_only (bookmarkId : string) (tagNames : list string) :
  forall db,
    tag_index_inv db ->
    forall k t',
      tags (fst (addTagsToBookmark normalize newTagId dateNow db bookmarkId tagNames)) !! k
      = Some t' ->
      tagged_from db bookmarkId k t'.
Proof.
  induction tagNames as [| tagName rest IH]; intros db Hinv k t'; cbn [addTagsToBookmark].
  - cbn [fst]. intros Hk. right. exists t'. auto.
  - destruct (addTag_step_spec normalize newTagId dateNow db bookmarkId tagName Hinv)
      as (db' & Hstep & Hinv' & _).
    rewrite Hstep. intros Hk.
    destruct (IH db' Hinv' k t' Hk) as [Hnew | (t1 & Hk1 & Hn1 & Hids1)]; [left; exact Hnew |].
    destruct (addTag_step_only db db' bookmarkId tagName (proj1 Hinv) Hstep k t1 Hk1)
      as [Hnew | (t & Hk0 & Hn0 & Hids0)].
    + left. destruct Hids1 as [-> | [Hnot _]]; [exact Hnew |].
      exfalso. apply Hnot. rewrite Hnew. left. reflexivity.
    + right. exists t. split; [exact Hk0 |]. split; [congruence |].
      destruct Hids0 as [E0 | [Hnot0 E0]].
      * rewrite <- E0. exact Hids1.
      * right. split; [exact Hnot0 |].
        destruct Hids1 as [-> | [Hnot _]]; [exact E0 |].
        exfalso. apply Hnot. rewrite E0. apply in_or_app. right. left. reflexivity.
Qed.
End TagIndexOnly.

(** C9. Every operation of the tag index keeps the invariant that every
    stored tag has a non-empty list of bookmark ids. On a store that is
    moreover keyed by id with unique names (as the object store guarantees)
    and whose id lists have no repetition: [addTagsToBookmark] always
    resolves and keeps these properties; every tag stored after it holds
    exactly the bookmark id, or is a tag stored before with the same ids or
    with the bookmark id, which it did not hold, appended; with one name of
    non-empty normal form it creates a tag holding exactly the bookmark id
    when no tag has that name, and otherwise makes the existing tag hold,
    without repetition, its former ids and the bookmark id; when the ids
    drawn for new tags are fresh, every name of the list of non-empty normal
    form ends up with a tag that holds the bookmark id; and
    [removeTagFromBookmark] deletes the tag when no id remains and otherwise
    stores it with the remaining ids. *)
Theorem tag_index_keeps_sets_nonempty (normalize : string -> string)
    (newTagId : nat -> string) (dateNow : nat -> Z)
    (db : TagDB) (bookmarkId tagId : string) (tagNames : list string) :
  tags_nonempty (tags db) ->
  let add := addTagsToBookmark normalize newTagId dateNow db bookmarkId in
  tags_nonempty (tags (fst (add tagNames))) /\
  tags_nonempty (tags (removeTagFromBookmark db bookmarkId tagId)) /\
  tags_nonempty (tags (deleteTag db tagId)) /\
  (store_wf (tags db) -> tags_nodup (tags db) ->
   (snd (add tagNames) = true /\ tag_index_inv (fst (add tagNames))) /\
   (forall k t', tags (fst (add tagNames)) !! k = Some t' ->
                 tagged_from db bookmarkId k t') /\
   (forall tagName, normalize tagName <> "" ->
      snd (add [tagName]) = true /\
      match getTagByName (tags db) (normalize tagName) with
      | None =>
          exists t, tags (fst (add [tagName])) !! newTagId (created db) = Some t /\
                    Tag.name t = normalize tagName /\
                    Tag.bookmarkIds t = [bookmarkId]
      | Some old =>
          exists t, tags (fst (add [tagName])) !! Tag.id old = Some t /\
                    Tag.name t = normalize tagName /\
                    NoDup (Tag.bookmarkIds t) /\
                    (forall x, In x (Tag.bookmarkIds t) <->
                               In x (Tag.bookmarkIds old) \/ x = bookmarkId)
      end) /\
   (fresh_ids newTagId db (length tagNames) ->
    forall tagName, In tagName tagNames -> normalize tagName <> "" ->
      exists k t, tags (fst (add tagNames)) !! k = Some t /\
                  Tag.name t = normalize tagName /\
                  In bookmarkId (Tag.bookmarkIds t)) /\
   tag_index_inv (removeTagFromBookmark db bookmarkId tagId) /\
   (forall tag, tags db !! tagId = Some tag ->
      tags (removeTagFromBookmark db bookmarkId tagId) !! tagId
      = match without bookmarkId (Tag.bookmarkIds tag) with
        | [] => None
        | remaining =>
            Some (Tag.mk (Tag.id tag) (Tag.name tag) remaining (Tag.createdAt tag))
        end)).
Proof.
  intros Hnonempty add.
  split; [apply addTagsToBookmark_nonempty; exact Hnonempty |].
  split; [apply removeTagFromBookmark_nonempty; exact Hnonempty |].
  split; [apply nonempty_delete; exact Hnonempty |].
  intros Hwf Hnodup.
  assert (Hinv : tag_index_inv db) by (split; [exact Hwf | split; assumption]).
  split; [apply addTagsToBookmark_inv; exact Hinv |].
  split; [apply addTagsToBookmark_only; exact Hinv |]. split; [| split].
  - intros tagName Hname. unfold add. cbn [addTagsToBookmark].
    destruct (addTag_step_spec normalize newTagId dateNow db bookmarkId tagName Hinv)
      as (db' & Hstep & Hinv' & Hdetail).
    rewrite Hstep. cbn [fst snd]. split; [reflexivity |]. specialize (Hdetail Hname).
    destruct (getTagByName (tags db) (normalize tagName)) as [old |]; [| exact Hdetail].
    destruct Hdetail as (t & Ht & Hn & Hids). exists t.
    split; [exact Ht |]. split; [exact Hn |]. split; [| exact Hids].
    destruct Hinv' as (_ & _ & Hnd). exact (Hnd _ _ Ht).
  - intros Hfresh.
    exact (proj2 (proj2 (addTagsToBookmark_tagged normalize newTagId dateNow bookmarkId
                           tagNames db Hinv Hfresh))).
  - split; [apply removeTagFromBookmark_inv; exact Hinv |].
    intros tag. apply removeTagFromBookmark_lookup. exact Hinv.
Qed.

Lemma example_tag_db_inv : tag_index_inv example_tag_db.
Proof.
  split; [split |]; [| | split]; cbn [tags example_tag_db].
  - intros k t Hk.
    apply lookup_insert_Some in Hk as [[<- <-] | [_ Hk]]; [reflexivity |].
    apply lookup_insert_Some in Hk as [[<- <-] | [_ Hk]]; [reflexivity |].
    rewrite lookup_empty in Hk. discriminate Hk.
  - intros k1 k2 t1 t2 H1 H2 Hname.
    apply lookup_insert_Some in H1 as [[<- <-] | [_ H1]];
      [| apply lookup_insert_Some in H1 as [[<- <-] | [_ H1]];
         [| rewrite lookup_empty in H1; discriminate H1]];
      (apply lookup_insert_Some in H2 as [[<- <-] | [_ H2]];
       [| apply lookup_insert_Some in H2 as [[<- <-] | [_ H2]];
          [| rewrite lookup_empty in H2; discriminate H2]]);
      first [reflexivity | discriminate Hname].
  - intros k t Hk.
    apply lookup_insert_Some in Hk as [[_ <-] | [_ Hk]]; [discriminate |].
    apply lookup_insert_Some in Hk as [[_ <-] | [_ Hk]]; [discriminate |].
    rewrite lookup_empty in Hk. discriminate Hk.
  - intros k t Hk.
    apply lookup_insert_Some in Hk as [[_ <-] | [_ Hk]];
      [apply (bool_decide_unpack _); vm_compute; reflexivity |].
    apply lookup_insert_Some in Hk as [[_ <-] | [_ Hk]];
      [apply (bool_decide_unpack _); vm_compute; reflexivity |].
    rewrite lookup_empty in Hk. discriminate Hk.
Defined.

Lemma example_tag_db_fresh : fresh_ids example_newTagId example_tag_db 2.
Proof.
  split; cbn [created example_tag_db Nat.add].
  - intros i j Hi Hj.
    assert (Ei : i = 0 \/ i = 1) by lia. assert (Ej : j = 0 \/ j = 1) by lia.
    destruct Ei as [-> | ->], Ej as [-> | ->]; cbn; intros E;
      first [reflexivity | discriminate E].
  - intros i Hi. assert (Ei : i = 0 \/ i = 1) by lia.
    destruct Ei as [-> | ->]; vm_compute; reflexivity.
Defined.

Lemma tag_index_keeps_sets_nonempty_witness :
  let add := addTagsToBookmark ascii_normalize example_newTagId example_dateNow
               example_tag_db "Z" in
  (tags_nonempty (tags example_tag_db) /\ store_wf (tags example_tag_db) /\
   tags_nodup (tags example_tag_db) /\ fresh_ids example_newTagId example_tag_db 2) /\
  tags_nonempty (tags (fst (add [" AI "; "News"]))) /\
  snd (add [" AI "; "News"]) = true /\
  (exists t, tags (fst (add [" AI "])) !! "tag_a" = Some t /\
             Tag.name t = "ai" /\ NoDup (Tag.bookmarkIds t) /\
             (forall x, In x (Tag.bookmarkIds t) <-> In x ["X"; "Y"] \/ x = "Z")) /\
  (forall tagName, In tagName [" AI "; "News"] -> ascii_normalize tagName <> "" ->
     exists k t, tags (fst (add [" AI "; "News"])) !! k = Some t /\
                 Tag.name t = ascii_normalize tagName /\ In "Z" (Tag.bookmarkIds t)) /\
  tags (removeTagFromBookmark example_tag_db "X" "tag_b") !! "tag_b" = None /\
  tags (removeTagFromBookmark example_tag_db "X" "tag_a") !! "tag_a"
  = Some (Tag.mk "tag_a" "ai" ["Y"] 1699999999000).
Proof.
  cbv zeta.
  pose proof example_tag_db_inv as Hinv. pose proof Hinv as (Hwf & Hne & Hnd).
  pose proof example_tag_db_fresh as Hfresh.
  split; [auto |].
  destruct (tag_index_keeps_sets_nonempty ascii_normalize example_newTagId example_dateNow
              example_tag_db "Z" "tag_a" [" AI "; "News"] Hne) as (Hkeep & _ & _ & Hrest).
  destruct (Hrest Hwf Hnd) as ((Hresolved & _) & _ & Hone & Hall & _).
  split; [exact Hkeep |]. split; [exact Hresolved |].
  split; [exact (proj2 (Hone " AI " ltac:(vm_compute; discriminate))) |].
  split; [exact (Hall Hfresh) |]. split.
  - destruct (tag_index_keeps_sets_nonempty ascii_normalize example_newTagId example_dateNow
                example_tag_db "X" "tag_b" [] Hne) as (_ & _ & _ & Hrest').
    destruct (Hrest' Hwf Hnd) as (_ & _ & _ & _ & _ & Hlook).
    exact (Hlook tag_work eq_refl).
  - destruct (tag_index_keeps_sets_nonempty ascii_normalize example_newTagId example_dateNow
                example_tag_db "X" "tag_a" [] Hne) as (_ & _ & _ & Hrest').
    destruct (Hrest' Hwf Hnd) as (_ & _ & _ & _ & _ & Hlook).
    exact (Hlook tag_ai eq_refl).
Defined.

(** The tag life cycle of the specification: tagging X with "ai" and
    removing it deletes the tag; tagging X and Y and removing X leaves the tag
    with Y alone. *)
Example tag_lifecycle :
  let add := addTagsToBookmark ascii_normalize example_newTagId example_dateNow in
  let tid := "tag_1700000000000_k3j9x2m1q" in
  let db1 := fst (add empty_db "X" [" AI "]) in
  let db2 := fst (add db1 "Y" ["ai"]) in
  tags db1 !! tid = Some (Tag.mk tid "ai" ["X"] 1700000000000) /\
  tags (removeTagFromBookmark db1 "X" tid) = ∅ /\
  tags db2 !! tid = Some (Tag.mk tid "ai" ["X"; "Y"] 1700000000000) /\
  tags (removeTagFromBookmark db2 "X" tid) !! tid
  = Some (Tag.mk tid "ai" ["Y"] 1700000000000).
Proof. cbv zeta. repeat split; vm_compute; reflexivity. Qed.

(** * Further properties *)

(** ** Tree model and selection tree *)

(** X1. [flattenBookmarks] returns exactly the nodes of the tree that have a
    URL, in pre-order (a parent before its children, siblings in their
    order): it is the pre-order list of all nodes with the nodes without URL
    left out. *)
Theorem flattenBookmarks_preorder (nodes : list BookmarkNode) :
  flattenBookmarks nodes = List.filter (fun n => truthy (url n)) (all_nodes nodes) /\
  forall n, In n (flattenBookmarks nodes) <->
            In n (all_nodes nodes) /\ truthy (url n) = true.
Proof.
  split; [apply flattenBookmarks_filter |].
  intros n. rewrite flattenBookmarks_filter. apply filter_In.
Qed.

Lemma folders_traverse_preorder (node : BookmarkNode) :
  folders_traverse node
  = List.filter (fun n => negb (truthy (url n)) && negb (isSystemFolder n)) (node_list node).
Proof.
  induction node as [i p u t ft | i p u t cs ft IH] using BookmarkNode_tree_ind;
    cbn [folders_traverse node_list children List.filter];
    set (n := mkNode _ _ _ _ _ _).
  - destruct (negb (truthy (url n)) && negb (isSystemFolder n)); reflexivity.
  - assert (Hcs : flat_map folders_traverse cs
                  = List.filter
                      (fun n => negb (truthy (url n)) && negb (isSystemFolder n))
                      (flat_map node_list cs)).
    { induction IH as [| c cs' Hc _ IHcs]; cbn [flat_map]; [reflexivity |].
      rewrite List.filter_app, Hc, IHcs. reflexivity. }
    rewrite Hcs.
    destruct (negb (truthy (url n)) && negb (isSystemFolder n)); reflexivity.
Qed.

Lemma getAllFolders_filter (nodes : list BookmarkNode) :
  getAllFolders nodes
  = List.filter (fun n => negb (truthy (url n)) && negb (isSystemFolder n))
      (all_nodes nodes).
Proof.
  unfold getAllFolders, all_nodes.
  induction nodes as [| n ns IH]; cbn [flat_map]; [reflexivity |].
  rewrite List.filter_app, folders_traverse_preorder, IH. reflexivity.
Qed.

(** X2. [getAllFolders] returns exactly the nodes of the tree that have no
    URL and are not system folders, in pre-order. *)
Theorem getAllFolders_preorder (nodes : list BookmarkNode) :
  getAllFolders nodes
  = List.filter (fun n => negb (truthy (url n)) && negb (isSystemFolder n))
      (all_nodes nodes) /\
  forall n, In n (getAllFolders nodes) <->
            In n (all_nodes nodes) /\ truthy (url n) = false /\ isSystemFolder n = false.
Proof.
  split; [apply getAllFolders_filter |].
  intros n. rewrite getAllFolders_filter, filter_In, andb_true_iff, !negb_true_iff.
  reflexivity.
Qed.

Lemma stats_children_folders (depth : nat) (cs : list BookmarkNode) :
  Forall (fun c => forall d st,
            folderCount (stats_traverse c d st)
            = folderCount st + length (folders_traverse c)) cs ->
  forall st,
    folderCount (fold_left (fun s child => stats_traverse child depth s) cs st)
    = folderCount st + length (flat_map folders_traverse cs).
Proof.
  induction 1 as [| c cs' Hc _ IH]; intros st; cbn [fold_left flat_map].
  - cbn. lia.
  - rewrite IH, Hc, length_app. lia.
Qed.

Lemma stats_traverse_folders (node : BookmarkNode) :
  forall depth st,
    folderCount (stats_traverse node depth st)
    = folderCount st + length (folders_traverse node).
Proof.
  induction node as [i p u t ft | i p u t cs ft IH] using BookmarkNode_tree_ind;
    intros depth st; cbn [stats_traverse folders_traverse children url];
    set (n := mkNode _ _ _ _ _ _); rewrite length_app.
  - destruct (isSystemFolder n); destruct (truthy u); cbn; lia.
  - destruct (isSystemFolder n).
    + rewrite (stats_children_folders 0 cs IH). destruct (truthy u); cbn; lia.
    + rewrite (stats_children_folders (depth + 1) cs IH). destruct (truthy u); cbn; lia.
Qed.

(** X3. The [folderCount] of [getBookmarkStats] is the number of folders
    listed by [getAllFolders] on the same tree, and [bookmarkCount] and
    [folderCount] together count the nodes that are not system folders. *)
Theorem folderCount_getAllFolders (nodes : list BookmarkNode) :
  folderCount (getBookmarkStats nodes) = length (getAllFolders nodes) /\
  bookmarkCount (getBookmarkStats nodes) + folderCount (getBookmarkStats nodes)
  = length (List.filter user_node (all_nodes nodes)).
Proof.
  assert (Hf : folderCount (getBookmarkStats nodes) = length (getAllFolders nodes)).
  { unfold getBookmarkStats, getAllFolders.
    rewrite (stats_children_folders 0 nodes); [reflexivity |].
    apply List.Forall_forall. intros c _ d st. apply stats_traverse_folders. }
  split; [exact Hf |].
  rewrite Hf, bookmarkCount_flatten, flattenBookmarks_filter, getAllFolders_filter.
  unfold user_node.
  induction (all_nodes nodes) as [| n l IH]; [reflexivity |].
  cbn [List.filter].
  destruct (truthy (url n)) eqn:Eu, (isSystemFolder n) eqn:Es;
    cbn [negb andb List.filter length]; rewrite ?Es; cbn [negb length]; lia.
Qed.

Lemma storage_children_count (cs : list BookmarkNode) :
  Forall (fun c => forall count,
            StorageService.traverse c count = count + length (flatten_traverse c)) cs ->
  forall count,
    fold_left (fun count child => StorageService.traverse child count) cs count
    = count + length (flat_map flatten_traverse cs).
Proof.
  induction 1 as [| c cs' Hc _ IH]; intros count; cbn [fold_left flat_map].
  - cbn. lia.
  - rewrite IH, Hc, length_app. lia.
Qed.

Lemma storage_traverse_count (node : BookmarkNode) :
  forall count,
    StorageService.traverse node count = count + length (flatten_traverse node).
Proof.
  induction node as [i p u t ft | i p u t cs ft IH] using BookmarkNode_tree_ind;
    intros count; cbn [StorageService.traverse flatten_traverse children url];
    rewrite length_app.
  - destruct (truthy u); cbn; lia.
  - rewrite (storage_children_count cs IH). destruct (truthy u); cbn; lia.
Qed.

(** The [getBookmarkStats] of the storage service counts the nodes returned
    by [flattenBookmarks]. *)
Lemma storage_count_flatten (nodes : list BookmarkNode) :
  StorageService.getBookmarkStats nodes = length (flattenBookmarks nodes).
Proof.
  unfold StorageService.getBookmarkStats, flattenBookmarks.
  rewrite (storage_children_count nodes); [reflexivity |].
  apply List.Forall_forall. intros c _ count. apply storage_traverse_count.
Qed.

Lemma descendant_ids_flatten (node : BookmarkNode) :
  map id (flatten_traverse node)
  = (if truthy (url node) then [id node] else []) ++ TreeSelect.getAllDescendantIds node.
Proof.
  induction node as [i p u t ft | i p u t cs ft IH] using BookmarkNode_tree_ind;
    cbn [flatten_traverse TreeSelect.getAllDescendantIds children url id];
    rewrite map_app.
  - destruct (truthy u); reflexivity.
  - f_equal; [destruct (truthy u); reflexivity |].
    induction IH as [| c cs' Hc _ IHcs]; cbn [flat_map]; [reflexivity |].
    rewrite map_app, Hc, IHcs. reflexivity.
Qed.

Lemma countBookmarks_children (cs : list BookmarkNode) :
  Forall (fun c => TreeSelect.countBookmarks c = length (flatten_traverse c)) cs ->
  forall count,
    fold_left (fun count child => count + TreeSelect.countBookmarks child) cs count
    = count + length (flat_map flatten_traverse cs).
Proof.
  induction 1 as [| c cs' Hc _ IH]; intros count; cbn [fold_left flat_map].
  - cbn. lia.
  - rewrite IH, Hc, length_app. lia.
Qed.

Lemma countBookmarks_flatten (node : BookmarkNode) :
  TreeSelect.countBookmarks node = length (flatten_traverse node).
Proof.
  induction node as [i p u t ft | i p u t cs ft IH] using BookmarkNode_tree_ind;
    cbn [TreeSelect.countBookmarks flatten_traverse children url]; rewrite length_app.
  - destruct (truthy u); reflexivity.
  - rewrite (countBookmarks_children cs IH). destruct (truthy u); reflexivity.
Qed.

Lemma descendant_ids_children (node : BookmarkNode) :
  TreeSelect.getAllDescendantIds node
  = map id (flattenBookmarks (match children node with Some cs => cs | None => [] end)).
Proof.
  destruct node as [i p u t [cs |] ft];
    cbn [TreeSelect.getAllDescendantIds children]; [| reflexivity].
  unfold flattenBookmarks.
  induction cs as [| c cs IH]; cbn [flat_map]; [reflexivity |].
  rewrite map_app, descendant_ids_flatten, IH. reflexivity.
Qed.

(** X4. In the selection tree, [getAllDescendantIds] of a node lists the ids
    of the bookmarks that [flattenBookmarks] finds below it, in the same
    order, and [countBookmarks] is the number of bookmarks that
    [flattenBookmarks] finds in the node's subtree; for a folder the count
    shown is therefore the number of ids that selecting the folder selects. *)
Theorem descendant_ids_and_count (node : BookmarkNode) :
  TreeSelect.getAllDescendantIds node
  = map id (flattenBookmarks (match children node with Some cs => cs | None => [] end)) /\
  TreeSelect.countBookmarks node = length (flattenBookmarks [node]) /\
  (truthy (url node) = false ->
   TreeSelect.countBookmarks node = length (TreeSelect.getAllDescendantIds node)).
Proof.
  pose proof (descendant_ids_children node) as Hids.
  assert (Hcount : TreeSelect.countBookmarks node = length (flattenBookmarks [node])).
  { unfold flattenBookmarks. cbn [flat_map]. rewrite app_nil_r. apply countBookmarks_flatten. }
  split; [exact Hids |]. split; [exact Hcount |].
  intros Hfolder. rewrite countBookmarks_flatten, <- (length_map id), descendant_ids_flatten.
  rewrite Hfolder. reflexivity.
Qed.

Lemma descendant_ids_and_count_witness :
  truthy (url folderA) = false /\
  TreeSelect.countBookmarks folderA = length (TreeSelect.getAllDescendantIds folderA).
Proof.
  split; [reflexivity |].
  exact (proj2 (proj2 (descendant_ids_and_count folderA)) eq_refl).
Defined.

Lemma findNodeById_body_find (i : string) (node : BookmarkNode) :
  TreeSelect.findNodeById_body i node
  = List.find (fun n => String.eqb (id n) i) (node_list node).
Proof.
  induction node as [j p u t ft | j p u t cs ft IH] using BookmarkNode_tree_ind;
    cbn [TreeSelect.findNodeById_body node_list children id List.find].
  - destruct (String.eqb j i); reflexivity.
  - destruct (String.eqb j i); [reflexivity |].
    induction IH as [| c cs' Hc _ IHcs]; cbn [TreeSelect.for_nodes_find flat_map];
      [reflexivity |].
    rewrite find_app_first, Hc.
    destruct (List.find _ (node_list c)); [reflexivity | exact IHcs].
Qed.

Lemma findNodeById_find (nodes : list BookmarkNode) (i : string) :
  TreeSelect.findNodeById nodes i
  = List.find (fun n => String.eqb (id n) i) (all_nodes nodes).
Proof.
  unfold TreeSelect.findNodeById, all_nodes.
  induction nodes as [| n ns IH]; cbn [TreeSelect.for_nodes_find flat_map];
    [reflexivity |].
  rewrite find_app_first, findNodeById_body_find.
  destruct (List.find _ (node_list n)); [reflexivity | exact IH].
Qed.

(** X5. [findNodeById] returns the first node, in pre-order, whose id is the
    one asked for, and [null] exactly when no node of the tree has that id. *)
Theorem findNodeById_first (nodes : list BookmarkNode) (i : string) :
  TreeSelect.findNodeById nodes i
  = List.find (fun n => String.eqb (id n) i) (all_nodes nodes) /\
  (TreeSelect.findNodeById nodes i = None <->
   forall n, In n (all_nodes nodes) -> id n <> i).
Proof.
  pose proof (findNodeById_find nodes i) as Hfind.
  split; [exact Hfind |]. rewrite Hfind. split.
  - intros Hnone n Hin Heq. pose proof (find_none _ _ Hnone n Hin) as Hn.
    cbn in Hn. rewrite Heq, String.eqb_refl in Hn. discriminate Hn.
  - intros Hall. destruct (List.find _ (all_nodes nodes)) as [n |] eqn:E; [| reflexivity].
    apply find_some in E as [Hin Heq]. apply String.eqb_eq in Heq.
    exfalso. exact (Hall n Hin Heq).
Qed.

Lemma new_Set_step_fold (l : list string) :
  forall seen,
    NoDup seen ->
    let r := fold_left (fun seen i => if includes seen i then seen else seen ++ [i]) l seen in
    NoDup r /\ (forall x, In x r <-> In x seen \/ In x l) /\ exists ext, r = seen ++ ext.
Proof.
  induction l as [| i l IH]; intros seen Hnd; cbn [fold_left]; cbv zeta.
  - split; [exact Hnd |]. split; [intros x; cbn; tauto |].
    exists []. rewrite app_nil_r. reflexivity.
  - destruct (includes seen i) eqn:E.
    + destruct (IH seen Hnd) as (Hr & Hin & Hext). cbv zeta in *.
      split; [exact Hr |]. split; [| exact Hext].
      intros x. rewrite Hin. cbn. apply includes_In in E.
      split; [tauto |]. intros [H | [<- | H]]; tauto.
    + assert (Hnd' : NoDup (seen ++ [i])).
      { apply NoDup_app. split; [exact Hnd |]. split; [| apply NoDup_singleton].
        intros x Hx Hx'. apply list_elem_of_singleton in Hx'. subst x.
        apply list_elem_of_In, includes_In in Hx. congruence. }
      destruct (IH (seen ++ [i]) Hnd') as (Hr & Hin & [ext Hext]). cbv zeta in *.
      split; [exact Hr |]. split.
      * intros x. rewrite Hin, in_app_iff. cbn. tauto.
      * exists (i :: ext). rewrite Hext, <- app_assoc. reflexivity.
Qed.

Lemma new_Set_step_id (l : list string) :
  forall seen,
    NoDup (seen ++ l) ->
    fold_left (fun seen i => if includes seen i then seen else seen ++ [i]) l seen
    = seen ++ l.
Proof.
  induction l as [| i l IH]; intros seen Hnd; cbn [fold_left].
  - rewrite app_nil_r. reflexivity.
  - destruct (includes seen i) eqn:E.
    + exfalso. apply includes_In in E. apply NoDup_app in Hnd as (_ & Hdisj & _).
      apply (Hdisj i); [apply list_elem_of_In; exact E | left].
    + rewrite IH; rewrite <- app_assoc; [reflexivity | exact Hnd].
Qed.

Lemma forallb_includes (sel l : list string) :
  forallb (includes sel) l = true <-> forall x, In x l -> In x sel.
Proof.
  rewrite forallb_forall. split; intros H x Hx; apply includes_In, H, Hx.
Qed.

(** The selection made by toggling a folder on. *)
Lemma new_Set_selection (selectedIds desc : list string) :
  NoDup (new_Set (selectedIds ++ desc)) /\
  (forall x, In x (new_Set (selectedIds ++ desc)) <-> In x selectedIds \/ In x desc) /\
  (NoDup selectedIds -> exists added, new_Set (selectedIds ++ desc) = selectedIds ++ added).
Proof.
  unfold new_Set.
  destruct (new_Set_step_fold (selectedIds ++ desc) [] (NoDup_nil_2)) as (Hnd & Hin & _).
  cbv zeta in *. split; [exact Hnd |]. split.
  - intros x. rewrite Hin, in_app_iff. cbn. tauto.
  - intros Hsel. rewrite fold_left_app.
    rewrite (new_Set_step_id selectedIds []) by exact Hsel. cbn [app].
    exact (proj2 (proj2 (new_Set_step_fold desc selectedIds Hsel))).
Qed.

(** X6. Toggling a folder of which some bookmark is not yet selected selects
    all its bookmarks: the new selection holds exactly the ids selected
    before and the ids of the bookmarks below the folder, each once; a
    selection without repetition keeps its order, the new ids follow. *)
Theorem toggle_folder_selects_all (nodes : list BookmarkNode) (selectedIds : list string)
    (i : string) (folder : BookmarkNode) :
  TreeSelect.findNodeById nodes i = Some folder ->
  forallb (includes selectedIds) (TreeSelect.getAllDescendantIds folder) = false ->
  exists selection,
    TreeSelect.handleToggleSelect nodes selectedIds i true = Some selection /\
    NoDup selection /\
    (forall x, In x selection <->
               In x selectedIds \/ In x (TreeSelect.getAllDescendantIds folder)) /\
    (NoDup selectedIds -> exists added, selection = selectedIds ++ added).
Proof.
  intros Hfind Hsome. unfold TreeSelect.handleToggleSelect. rewrite Hfind. cbv zeta.
  rewrite Hsome. eexists. split; [reflexivity |].
  apply new_Set_selection.
Qed.

Lemma toggle_folder_selects_all_witness :
  exists selection,
    TreeSelect.handleToggleSelect scenario_tree ["12"] "10" true = Some selection /\
    NoDup selection /\
    (forall x, In x selection <->
               In x ["12"] \/ In x (TreeSelect.getAllDescendantIds folderA)).
Proof.
  destruct (toggle_folder_selects_all scenario_tree ["12"] "10" folderA eq_refl eq_refl)
    as (selection & H1 & H2 & H3 & _).
  exists selection. auto.
Defined.

Lemma filter_keep_all {A : Type} (f : A -> bool) (l : list A) :
  (forall x, In x l -> f x = true) -> List.filter f l = l.
Proof.
  intros H. apply filter_all_true. apply List.Forall_forall. exact H.
Qed.

Lemma filter_drop_all {A : Type} (f : A -> bool) (l : list A) :
  (forall x, In x l -> f x = false) -> List.filter f l = [].
Proof.
  induction l as [| x l IH]; intros H; cbn [List.filter]; [reflexivity |].
  rewrite (H x (or_introl eq_refl)). apply IH. intros y Hy. apply H. right. exact Hy.
Qed.

(** X7. Toggling a folder twice restores the selection: when the selection
    has no repetition and holds none of the bookmarks below the folder, the
    first toggle selects them and the second removes exactly them. *)
Theorem toggle_folder_twice (nodes : list BookmarkNode) (selectedIds : list string)
    (i : string) (folder : BookmarkNode) :
  TreeSelect.findNodeById nodes i = Some folder ->
  NoDup selectedIds ->
  (forall x, In x (TreeSelect.getAllDescendantIds folder) -> ~ In x selectedIds) ->
  exists selection,
    TreeSelect.handleToggleSelect nodes selectedIds i true = Some selection /\
    (forall x, In x (TreeSelect.getAllDescendantIds folder) -> In x selection) /\
    TreeSelect.handleToggleSelect nodes selection i true = Some selectedIds.
Proof.
  intros Hfind Hnd Hdisj.
  set (desc := TreeSelect.getAllDescendantIds folder) in *.
  assert (Hkeep : List.filter (fun sid => negb (includes desc sid)) selectedIds = selectedIds).
  { apply filter_keep_all. intros x Hx.
    destruct (includes desc x) eqn:E; [| reflexivity].
    apply includes_In in E. exfalso. exact (Hdisj x E Hx). }
  destruct (forallb (includes selectedIds) desc) eqn:Eall.
  - (* nothing below the folder *)
    assert (Hempty : desc = []).
    { destruct desc as [| d ds] eqn:Ed; [reflexivity |]. exfalso.
      apply (Hdisj d); [left; reflexivity |].
      apply (proj1 (forallb_includes selectedIds (d :: ds)) Eall). left. reflexivity. }
    exists selectedIds. unfold TreeSelect.handleToggleSelect. rewrite Hfind. cbv zeta.
    fold desc. rewrite Eall, Hkeep.
    split; [reflexivity |]. split; [| reflexivity].
    intros x Hx. rewrite Hempty in Hx. inversion Hx.
  - destruct (new_Set_selection selectedIds desc) as (Hnd' & Hin & Hext).
    destruct (Hext Hnd) as [added Hadded]. rewrite Hadded in Hnd', Hin.
    exists (selectedIds ++ added).
    split; [unfold TreeSelect.handleToggleSelect; rewrite Hfind; cbv zeta; fold desc;
            rewrite Eall, Hadded; reflexivity |].
    split; [intros x Hx; apply Hin; right; exact Hx |].
    unfold TreeSelect.handleToggleSelect. rewrite Hfind. cbv zeta. fold desc.
    replace (forallb (includes (selectedIds ++ added)) desc) with true.
    2:{ symmetry. apply forallb_includes. intros x Hx. apply Hin. right. exact Hx. }
    rewrite List.filter_app, Hkeep.
    rewrite (filter_drop_all _ added); [rewrite app_nil_r; reflexivity |].
    intros x Hx.
    assert (Hxsel : ~ In x selectedIds).
    { apply NoDup_app in Hnd' as (_ & Hd & _). intros Hc.
      apply (Hd x); apply list_elem_of_In; assumption. }
    assert (Hxd : In x desc).
    { destruct (proj1 (Hin x)) as [H | H]; [apply in_or_app; right; exact Hx | tauto | exact H]. }
    apply includes_In in Hxd. rewrite Hxd. reflexivity.
Qed.

Lemma toggle_folder_twice_witness :
  exists selection,
    TreeSelect.handleToggleSelect scenario_tree ["12"] "10" true = Some selection /\
    (forall x, In x (TreeSelect.getAllDescendantIds folderA) -> In x selection) /\
    TreeSelect.handleToggleSelect scenario_tree selection "10" true = Some ["12"].
Proof.
  apply (toggle_folder_twice scenario_tree ["12"] "10" folderA eq_refl).
  - apply NoDup_singleton.
  - intros x [<- | []] [H | []]. discriminate H.
Defined.

(** X8. Toggling a bookmark that is not selected appends its id, and toggling
    it again gives back the selection as it was. *)
Theorem toggle_bookmark_twice (nodes : list BookmarkNode) (selectedIds : list string)
    (i : string) :
  ~ In i selectedIds ->
  TreeSelect.handleToggleSelect nodes selectedIds i false = Some (selectedIds ++ [i]) /\
  TreeSelect.handleToggleSelect nodes (selectedIds ++ [i]) i false = Some selectedIds.
Proof.
  intros Hnot. unfold TreeSelect.handleToggleSelect.
  assert (E1 : includes selectedIds i = false).
  { destruct (includes selectedIds i) eqn:E; [| reflexivity].
    apply includes_In in E. contradiction. }
  assert (E2 : includes (selectedIds ++ [i]) i = true).
  { apply includes_In, in_or_app. right. left. reflexivity. }
  rewrite E1, E2. split; [reflexivity |]. f_equal.
  rewrite List.filter_app. cbn [List.filter]. rewrite String.eqb_refl. cbn [negb].
  rewrite app_nil_r. apply filter_keep_all. intros x Hx.
  destruct (String.eqb_spec x i) as [-> | _]; [contradiction | reflexivity].
Qed.

Lemma toggle_bookmark_twice_witness :
  ~ In "12" ["11"] /\
  TreeSelect.handleToggleSelect scenario_tree (["11"] ++ ["12"]) "12" false = Some ["11"].
Proof.
  assert (H : ~ In "12" ["11"]) by (intros [H | []]; discriminate H).
  split; [exact H |].
  exact (proj2 (toggle_bookmark_twice scenario_tree ["11"] "12" H)).
Defined.

Lemma node_list_trans (n : BookmarkNode) :
  forall m x, In m (node_list n) -> In x (node_list m) -> In x (node_list n).
Proof.
  induction n as [i p u t ft | i p u t cs ft IH] using BookmarkNode_tree_ind;
    intros m x Hm Hx; cbn [node_list children] in Hm |- *.
  - destruct Hm as [<- | []]. exact Hx.
  - destruct Hm as [<- | Hm]; [exact Hx |]. right.
    apply in_flat_map in Hm as (c & Hc & Hm). apply in_flat_map. exists c.
    split; [exact Hc |]. rewrite List.Forall_forall in IH. exact (IH c Hc m x Hm Hx).
Qed.

Lemma all_nodes_subtree (nodes : list BookmarkNode) (m x : BookmarkNode) :
  In m (all_nodes nodes) -> In x (node_list m) -> In x (all_nodes nodes).
Proof.
  unfold all_nodes. intros Hm Hx. apply in_flat_map in Hm as (n & Hn & Hm).
  apply in_flat_map. exists n. split; [exact Hn | exact (node_list_trans n m x Hm Hx)].
Qed.

(** X9. After a folder of the tree has been toggled on in the selection
    tree, every bookmark below that folder is among the [selectedBookmarks]
    that [BatchOrganize] submits. *)
Theorem toggled_folder_bookmarks_selected (tree : list BookmarkNode)
    (selectedIds selection : list string) (i : string) (folder b : BookmarkNode) :
  TreeSelect.findNodeById tree i = Some folder ->
  forallb (includes selectedIds) (TreeSelect.getAllDescendantIds folder) = false ->
  TreeSelect.handleToggleSelect tree selectedIds i true = Some selection ->
  In b (flattenBookmarks (match children folder with Some cs => cs | None => [] end)) ->
  In b (selectedBookmarks tree selection).
Proof.
  intros Hfind Hsome Htoggle Hb.
  unfold TreeSelect.handleToggleSelect in Htoggle. rewrite Hfind in Htoggle.
  cbv zeta in Htoggle. rewrite Hsome in Htoggle. injection Htoggle as <-.
  destruct (new_Set_selection selectedIds (TreeSelect.getAllDescendantIds folder))
    as (_ & Hin & _).
  unfold selectedBookmarks. apply filter_In. split.
  - rewrite flattenBookmarks_filter. rewrite flattenBookmarks_filter in Hb.
    apply filter_In in Hb as [Hb Hurl]. apply filter_In. split; [| exact Hurl].
    apply (all_nodes_subtree tree folder b).
    + rewrite findNodeById_find in Hfind.
      apply find_some in Hfind as [Hfolder _]. exact Hfolder.
    + destruct folder as [j p u t [cs |] ft]; cbn [children node_list] in *;
        [right; exact Hb | inversion Hb].
  - apply includes_In, Hin. right.
    rewrite descendant_ids_children. apply in_map. exact Hb.
Qed.

Lemma toggled_folder_bookmarks_selected_witness :
  In bookmark1 (selectedBookmarks scenario_tree ["12"; "11"]).
Proof.
  apply (toggled_folder_bookmarks_selected scenario_tree ["12"] ["12"; "11"] "10" folderA
           bookmark1); try reflexivity.
  left. reflexivity.
Defined.

(** ** Batch dispatcher *)

Lemma forEach_set_null (pre : list Item.t) (post : list (option Item.t)) :
  forall results : gmap string Suggestion.t,
    forEach_set (map Some pre ++ None :: post) results = forEach_set (map Some pre) results.
Proof.
  induction pre as [| item pre IH]; intros results; cbn [map app forEach_set];
    [reflexivity | apply IH].
Qed.

(** X10. When the classifier's answer for a batch is an array whose
    elements are objects up to a first [null], the entries of the elements
    before the [null] are stored and the elements after it are ignored; when
    several stored elements carry the same id the last one wins, and ids not
    mentioned keep the entry they had. *)
Theorem classify_batch_array (callAI : nat -> list BookmarkNode -> option string)
    (parseResponse : string -> option Json) (i : nat) (batch : list BookmarkNode)
    (response : string) (pre : list Item.t) (post : list (option Item.t))
    (results : gmap string Suggestion.t) (x : string) :
  callAI i batch = Some response ->
  parseResponse response = Some (JArray (map Some pre ++ post)) ->
  post = [] \/ (exists post', post = None :: post') ->
  classify_batch callAI parseResponse i batch results !! x
  = match List.find (fun item => String.eqb (Item.id item) x) (rev pre) with
    | Some item => Some (Suggestion.mk (Item.category item) (Item.isNewCategory item))
    | None => results !! x
    end.
Proof.
  intros Hcall Hparse Hpost. unfold classify_batch. rewrite Hcall, Hparse.
  destruct Hpost as [-> | [post' ->]].
  - rewrite app_nil_r. apply forEach_set_lookup.
  - rewrite forEach_set_null. apply forEach_set_lookup.
Qed.

Lemma classify_batch_array_witness :
  classify_batch (fun _ _ => Some "[...]")
    (fun _ => Some (JArray (map Some [Item.mk "121" "Reading" false;
                                      Item.mk "121" "News" true]
                            ++ [None; Some (Item.mk "122" "Work" false)])))
    0 many_bookmarks ∅ !! "121"
  = Some (Suggestion.mk "News" true).
Proof.
  rewrite (classify_batch_array _ _ 0 many_bookmarks "[...]"
             [Item.mk "121" "Reading" false; Item.mk "121" "News" true]
             [None; Some (Item.mk "122" "Work" false)] ∅ "121" eq_refl eq_refl).
  - reflexivity.
  - right. eexists. reflexivity.
Defined.

Lemma forEach_set_from (parsed : list (option Item.t)) :
  forall (results : gmap string Suggestion.t) (x : string) (v : Suggestion.t),
    forEach_set parsed results !! x = Some v ->
    results !! x = Some v \/
    exists item, In (Some item) parsed /\ Item.id item = x /\
                 v = Suggestion.mk (Item.category item) (Item.isNewCategory item).
Proof.
  induction parsed as [| [item |] rest IH]; intros results x v Hx; cbn [forEach_set] in Hx.
  - left. exact Hx.
  - destruct (IH _ _ _ Hx) as [Hins | (item' & Hin & Hid & Hv)].
    + apply lookup_insert_Some in Hins as [[<- <-] | [_ Hold]].
      * right. exists item. split; [left; reflexivity | split; reflexivity].
      * left. exact Hold.
    + right. exists item'. split; [right; exact Hin | split; assumption].
  - left. exact Hx.
Qed.

Lemma merge_entries_from (entries : list (gmap string Suggestion.t)) :
  forall (results : gmap string Suggestion.t) (x : string) (v : Suggestion.t),
    merge_entries entries results !! x = Some v ->
    results !! x = Some v \/ exists e, In e entries /\ e !! x = Some v.
Proof.
  unfold merge_entries.
  induction entries as [| e es IH]; intros results x v Hx; cbn [fold_left] in Hx.
  - left. exact Hx.
  - destruct (IH _ _ _ Hx) as [Hu | (e' & Hin & He')].
    + apply lookup_union_Some_raw in Hu as [He | [_ Hr]].
      * right. exists e. split; [left; reflexivity | exact He].
      * left. exact Hr.
    + right. exists e'. split; [right; exact Hin | exact He'].
Qed.

(** X11. Every entry of the mapping returned by [getOrganizeSuggestions]
    was produced from an element of the array answered for one of the
    batches: its key is that element's [id] and its value that element's
    [category] and [isNewCategory]. The ids are taken as answered, whether or
    not they belong to a bookmark of the batch. *)
Theorem suggestions_come_from_answers callAI parseResponse onProgress
    (bookmarks : list BookmarkNode) (x : string) (v : Suggestion.t) :
  fst (getOrganizeSuggestions callAI parseResponse onProgress bookmarks) !! x = Some v ->
  exists j batch response parsed item,
    make_batches bookmarks !! j = Some batch /\
    callAI j batch = Some response /\
    parseResponse response = Some (JArray parsed) /\
    In (Some item) parsed /\
    Item.id item = x /\
    v = Suggestion.mk (Item.category item) (Item.isNewCategory item).
Proof.
  unfold getOrganizeSuggestions. rewrite organize_loop_results. intros Hx.
  apply merge_entries_from in Hx as [Hx | (e & Hin & He)];
    [rewrite lookup_empty in Hx; discriminate Hx |].
  apply list_elem_of_In, list_elem_of_lookup in Hin as [j Hj].
  rewrite list_lookup_imap in Hj. cbn [Nat.add] in Hj.
  destruct (make_batches bookmarks !! j) as [batch |] eqn:Eb; [| discriminate Hj].
  cbn in Hj. injection Hj as <-.
  unfold batch_entries, classify_batch in He.
  destruct (callAI j batch) as [response |] eqn:Ec;
    [| rewrite lookup_empty in He; discriminate He].
  destruct (parseResponse response) as [[parsed |] |] eqn:Ep;
    try (rewrite lookup_empty in He; discriminate He).
  apply forEach_set_from in He as [He | (item & Hitem & Hid & Hv)];
    [rewrite lookup_empty in He; discriminate He |].
  exists j, batch, response, parsed, item. auto 10.
Qed.

Lemma suggestions_come_from_answers_witness :
  exists j batch response parsed item,
    make_batches many_bookmarks !! j = Some batch /\
    flaky_callAI j batch = Some response /\
    example_parse response = Some (JArray parsed) /\
    In (Some item) parsed /\
    Item.id item = "121" /\
    Suggestion.mk "Reading" false
    = Suggestion.mk (Item.category item) (Item.isNewCategory item).
Proof.
  apply (suggestions_come_from_answers flaky_callAI example_parse false many_bookmarks).
  vm_compute. reflexivity.
Defined.

Lemma make_batches_single {A : Type} (l : list A) :
  0 < length l -> length l <= batchSize -> make_batches l = [l].
Proof.
  intros Hpos Hle. unfold make_batches.
  destruct (length l) as [| n] eqn:E; [lia |].
  cbn [batches_from]. rewrite E.
  replace (Nat.ltb 0 (S n)) with true by (symmetry; apply Nat.ltb_lt; lia).
  f_equal.
  - rewrite slice_take_drop. cbn [drop]. apply take_ge. lia.
  - destruct n as [| n']; cbn [batches_from]; [reflexivity |].
    rewrite E. replace (Nat.ltb (0 + batchSize) (S (S n'))) with false; [reflexivity |].
    symmetry. apply Nat.ltb_ge. lia.
Qed.

Lemma getOrganizeSuggestions_small callAI parseResponse onProgress
    (bookmarks : list BookmarkNode) :
  0 < length bookmarks -> length bookmarks <= batchSize ->
  classify_calls (snd (getOrganizeSuggestions callAI parseResponse onProgress bookmarks))
  = [bookmarks] /\
  fst (getOrganizeSuggestions callAI parseResponse onProgress bookmarks)
  = batch_entries callAI parseResponse 0 bookmarks.
Proof.
  intros Hpos Hle. unfold getOrganizeSuggestions.
  rewrite organize_loop_calls, organize_loop_results, (make_batches_single _ Hpos Hle).
  split; [reflexivity |].
  cbn. unfold merge_entries. cbn [fold_left]. apply (right_id_L ∅ (∪)).
Qed.

(** X12. A non-empty list of at most 20 bookmarks, such as each batch that
    [handleStartProcess] passes, is classified by exactly one call, issued for
    the whole list in its order, and the mapping returned is what that one
    answer produces. *)
Theorem small_list_single_call callAI parseResponse onProgress
    (bookmarks : list BookmarkNode) :
  0 < length bookmarks -> length bookmarks <= batchSize ->
  classify_calls (snd (getOrganizeSuggestions callAI parseResponse onProgress bookmarks))
  = [bookmarks] /\
  fst (getOrganizeSuggestions callAI parseResponse onProgress bookmarks)
  = batch_entries callAI parseResponse 0 bookmarks.
Proof. apply getOrganizeSuggestions_small. Qed.

Lemma small_list_single_call_witness :
  classify_calls (snd (getOrganizeSuggestions flaky_callAI example_parse false five_bookmarks))
  = [five_bookmarks].
Proof.
  apply (small_list_single_call flaky_callAI example_parse false five_bookmarks);
    [cbn; lia | unfold batchSize; cbn; lia].
Defined.

(** ** Applying the changes *)

Section ApplyFacts.
Variable chrome : Chrome.
Variable tree : list BookmarkNode.

(** Every id in the map of new folders was answered by the browser to a
    creation under [findBookmarkBarId tree]. *)
Lemma create_loop_map (organizeResults : list OrganizeResult.t) :
  forall newFolders h newFolders' h',
    create_loop chrome tree organizeResults newFolders h = (Some newFolders', h') ->
    forall name target,
      newFolders' !! name = Some target ->
      newFolders !! name = Some target \/
      exists h0, bookmarks_create chrome h0 (findBookmarkBarId tree) name None = Some target.
Proof.
  induction organizeResults as [| r rs IH]; intros newFolders h newFolders' h' Hloop name target Hn;
    cbn [create_loop] in Hloop.
  - injection Hloop as <- <-. left. exact Hn.
  - destruct (OrganizeResult.isNewCategory r
              && negb (bool_decide (is_Some (newFolders !! OrganizeResult.suggestedFolder r)))).
    + destruct (bookmarks_create chrome h (findBookmarkBarId tree)
                  (OrganizeResult.suggestedFolder r) None) as [newId |] eqn:Ec;
        [| discriminate Hloop].
      destruct (IH _ _ _ _ Hloop name target Hn) as [Hins | Hex]; [| right; exact Hex].
      apply lookup_insert_Some in Hins as [[<- <-] | [_ Hold]];
        [right; exists h; exact Ec | left; exact Hold].
    + exact (IH _ _ _ _ Hloop name target Hn).
Qed.

(** The second loop appends, in the order of the results, one [move] for
    each result whose target resolves and passes the guard. *)
Lemma move_loop_targets (organizeResults : list OrganizeResult.t) :
  forall newFolders h,
  exists moves,
    snd (move_loop chrome tree organizeResults newFolders h) = h ++ moves /\
    Forall (fun c => exists r target,
                In r organizeResults /\
                c = MoveCall (OrganizeResult.bookmarkId r) target /\
                targetFolderId tree newFolders r = Some target /\
                target <> "" /\ target <> OrganizeResult.bookmarkId r) moves.
Proof.
  induction organizeResults as [| r rs IH]; intros newFolders h; cbn [move_loop].
  - exists []. rewrite app_nil_r. split; [reflexivity | constructor].
  - assert (Hweak : forall moves h0,
               snd (move_loop chrome tree rs newFolders h0) = h0 ++ moves /\
               Forall (fun c => exists r' target,
                           In r' rs /\
                           c = MoveCall (OrganizeResult.bookmarkId r') target /\
                           targetFolderId tree newFolders r' = Some target /\
                           target <> "" /\ target <> OrganizeResult.bookmarkId r') moves ->
               Forall (fun c => exists r' target,
                           In r' (r :: rs) /\
                           c = MoveCall (OrganizeResult.bookmarkId r') target /\
                           targetFolderId tree newFolders r' = Some target /\
                           target <> "" /\ target <> OrganizeResult.bookmarkId r') moves).
    { intros moves h0 [_ H]. eapply List.Forall_impl; [| exact H].
      intros c (r' & target & Hin & Hrest). exists r', target.
      split; [right; exact Hin | exact Hrest]. }
    destruct (targetFolderId tree newFolders r) as [target |] eqn:Et.
    2:{ destruct (IH newFolders h) as (moves & Htr & Hall).
        exists moves. split; [exact Htr | exact (Hweak moves h (conj Htr Hall))]. }
    destruct (move_guard (Some target) r) eqn:Eg.
    2:{ destruct (IH newFolders h) as (moves & Htr & Hall).
        exists moves. split; [exact Htr | exact (Hweak moves h (conj Htr Hall))]. }
    apply move_guard_spec in Eg as [Hne Hself].
    assert (Hthis : exists r' target',
               In r' (r :: rs) /\
               MoveCall (OrganizeResult.bookmarkId r) target
               = MoveCall (OrganizeResult.bookmarkId r') target' /\
               targetFolderId tree newFolders r' = Some target' /\
               target' <> "" /\ target' <> OrganizeResult.bookmarkId r').
    { exists r, target. split; [left; reflexivity |]. auto. }
    destruct (bookmarks_move chrome h (OrganizeResult.bookmarkId r) target).
    + destruct (IH newFolders (h ++ [MoveCall (OrganizeResult.bookmarkId r) target]))
        as (moves & Htr & Hall).
      exists (MoveCall (OrganizeResult.bookmarkId r) target :: moves).
      split; [rewrite Htr, <- app_assoc; reflexivity |].
      constructor; [exact Hthis | exact (Hweak moves _ (conj Htr Hall))].
    + exists [MoveCall (OrganizeResult.bookmarkId r) target].
      split; [reflexivity |]. constructor; [exact Hthis | constructor].
Qed.

(** The calls of a run: creations, then moves with their targets. *)
Lemma handleApplyChanges_split (organizeResults : list OrganizeResult.t) :
  exists new moves,
    apply_calls (handleApplyChanges chrome tree organizeResults)
    = map (fun name => CreateCall (findBookmarkBarId tree) name None) new ++ moves /\
    (fst (create_loop chrome tree organizeResults ∅ []) = None ->
     moves = [] /\ apply_complete (handleApplyChanges chrome tree organizeResults) = false) /\
    Forall (fun c => exists r target,
                In r organizeResults /\
                c = MoveCall (OrganizeResult.bookmarkId r) target /\
                target <> "" /\ target <> OrganizeResult.bookmarkId r /\
                if OrganizeResult.isNewCategory r
                then exists h0, bookmarks_create chrome h0 (findBookmarkBarId tree)
                                  (OrganizeResult.suggestedFolder r) None = Some target
                else exists f, In f (getAllFolders tree) /\
                               title f = OrganizeResult.suggestedFolder r /\
                               id f = target) moves.
Proof.
  unfold handleApplyChanges.
  destruct (create_loop_trace chrome tree organizeResults ∅ []) as (new & Htr & _).
  destruct (create_loop chrome tree organizeResults ∅ []) as [[newFolders |] h] eqn:Eloop;
    cbn [snd fst app] in Htr |- *; subst h.
  - destruct (move_loop_targets organizeResults newFolders
                (map (fun name => CreateCall (findBookmarkBarId tree) name None) new))
      as (moves & Hmv & Hall).
    destruct (move_loop chrome tree organizeResults newFolders _) as [ok h'].
    cbn [snd] in Hmv. subst h'. exists new, moves. cbn [apply_calls].
    split; [reflexivity |]. split; [discriminate |].
    eapply List.Forall_impl; [| exact Hall].
    intros c (r & target & Hin & Hc & Ht & Hne & Hself).
    exists r, target. split; [exact Hin |]. split; [exact Hc |].
    split; [exact Hne |]. split; [exact Hself |].
    unfold targetFolderId in Ht. destruct (OrganizeResult.isNewCategory r).
    + destruct (create_loop_map _ _ _ _ _ Eloop _ _ Ht) as [He | Hex];
        [rewrite lookup_empty in He; discriminate He | exact Hex].
    + destruct (List.find _ (existingFolders tree)) as [f |] eqn:Ef; [| discriminate Ht].
      cbn in Ht. injection Ht as <-. apply find_some in Ef as [Hin' Htitle].
      apply String.eqb_eq in Htitle. exists f. auto.
  - exists new, []. cbn [apply_calls apply_complete]. rewrite app_nil_r.
    split; [reflexivity |]. split; [auto | constructor].
Qed.
End ApplyFacts.

(** X13. [handleApplyChanges] issues all its folder creations before its
    first move, and when the browser rejects a creation it stops there: no
    bookmark is moved and the run does not reach the 'complete' step. *)
Theorem creations_precede_moves (chrome : Chrome) (tree : list BookmarkNode)
    (organizeResults : list OrganizeResult.t) :
  (exists creations moves,
      apply_calls (handleApplyChanges chrome tree organizeResults) = creations ++ moves /\
      Forall is_create creations /\ Forall is_move moves) /\
  (fst (create_loop chrome tree organizeResults ∅ []) = None ->
   Forall is_create (apply_calls (handleApplyChanges chrome tree organizeResults)) /\
   apply_complete (handleApplyChanges chrome tree organizeResults) = false).
Proof.
  destruct (handleApplyChanges_split chrome tree organizeResults)
    as (new & moves & Hcalls & Habort & Hmoves).
  assert (Hcreate : Forall is_create
                      (map (fun name => CreateCall (findBookmarkBarId tree) name None) new)).
  { apply List.Forall_forall. intros c Hc. apply in_map_iff in Hc as (name & <- & _).
    exact I. }
  split.
  - exists (map (fun name => CreateCall (findBookmarkBarId tree) name None) new), moves.
    split; [exact Hcalls |]. split; [exact Hcreate |].
    eapply List.Forall_impl; [| exact Hmoves].
    intros c (r & target & _ & -> & _). exact I.
  - intros Hrej. destruct (Habort Hrej) as [-> Hincomplete].
    rewrite Hcalls, app_nil_r. split; [exact Hcreate | exact Hincomplete].
Qed.

(** X14. Every move issued by [handleApplyChanges] is for a bookmark of the
    confirmed results and goes to a non-empty target other than the bookmark
    itself: for a result flagged as a new category, an id the browser
    answered when a folder of that name was created under
    [findBookmarkBarId tree]; otherwise, the id of a folder listed by
    [getAllFolders] (so not a system folder) whose title is the suggested
    folder. *)
Theorem move_targets (chrome : Chrome) (tree : list BookmarkNode)
    (organizeResults : list OrganizeResult.t) (bookmark target : string) :
  In (MoveCall bookmark target) (apply_calls (handleApplyChanges chrome tree organizeResults)) ->
  exists r,
    In r organizeResults /\ OrganizeResult.bookmarkId r = bookmark /\
    target <> "" /\ target <> bookmark /\
    if OrganizeResult.isNewCategory r
    then exists h0, bookmarks_create chrome h0 (findBookmarkBarId tree)
                      (OrganizeResult.suggestedFolder r) None = Some target
    else exists f, In f (getAllFolders tree) /\ isSystemFolder f = false /\
                   title f = OrganizeResult.suggestedFolder r /\ id f = target.
Proof.
  intros Hin.
  destruct (handleApplyChanges_split chrome tree organizeResults)
    as (new & moves & Hcalls & _ & Hmoves).
  rewrite Hcalls in Hin. apply in_app_or in Hin as [Hin | Hin].
  { apply in_map_iff in Hin as (name & Hc & _). discriminate Hc. }
  rewrite List.Forall_forall in Hmoves.
  destruct (Hmoves _ Hin) as (r & target' & Hr & [= -> ->] & Hne & Hself & Hkind).
  exists r. split; [exact Hr |]. split; [reflexivity |].
  split; [exact Hne |]. split; [exact Hself |].
  destruct (OrganizeResult.isNewCategory r); [exact Hkind |].
  destruct Hkind as (f & Hf & Htitle & Hid). exists f.
  split; [exact Hf |]. split; [| auto].
  pose proof (getAllFolders_user tree) as Huser. rewrite List.Forall_forall in Huser.
  exact (Huser f Hf).
Qed.

Lemma move_targets_witness :
  exists r,
    In r [unchanged_result] /\ OrganizeResult.bookmarkId r = "11" /\
    "10" <> "" /\ "10" <> "11" /\
    if OrganizeResult.isNewCategory r
    then exists h0, bookmarks_create chrome_ok h0 (findBookmarkBarId scenario_tree)
                      (OrganizeResult.suggestedFolder r) None = Some "10"
    else exists f, In f (getAllFolders scenario_tree) /\ isSystemFolder f = false /\
                   title f = OrganizeResult.suggestedFolder r /\ id f = "10".
Proof.
  apply (move_targets chrome_ok scenario_tree [unchanged_result] "11" "10").
  vm_compute. left. reflexivity.
Defined.

(** X15. A result that is not flagged as a new category and whose suggested
    folder is not the title of any folder listed by [getAllFolders] is
    skipped without any call or error; when all results are of this kind,
    [handleApplyChanges] calls the browser not at all and reaches
    'complete'. *)
Theorem unresolved_targets_skipped (chrome : Chrome) (tree : list BookmarkNode)
    (organizeResults : list OrganizeResult.t) :
  Forall (fun r => OrganizeResult.isNewCategory r = false /\
                   forall f, In f (getAllFolders tree) ->
                             title f <> OrganizeResult.suggestedFolder r) organizeResults ->
  handleApplyChanges chrome tree organizeResults = mkApplyOutcome [] true.
Proof.
  intros Hall. unfold handleApplyChanges.
  assert (Hcreate : forall nf h, create_loop chrome tree organizeResults nf h = (Some nf, h)).
  { induction Hall as [| r rs [Hnew _] _ IH]; intros nf h; cbn [create_loop];
      [reflexivity |].
    rewrite Hnew. cbn [andb]. apply IH. }
  rewrite Hcreate.
  assert (Hmove : forall nf h, move_loop chrome tree organizeResults nf h = (true, h)).
  { clear Hcreate.
    induction Hall as [| r rs [Hnew Hnone] _ IH]; intros nf h; cbn [move_loop];
      [reflexivity |].
    unfold targetFolderId. rewrite Hnew.
    destruct (List.find _ (existingFolders tree)) as [f |] eqn:Ef.
    - apply find_some in Ef as [Hin Ht]. apply String.eqb_eq in Ht.
      exfalso. exact (Hnone f Hin Ht).
    - cbn. apply IH. }
  rewrite Hmove. reflexivity.
Qed.

Lemma unresolved_targets_skipped_witness :
  handleApplyChanges chrome_ok scenario_tree
    [OrganizeResult.mk "12" "bookmark2" "https://u2.example/" "书签栏" "书签栏" false]
  = mkApplyOutcome [] true.
Proof.
  apply (unresolved_targets_skipped chrome_ok scenario_tree).
  repeat constructor. cbn. intros f [<- | []]. discriminate.
Defined.

(** ** Snapshot store and operation log *)

Lemma ascii_compare_trans (a b c : ascii) (r : comparison) :
  Ascii.compare a b = r -> Ascii.compare b c = r -> Ascii.compare a c = r.
Proof.
  unfold Ascii.compare. intros H1 H2. destruct r.
  - apply N.compare_eq_iff in H1, H2. apply N.compare_eq_iff. congruence.
  - apply N.compare_lt_iff in H1, H2. apply N.compare_lt_iff.
    eapply N.lt_trans; eassumption.
  - apply N.compare_gt_iff in H1, H2. apply N.compare_gt_iff.
    eapply N.lt_trans; eassumption.
Qed.

Lemma string_leb_trans (s1 : string) :
  forall s2 s3, String.leb s1 s2 = true -> String.leb s2 s3 = true -> String.leb s1 s3 = true.
Proof.
  unfold String.leb.
  induction s1 as [| a s1 IH]; intros [| b s2] [| c s3]; cbn [String.compare];
    try discriminate; try reflexivity.
  destruct (Ascii.compare a b) eqn:Eab; try discriminate;
    destruct (Ascii.compare b c) eqn:Ebc; try discriminate; intros H1 H2.
  - rewrite (ascii_compare_trans a b c Eq Eab Ebc). exact (IH s2 s3 H1 H2).
  - apply Ascii.compare_eq_iff in Eab. subst b. rewrite Ebc. reflexivity.
  - apply Ascii.compare_eq_iff in Ebc. subst c. rewrite Eab. reflexivity.
  - rewrite (ascii_compare_trans a b c Lt Eab Ebc). reflexivity.
Qed.

Section ObjectStoreFacts.
Context {T : Type}.
Variable key : T -> string.
Variable stamp : T -> Z.

#[local] Instance newer_first_total : Total (newer_first key stamp).
Proof.
  intros a b. unfold newer_first.
  destruct (Z.lt_trichotomy (stamp a) (stamp b)) as [H | [H | H]]; [right; left; exact H | | left; left; exact H].
  destruct (String.leb_total (key a) (key b)) as [L | L].
  - right. right. split; [symmetry; exact H | exact L].
  - left. right. split; [exact H | exact L].
Qed.

#[local] Instance newer_first_trans : Transitive (newer_first key stamp).
Proof.
  intros a b c [H1 | [E1 L1]] [H2 | [E2 L2]]; unfold newer_first.
  - left. lia.
  - left. lia.
  - left. lia.
  - right. split; [congruence | exact (string_leb_trans _ _ _ L2 L1)].
Qed.

Lemma getAll_Permutation (store : gmap string T) :
  getAll key stamp store ≡ₚ (snd <$> map_to_list store).
Proof. unfold getAll. apply merge_sort_Permutation. Qed.

Lemma getAll_sorted (store : gmap string T) :
  StronglySorted (newer_first key stamp) (getAll key stamp store).
Proof. unfold getAll. apply StronglySorted_merge_sort; apply _. Qed.

Lemma elem_of_getAll (store : gmap string T) (x : T) :
  x ∈ getAll key stamp store <-> exists k, store !! k = Some x.
Proof.
  rewrite getAll_Permutation, list_elem_of_fmap. split.
  - intros ([k y] & -> & Hin). exists k. apply elem_of_map_to_list. exact Hin.
  - intros [k Hk]. exists (k, x). split; [reflexivity |].
    apply elem_of_map_to_list. exact Hk.
Qed.

Lemma keyed_values_NoDup (store : gmap string T) :
  keyed key store -> NoDup (key <$> (snd <$> map_to_list store)).
Proof.
  intros Hkeyed.
  assert (Heq : key <$> (snd <$> map_to_list store) = (map_to_list store).*1).
  { rewrite <- list_fmap_compose. apply list_fmap_ext.
    intros i [k x] Hi. cbn. apply Hkeyed. apply elem_of_map_to_list.
    apply list_elem_of_lookup. eauto. }
  rewrite Heq. apply NoDup_fst_map_to_list.
Qed.

Lemma getAll_keys_NoDup (store : gmap string T) :
  keyed key store -> NoDup (key <$> getAll key stamp store).
Proof.
  intros Hkeyed. rewrite getAll_Permutation. apply keyed_values_NoDup. exact Hkeyed.
Qed.

Lemma delete_all_lookup (l : list T) :
  forall (store : gmap string T) (k : string),
    fold_left (fun s record => delete (key record) s) l store !! k
    = if decide (k ∈ key <$> l) then None else store !! k.
Proof.
  induction l as [| x l IH]; intros store k; cbn [fold_left].
  - destruct (decide (k ∈ key <$> [])) as [Hin | _]; [inversion Hin | reflexivity].
  - rewrite IH. cbn [fmap list_fmap].
    destruct (decide (k ∈ key <$> l)) as [Hin | Hnin].
    + rewrite decide_True; [reflexivity | right; exact Hin].
    + destruct (decide (k = key x)) as [-> | Hne].
      * rewrite decide_True by left. apply lookup_delete_eq.
      * rewrite decide_False.
        -- apply lookup_delete_ne. congruence.
        -- intros Hc. apply elem_of_cons in Hc as [Hc | Hc]; contradiction.
Qed.

(** After the clean-up, the store lists exactly the first [keep] records of
    the listing before. *)
Lemma getAll_cleanup (keep : nat) (store : gmap string T) :
  keyed key store ->
  getAll key stamp (cleanup key stamp keep store) = take keep (getAll key stamp store).
Proof.
  intros Hkeyed. unfold cleanup. cbv zeta.
  set (all := getAll key stamp store).
  destruct (Nat.leb_spec (length all) keep) as [Hle | Hgt].
  { rewrite take_ge by exact Hle. reflexivity. }
  set (store' := fold_left (fun s record => delete (key record) s) (drop keep all) store).
  pose proof (getAll_keys_NoDup store Hkeyed) as Hnd. fold all in Hnd.
  assert (Hsplit : all = take keep all ++ drop keep all) by (symmetry; apply take_drop).
  assert (Hlook : forall k x, store' !! k = Some x <-> x ∈ take keep all /\ key x = k).
  { intros k x. unfold store'. rewrite delete_all_lookup. split.
    - destruct (decide (k ∈ key <$> drop keep all)) as [Hin | Hnin]; [discriminate |].
      intros Hk. pose proof (Hkeyed k x Hk) as Hkx. split; [| exact Hkx].
      assert (Hx : x ∈ all) by (apply elem_of_getAll; eauto).
      rewrite Hsplit in Hx. apply elem_of_app in Hx as [Hx | Hx]; [exact Hx |].
      exfalso. apply Hnin. rewrite <- Hkx. apply list_elem_of_fmap_2. exact Hx.
    - intros [Hx <-].
      rewrite decide_False.
      + assert (Hxa : x ∈ all) by (rewrite Hsplit; apply elem_of_app; left; exact Hx).
        apply elem_of_getAll in Hxa as [k Hk]. rewrite <- (Hkeyed k x Hk) in Hk. exact Hk.
      + rewrite Hsplit, fmap_app in Hnd. apply NoDup_app in Hnd as (_ & Hdisj & _).
        apply Hdisj. apply list_elem_of_fmap_2. exact Hx. }
  assert (Hkeyed' : keyed key store').
  { intros k x Hk. apply Hlook in Hk as [_ Hk]. exact Hk. }
  apply (StronglySorted_unique_strong (newer_first key stamp)).
  - intros x1 x2 H1 H2 R12 R21.
    apply elem_of_getAll in H1 as [k1 Hk1]. apply Hlook in Hk1 as [Hx1 <-].
    assert (Hk : key x1 = key x2).
    { destruct R12 as [Hlt | [Heq L12]], R21 as [Hlt' | [Heq' L21]]; try lia.
      apply String.leb_antisym; assumption. }
    assert (Ha1 : x1 ∈ all) by (rewrite Hsplit; apply elem_of_app; left; exact Hx1).
    assert (Ha2 : x2 ∈ all) by (rewrite Hsplit; apply elem_of_app; left; exact H2).
    apply elem_of_getAll in Ha1 as [k1 Hk1], Ha2 as [k2 Hk2].
    pose proof (Hkeyed _ _ Hk1) as E1. pose proof (Hkeyed _ _ Hk2) as E2.
    assert (k1 = k2) by congruence. subst k2. congruence.
  - apply getAll_sorted.
  - pose proof (getAll_sorted store) as Hs. fold all in Hs. rewrite Hsplit in Hs.
    exact (StronglySorted_app_1_l _ _ _ Hs).
  - apply NoDup_Permutation.
    + eapply NoDup_fmap_1. apply (getAll_keys_NoDup store' Hkeyed').
    + eapply NoDup_fmap_1. rewrite Hsplit, fmap_app in Hnd.
      apply NoDup_app in Hnd as (Hnd & _ & _). exact Hnd.
    + intros x. rewrite elem_of_getAll. split.
      * intros [k Hk]. apply Hlook in Hk as [Hx _]. exact Hx.
      * intros Hx. exists (key x). apply Hlook. split; [exact Hx | reflexivity].
Qed.

Lemma store_add_keyed (store store' : gmap string T) (record : T) :
  keyed key store -> store_add key store record = Some store' -> keyed key store'.
Proof.
  unfold store_add. intros Hkeyed Hadd.
  destruct (store !! key record); [discriminate |]. injection Hadd as <-.
  intros k x Hk. apply lookup_insert_Some in Hk as [[<- <-] | [_ Hk]];
    [reflexivity | exact (Hkeyed k x Hk)].
Qed.
End ObjectStoreFacts.

(** X16. [createSnapshot] stores the snapshot under the id
    ['snapshot_' + Date.now()] when that id is free: the snapshot can then
    be read back with [getSnapshot], it holds the tree as given and the
    number of bookmarks that [flattenBookmarks] finds in it, and the other
    snapshots are untouched. When the id is taken (a snapshot made in the
    same millisecond) the promise rejects and the store is unchanged. In
    both cases a store keyed by id stays so. *)
Theorem createSnapshot_outcome (snapshots : gmap string Snapshot.t) (now_id now_stamp : Z)
    (treeData : list BookmarkNode) (description : string) :
  let sid := "snapshot_" +:+ decimal now_id in
  let '(result, snapshots') :=
    createSnapshot snapshots now_id now_stamp treeData description in
  (keyed Snapshot.id snapshots -> keyed Snapshot.id snapshots') /\
  match result with
  | Some snapshot =>
      snapshots !! sid = None /\
      getSnapshot snapshots' sid = Some snapshot /\
      Snapshot.id snapshot = sid /\
      Snapshot.timestamp snapshot = now_stamp /\
      Snapshot.treeData snapshot = treeData /\
      Snapshot.bookmarkCount snapshot = length (flattenBookmarks treeData) /\
      forall k, k <> sid -> getSnapshot snapshots' k = getSnapshot snapshots k
  | None => is_Some (snapshots !! sid) /\ snapshots' = snapshots
  end.
Proof.
  cbv zeta. unfold createSnapshot.
  set (snapshot := Snapshot.mk _ _ _ _ _).
  destruct (store_add Snapshot.id snapshots snapshot) as [snapshots' |] eqn:Eadd.
  - split; [intros Hk; exact (store_add_keyed _ _ _ _ Hk Eadd) |].
    unfold store_add in Eadd. cbn [Snapshot.id snapshot] in Eadd.
    destruct (snapshots !! _) eqn:Efree; [discriminate |]. injection Eadd as <-.
    split; [reflexivity |]. unfold getSnapshot.
    split; [apply lookup_insert_eq |]. split; [reflexivity |]. split; [reflexivity |].
    split; [reflexivity |]. split; [apply storage_count_flatten |].
    intros k Hk. apply lookup_insert_ne. congruence.
  - split; [auto |].
    unfold store_add in Eadd. cbn [Snapshot.id snapshot] in Eadd.
    destruct (snapshots !! _) eqn:Etaken; [| discriminate].
    split; [eauto | reflexivity].
Qed.

Lemma StronglySorted_weaken {A : Type} (R S : A -> A -> Prop) (l : list A) :
  (forall a b, R a b -> S a b) -> StronglySorted R l -> StronglySorted S l.
Proof.
  intros Himp. induction 1 as [| x l _ IH Hx]; constructor; [exact IH |].
  eapply List.Forall_impl; [| exact Hx]. intros b. apply Himp.
Qed.


(** X18. [cleanupOldSnapshots] keeps exactly the ten newest snapshots: on a
    store keyed by id, the listing after the clean-up is the first ten
    entries of the listing before, and a store of at most ten snapshots is
    left as it is. *)
Theorem cleanupOldSnapshots_keeps_ten (snapshots : gmap string Snapshot.t) :
  keyed Snapshot.id snapshots ->
  getAllSnapshots (cleanupOldSnapshots snapshots) = take 10 (getAllSnapshots snapshots) /\
  (size snapshots <= 10 -> cleanupOldSnapshots snapshots = snapshots) /\
  forall k s, cleanupOldSnapshots snapshots !! k = Some s -> snapshots !! k = Some s.
Proof.
  intros Hkeyed. unfold getAllSnapshots, cleanupOldSnapshots.
  split; [apply getAll_cleanup; exact Hkeyed |]. split.
  - intros Hsize. unfold cleanup. cbv zeta.
    rewrite (getAll_Permutation Snapshot.id Snapshot.timestamp snapshots), length_fmap,
      length_map_to_list.
    destruct (Nat.leb_spec (size snapshots) 10); [reflexivity | lia].
  - intros k s. unfold cleanup. cbv zeta.
    destruct (Nat.leb_spec (length (getAll Snapshot.id Snapshot.timestamp snapshots)) 10);
      [auto |].
    rewrite delete_all_lookup. destruct (decide _); [discriminate | auto].
Qed.

Lemma cleanupOldSnapshots_keeps_ten_witness :
  keyed Snapshot.id eleven_snapshots /\
  getAllSnapshots (cleanupOldSnapshots eleven_snapshots)
  = take 10 (getAllSnapshots eleven_snapshots).
Proof.
  assert (H : keyed Snapshot.id eleven_snapshots).
  { intros k x Hk. unfold eleven_snapshots in Hk.
    apply elem_of_list_to_map_2, list_elem_of_In, in_map_iff in Hk as (t & [= <- <-] & _).
    reflexivity. }
  split; [exact H |].
  exact (proj1 (cleanupOldSnapshots_keeps_ten eleven_snapshots H)).
Defined.

(** Of eleven snapshots the oldest is pruned. *)
Example cleanup_eleven_snapshots :
  map Snapshot.timestamp (getAllSnapshots (cleanupOldSnapshots eleven_snapshots))
  = [11; 10; 9; 8; 7; 6; 5; 4; 3; 2]%Z.
Proof. vm_compute. reflexivity. Qed.

(** X19. [addOperationLog] stores the record under ['log_' + Date.now()]
    unless that id is taken, in which case it rejects and changes nothing;
    [getAllLogs] lists the records newest first; and [cleanupOldLogs] keeps
    exactly the fifty newest records of a log keyed by id. *)
Theorem operation_log_retention (logs : gmap string OperationLog.t) (now_id now_stamp : Z)
    (type : OperationType) (affectedCount : nat) (description : string)
    (snapshotId : option string) :
  keyed OperationLog.id logs ->
  (let '(result, logs') :=
     addOperationLog logs now_id now_stamp type affectedCount description snapshotId in
   keyed OperationLog.id logs' /\
   match result with
   | Some fullLog =>
       logs !! ("log_" +:+ decimal now_id) = None /\
       logs' !! ("log_" +:+ decimal now_id) = Some fullLog /\
       fullLog = OperationLog.mk ("log_" +:+ decimal now_id) now_stamp type affectedCount
                   description snapshotId
   | None => is_Some (logs !! ("log_" +:+ decimal now_id)) /\ logs' = logs
   end) /\
  StronglySorted (fun a b => (OperationLog.timestamp b <= OperationLog.timestamp a)%Z)
    (getAllLogs logs) /\
  getAllLogs (cleanupOldLogs logs) = take 50 (getAllLogs logs).
Proof.
  intros Hkeyed. split; [| split].
  - unfold addOperationLog. set (fullLog := OperationLog.mk _ _ _ _ _ _).
    destruct (store_add OperationLog.id logs fullLog) as [logs' |] eqn:Eadd.
    + split; [exact (store_add_keyed _ _ _ _ Hkeyed Eadd) |].
      unfold store_add in Eadd. cbn [OperationLog.id fullLog] in Eadd.
      destruct (logs !! _) eqn:Efree; [discriminate |]. injection Eadd as <-.
      split; [reflexivity |]. split; [apply lookup_insert_eq | reflexivity].
    + split; [exact Hkeyed |].
      unfold store_add in Eadd. cbn [OperationLog.id fullLog] in Eadd.
      destruct (logs !! _) eqn:Etaken; [| discriminate]. split; [eauto | reflexivity].
  - unfold getAllLogs. eapply StronglySorted_weaken; [| apply getAll_sorted].
    intros a b [Hlt | [Heq _]]; lia.
  - unfold getAllLogs, cleanupOldLogs. apply getAll_cleanup. exact Hkeyed.
Qed.

Lemma operation_log_retention_witness :
  keyed OperationLog.id example_logs /\
  getAllLogs (cleanupOldLogs example_logs) = take 50 (getAllLogs example_logs).
Proof.
  assert (H : keyed OperationLog.id example_logs).
  { intros k x Hk. unfold example_logs in Hk.
    apply lookup_insert_Some in Hk as [[<- <-] | [_ Hk]]; [reflexivity |].
    apply lookup_singleton_Some in Hk as [<- <-]. reflexivity. }
  split; [exact H |].
  exact (proj2 (proj2 (operation_log_retention example_logs 1700000009000 1700000009000
                         clean 2 "cleaned" None H))).
Defined.

(** The listing of the example log: the newer record first. *)
Example getAllLogs_example :
  map OperationLog.id (getAllLogs example_logs) = ["log_1700000005000"; "log_1700000000000"].
Proof. vm_compute. reflexivity. Qed.

(** ** Restore *)

Lemma zip_with_app_same {A B C : Type} (f : A -> B -> C) (l1 l2 : list A) (k1 k2 : list B) :
  length l1 = length k1 ->
  zip_with f (l1 ++ l2) (k1 ++ k2) = zip_with f l1 k1 ++ zip_with f l2 k2.
Proof.
  revert k1. induction l1 as [| x l1 IH]; intros [| y k1] Hlen; cbn in Hlen |- *;
    try discriminate; [reflexivity |].
  f_equal. apply IH. lia.
Qed.

Section RestoreMore.
Variable chrome : Chrome.

Lemma create_children_preorder (resultId : string) (cs : list BookmarkNode) :
  Forall (fun c => forall parent h,
            exists parents,
              length (parent :: parents) = length (node_list c) /\
              snd (createBookmarkFromNode chrome c parent h)
              = h ++ zip_with (fun p m => CreateCall p (title m) (node_link m))
                       (parent :: parents) (node_list c)) cs ->
  forall h,
  exists parents,
    length parents = length (flat_map node_list cs) /\
    fold_left (fun h child => snd (createBookmarkFromNode chrome child resultId h)) cs h
    = h ++ zip_with (fun p m => CreateCall p (title m) (node_link m))
             parents (flat_map node_list cs).
Proof.
  induction 1 as [| c cs' Hc _ IH]; intros h; cbn [fold_left flat_map].
  - exists []. split; [reflexivity |]. cbn. rewrite app_nil_r. reflexivity.
  - destruct (Hc resultId h) as (p1 & Hl1 & ->).
    destruct (IH (h ++ zip_with (fun p m => CreateCall p (title m) (node_link m))
                         (resultId :: p1) (node_list c))) as (p2 & Hl2 & ->).
    exists ((resultId :: p1) ++ p2). split; [rewrite !length_app; lia |].
    rewrite zip_with_app_same by exact Hl1. rewrite <- app_assoc. reflexivity.
Qed.

Lemma createBookmarkFromNode_preorder (node : BookmarkNode) :
  accepts_creations chrome ->
  bookmarks_are_leaves node ->
  forall parent h,
  exists parents,
    length (parent :: parents) = length (node_list node) /\
    snd (createBookmarkFromNode chrome node parent h)
    = h ++ zip_with (fun p m => CreateCall p (title m) (node_link m))
             (parent :: parents) (node_list node).
Proof.
  intros Hacc.
  induction node as [i p u t ft | i p u t cs ft IH] using BookmarkNode_tree_ind;
    intros Hleaves parent h;
    cbn [createBookmarkFromNode node_list children url title];
    set (n := mkNode _ _ _ _ _ _).
  - exists []. split; [reflexivity |]. unfold node_link. cbn [url n zip_with title].
    destruct (truthy u); [reflexivity |].
    destruct (bookmarks_create chrome h parent t None); reflexivity.
  - destruct (truthy u) eqn:Eu.
    + destruct (Hleaves n (or_introl eq_refl) Eu) as [Hc | Hc];
        cbn [children n] in Hc; [discriminate |]. injection Hc as ->.
      exists []. split; [reflexivity |]. unfold node_link. cbn. rewrite Eu. reflexivity.
    + destruct (Hacc h parent t None) as [resultId ->]. cbn [snd].
      destruct (create_children_preorder resultId cs) with (h := h ++ [CreateCall parent t None])
        as (ps & Hlen & Hfold).
      * rewrite List.Forall_forall in IH. apply List.Forall_forall. intros c Hc.
        apply IH; [exact Hc |].
        intros m Hm. apply Hleaves. right. apply in_flat_map. exists c. split; assumption.
      * exists ps. split; [cbn [length]; rewrite Hlen; reflexivity |].
        rewrite Hfold, <- app_assoc. unfold node_link at 2. cbn [url n zip_with app title].
        rewrite Eu. reflexivity.
Qed.
End RestoreMore.

(** X20. On a subtree whose bookmarks have no children and with a browser
    that accepts every creation, [createBookmarkFromNode] issues exactly one
    creation per node of the subtree, in pre-order, each with the node's
    title and, for a bookmark, its URL; the first is under the given
    parent. *)
Theorem createBookmarkFromNode_recreates_subtree (chrome : Chrome) (node : BookmarkNode)
    (parent : string) (h : list Call) :
  accepts_creations chrome ->
  bookmarks_are_leaves node ->
  exists parents,
    length (parent :: parents) = length (node_list node) /\
    snd (createBookmarkFromNode chrome node parent h)
    = h ++ zip_with (fun p m => CreateCall p (title m) (node_link m))
             (parent :: parents) (node_list node) /\
    is_Some (fst (createBookmarkFromNode chrome node parent h)).
Proof.
  intros Hacc Hleaves.
  destruct (createBookmarkFromNode_preorder chrome node Hacc Hleaves parent h)
    as (parents & Hlen & Htrace).
  exists parents. split; [exact Hlen |]. split; [exact Htrace |].
  destruct node as [i p u t cs ft]. cbn [createBookmarkFromNode url title children].
  destruct (truthy u); cbn [fst]; [apply Hacc |].
  destruct (Hacc h parent t None) as [resultId ->]. destruct cs; cbn [fst]; eauto.
Qed.

Lemma createBookmarkFromNode_recreates_subtree_witness :
  exists parents,
    length ("1" :: parents) = length (node_list folderA) /\
    snd (createBookmarkFromNode chrome_ok folderA "1" [])
    = [] ++ zip_with (fun p m => CreateCall p (title m) (node_link m))
              ("1" :: parents) (node_list folderA) /\
    is_Some (fst (createBookmarkFromNode chrome_ok folderA "1" [])).
Proof.
  apply (createBookmarkFromNode_recreates_subtree chrome_ok folderA "1" []).
  - intros h parent name link. cbn. eauto.
  - intros m [<- | [<- | []]]; cbn; intros H; [discriminate H | left; reflexivity].
Defined.

(** X21. When the browser rejects the creation of a node,
    [createBookmarkFromNode] swallows the error: it returns [undefined] and
    creates nothing below the node. The loop over a list of siblings goes on
    all the same: every sibling gets its creation call under the same
    parent. *)
Theorem rejected_creation_loses_subtree (chrome : Chrome) (node : BookmarkNode)
    (parent : string) (h : list Call) (siblings : list BookmarkNode) :
  bookmarks_create chrome h parent (title node) (node_link node) = None ->
  createBookmarkFromNode chrome node parent h
  = (None, h ++ [CreateCall parent (title node) (node_link node)]) /\
  forall sibling, In sibling siblings ->
    In (CreateCall parent (title sibling) (node_link sibling))
       (fold_left (fun h child => snd (createBookmarkFromNode chrome child parent h))
          (node :: siblings) h).
Proof.
  intros Hrej. split.
  - destruct node as [i p u t cs ft]. unfold node_link in *.
    cbn [createBookmarkFromNode url title] in *.
    destruct (truthy u); [rewrite Hrej; reflexivity |]. rewrite Hrej. reflexivity.
  - intros sibling Hs.
    apply (proj2 (create_children_calls chrome parent (node :: siblings) h)).
    right. exact Hs.
Qed.

Lemma rejected_creation_loses_subtree_witness :
  createBookmarkFromNode
    (mkChrome (fun _ _ _ _ => None) (fun _ _ _ => true) (fun _ _ => Some [])
       (fun _ _ => true) (fun _ _ => true))
    folderA "1" []
  = (None, [] ++ [CreateCall "1" (title folderA) (node_link folderA)]).
Proof.
  exact (proj1 (rejected_creation_loses_subtree
                  (mkChrome (fun _ _ _ _ => None) (fun _ _ _ => true) (fun _ _ => Some [])
                     (fun _ _ => true) (fun _ _ => true))
                  folderA "1" [] [] eq_refl)).
Defined.

Section ClearFacts.
Variable chrome : Chrome.

Lemma clearFolderContents_calls (fuel : nat) :
  forall folderId h,
  exists ext,
    clearFolderContents chrome fuel folderId h = h ++ ext /\
    Forall (clearing_call chrome) ext.
Proof.
  induction fuel as [| fuel IH]; intros folderId h; cbn [clearFolderContents].
  - exists []. rewrite app_nil_r. split; [reflexivity | constructor].
  - destruct (bookmarks_getChildren chrome h folderId) as [cs |] eqn:Eget.
    2:{ exists [GetChildrenCall folderId]. split; [reflexivity |].
        constructor; [exact I | constructor]. }
    assert (Hloop : forall rest h',
               (forall c, In c rest -> In c cs) ->
               exists ext,
                 (fix loop (cs : list BookmarkNode) (h : list Call) : list Call :=
                    match cs with
                    | [] => h
                    | child :: rest =>
                        if truthy (url child) then
                          let h' := h ++ [RemoveCall (id child)] in
                          if bookmarks_remove chrome h (id child) then loop rest h' else h'
                        else
                          let h' := clearFolderContents chrome fuel (id child) h in
                          if negb (truthy (folderType child)) then
                            let h'' := h' ++ [RemoveTreeCall (id child)] in
                            if bookmarks_removeTree chrome h' (id child)
                            then loop rest h'' else h''
                          else loop rest h'
                    end) rest h' = h' ++ ext /\
                 Forall (clearing_call chrome) ext).
    { induction rest as [| child rest IHrest]; intros h' Hsub.
      - exists []. rewrite app_nil_r. split; [reflexivity | constructor].
      - assert (Hchild : In child cs) by (apply Hsub; left; reflexivity).
        assert (Hsub' : forall c, In c rest -> In c cs) by (intros c Hc; apply Hsub; right; exact Hc).
        cbn beta iota fix zeta. cbv zeta in IHrest.
        destruct (truthy (url child)) eqn:Eu.
        + assert (Hcall : clearing_call chrome (RemoveCall (id child))).
          { exists h, folderId, cs, child. auto. }
          destruct (bookmarks_remove chrome h' (id child)).
          * destruct (IHrest (h' ++ [RemoveCall (id child)]) Hsub') as (ext & -> & Hext).
            exists (RemoveCall (id child) :: ext).
            split; [rewrite <- app_assoc; reflexivity | constructor; assumption].
          * exists [RemoveCall (id child)]. split; [reflexivity |].
            constructor; [exact Hcall | constructor].
        + destruct (IH (id child) h') as (e1 & -> & He1).
          destruct (truthy (folderType child)) eqn:Eft; cbn [negb].
          * destruct (IHrest (h' ++ e1) Hsub') as (ext & -> & Hext).
            exists (e1 ++ ext). split; [rewrite app_assoc; reflexivity |].
            apply Forall_app; split; assumption.
          * assert (Hcall : clearing_call chrome (RemoveTreeCall (id child))).
            { exists h, folderId, cs, child. auto. }
            destruct (bookmarks_removeTree chrome (h' ++ e1) (id child)).
            -- destruct (IHrest ((h' ++ e1) ++ [RemoveTreeCall (id child)]) Hsub')
                 as (ext & -> & Hext).
               exists (e1 ++ RemoveTreeCall (id child) :: ext).
               split; [rewrite <- !app_assoc; reflexivity |].
               apply Forall_app; split; [exact He1 | constructor; assumption].
            -- exists (e1 ++ [RemoveTreeCall (id child)]).
               split; [rewrite <- app_assoc; reflexivity |].
               apply Forall_app; split; [exact He1 | constructor; [exact Hcall | constructor]]. }
    destruct (Hloop cs (h ++ [GetChildrenCall folderId]) (fun c Hc => Hc)) as (ext & Hext & Hall).
    exists (GetChildrenCall folderId :: ext).
    split; [etransitivity; [exact Hext | rewrite <- app_assoc; reflexivity] |].
    constructor; [exact I | exact Hall].
Qed.

Lemma fold_left_clearing {A : Type} (f : list Call -> A -> list Call) (l : list A) :
  (forall x h, exists ext, f h x = h ++ ext /\ Forall (clearing_call chrome) ext) ->
  forall h, exists ext, fold_left f l h = h ++ ext /\ Forall (clearing_call chrome) ext.
Proof.
  intros Hf. induction l as [| x l IH]; intros h; cbn [fold_left].
  - exists []. rewrite app_nil_r. split; [reflexivity | constructor].
  - destruct (Hf x h) as (e1 & -> & H1). destruct (IH (h ++ e1)) as (e2 & -> & H2).
    exists (e1 ++ e2). split; [rewrite app_assoc; reflexivity |].
    apply Forall_app; split; assumption.
Qed.

Lemma clearBookmarks_calls (fuel : nat) (nodes : list BookmarkNode) (h : list Call) :
  exists ext,
    clearBookmarks chrome fuel nodes h = h ++ ext /\ Forall (clearing_call chrome) ext.
Proof.
  unfold clearBookmarks. apply fold_left_clearing. intros node h0.
  destruct (String.eqb (id node) "0");
    [| exists []; rewrite app_nil_r; split; [reflexivity | constructor]].
  destruct (children node) as [cs |];
    [| exists []; rewrite app_nil_r; split; [reflexivity | constructor]].
  apply fold_left_clearing. intros child h1. apply clearFolderContents_calls.
Qed.
End ClearFacts.

(** X22. The clearing step of a restore only asks for children and removes
    nodes: it never creates or moves a node; it removes with [remove] only
    nodes that [getChildren] reported with a URL, and with [removeTree] only
    nodes that [getChildren] reported without URL and without [folderType],
    so that a folder the browser marks with a [folderType] is never removed.
    Top-level nodes whose id is not ['0'] are not cleared at all. *)
Theorem clearBookmarks_only_clears (chrome : Chrome) (fuel : nat)
    (nodes : list BookmarkNode) :
  Forall (clearing_call chrome) (clearBookmarks chrome fuel nodes []) /\
  ((forall n, In n nodes -> id n <> "0") -> clearBookmarks chrome fuel nodes [] = []).
Proof.
  split.
  - destruct (clearBookmarks_calls chrome fuel nodes []) as (ext & -> & Hall). exact Hall.
  - intros Hnoroot. unfold clearBookmarks.
    induction nodes as [| n ns IH]; cbn [fold_left]; [reflexivity |].
    destruct (String.eqb_spec (id n) "0") as [E | _].
    + exfalso. exact (Hnoroot n (or_introl eq_refl) E).
    + apply IH. intros m Hm. apply Hnoroot. right. exact Hm.
Qed.

(** X23. A child of the recorded root that carries no [folderType] (as
    recorded by a browser that does not supply the marker) is not treated as
    a system container by the restore: the container itself is created
    anew, as a child of its own recorded id. *)
Theorem restore_unmarked_container (chrome : Chrome) (fuel : nat)
    (snapshots : gmap string Snapshot.t) (snapshotId : string) (snapshot : Snapshot.t)
    (currentTree : list BookmarkNode)
    (root : BookmarkNode) (containers : list BookmarkNode) (c : BookmarkNode) :
  snapshots !! snapshotId = Some snapshot ->
  In root (Snapshot.treeData snapshot) -> id root = "0" ->
  children root = Some containers ->
  In c containers -> id c <> "0" -> id c <> "" -> truthy (folderType c) = false ->
  exists calls,
    restoreSnapshot chrome fuel snapshots snapshotId currentTree = Some calls /\
    In (CreateCall (id c) (title c) (node_link c)) calls.
Proof.
  intros Hsnap Hroot Hrid Hcont Hc Hcid Hne Hft.
  unfold restoreSnapshot. rewrite Hsnap. eexists. split; [reflexivity |].
  unfold restoreBookmarksFromSnapshot.
  apply (fold_left_call_kept (fun h node => restore_node chrome node None h)
           (Snapshot.treeData snapshot) _ (fun x h => restore_node_extends chrome x None h)
           root Hroot).
  intros h. destruct root as [ri rp ru rt rch rft]. cbn [id children] in Hrid, Hcont. subst ri rch.
  cbn [restore_node id children].
  change (String.eqb "0" "0") with true. cbv iota.
  apply (fold_left_call_kept
           (fun h child => restore_node chrome child (Some (id child)) h)
           containers _ (fun x h => restore_node_extends chrome x (Some (id x)) h) c Hc).
  intros h0. destruct c as [i p u t ch ft]. cbn [id folderType title] in *.
  cbn [restore_node id folderType].
  destruct (String.eqb_spec i "0") as [-> | _]; [congruence |].
  rewrite Hft. unfold truthy at 1.
  destruct (String.eqb_spec i "") as [-> | _]; [congruence |]. cbn [negb].
  destruct (createBookmarkFromNode_trace chrome (mkNode i p u t ch ft) i h0) as [later ->].
  apply in_or_app. right. left. reflexivity.
Qed.

Lemma restore_unmarked_container_witness :
  exists calls,
    restoreSnapshot chrome_ok 3
      {[ "s" := Snapshot.mk "s" 1 1
                  [mkNode "0" None None ""
                     (Some [mkNode "1" (Some "0") None "Bookmarks bar" (Some [bookmark2]) None])
                     None] "" ]}
      "s" live_tree = Some calls /\
    In (CreateCall "1" "Bookmarks bar" None) calls.
Proof.
  apply (restore_unmarked_container chrome_ok 3 _ "s"
           (Snapshot.mk "s" 1 1
              [mkNode "0" None None ""
                 (Some [mkNode "1" (Some "0") None "Bookmarks bar" (Some [bookmark2]) None])
                 None] "")
           live_tree
           (mkNode "0" None None ""
              (Some [mkNode "1" (Some "0") None "Bookmarks bar" (Some [bookmark2]) None]) None)
           [mkNode "1" (Some "0") None "Bookmarks bar" (Some [bookmark2]) None]
           (mkNode "1" (Some "0") None "Bookmarks bar" (Some [bookmark2]) None));
    first [reflexivity | left; reflexivity | discriminate].
Defined.

(** ** Tag index: queries, repeated and undone tagging *)

Lemma In_getTagsByBookmarkId (store : gmap string Tag.t) (bookmarkId : string) (t : Tag.t) :
  In t (getTagsByBookmarkId store bookmarkId) <->
  (exists k, store !! k = Some t) /\ In bookmarkId (Tag.bookmarkIds t).
Proof.
  unfold getTagsByBookmarkId, getAllTags.
  rewrite filter_In, includes_In, <- list_elem_of_In, elem_of_getAll. reflexivity.
Qed.

(** X24. What [addTagsToBookmark] stores can be read back: on a store keyed
    by id, with unique names and id lists without repetition, and when the
    ids drawn for new tags are pairwise different and not in the store, the
    call resolves and afterwards [getTagsByBookmarkId] returns, for every
    name of the list whose normal form is not empty, a tag of that normal
    form; and every tag that [getTagsByBookmarkId] returned for any bookmark
    before is still returned for it, under the same id and name. *)
Theorem tagged_bookmark_is_found (normalize : string -> string)
    (newTagId : nat -> string) (dateNow : nat -> Z)
    (db : TagDB) (bookmarkId : string) (tagNames : list string) :
  tag_index_inv db ->
  fresh_ids newTagId db (length tagNames) ->
  let result := addTagsToBookmark normalize newTagId dateNow db bookmarkId tagNames in
  snd result = true /\
  (forall tagName, In tagName tagNames -> normalize tagName <> "" ->
     exists t, In t (getTagsByBookmarkId (tags (fst result)) bookmarkId) /\
               Tag.name t = normalize tagName) /\
  (forall other t, In t (getTagsByBookmarkId (tags db) other) ->
     exists t', In t' (getTagsByBookmarkId (tags (fst result)) other) /\
                Tag.id t' = Tag.id t /\ Tag.name t' = Tag.name t).
Proof.
  intros Hinv Hfresh result.
  destruct (addTagsToBookmark_tagged normalize newTagId dateNow bookmarkId tagNames db
              Hinv Hfresh) as (Hinv1 & Hframe & Htagged).
  fold result in Hinv1, Hframe, Htagged.
  split; [apply addTagsToBookmark_inv; exact Hinv |]. split.
  - intros tagName Hin Hne. destruct (Htagged tagName Hin Hne) as (k & t & Hk & Hn & Hb).
    exists t. split; [| exact Hn]. apply In_getTagsByBookmarkId. eauto.
  - intros other t Ht. apply In_getTagsByBookmarkId in Ht as [[k Hk] Hb].
    destruct (Hframe k t Hk) as (t' & Hk' & Hn' & Hi').
    exists t'. split; [apply In_getTagsByBookmarkId; eauto |]. split; [| exact Hn'].
    destruct Hinv as ([Hkey _] & _). destruct Hinv1 as ([Hkey1 _] & _).
    rewrite (Hkey k t Hk), (Hkey1 k t' Hk'). reflexivity.
Qed.

Lemma tagged_bookmark_is_found_witness :
  let result := addTagsToBookmark ascii_normalize example_newTagId example_dateNow empty_db
                  "X" [" AI "; "News"] in
  snd result = true /\
  (forall tagName, In tagName [" AI "; "News"] -> ascii_normalize tagName <> "" ->
     exists t, In t (getTagsByBookmarkId (tags (fst result)) "X") /\
               Tag.name t = ascii_normalize tagName) /\
  (forall other t, In t (getTagsByBookmarkId (tags empty_db) other) ->
     exists t', In t' (getTagsByBookmarkId (tags (fst result)) other) /\
                Tag.id t' = Tag.id t /\ Tag.name t' = Tag.name t).
Proof.
  apply (tagged_bookmark_is_found ascii_normalize example_newTagId example_dateNow empty_db
           "X" [" AI "; "News"]).
  - split; [split |]; [| | split]; cbn [tags empty_db]; intros *;
      rewrite ?lookup_empty; intros; discriminate.
  - split; cbn [created empty_db length Nat.add].
    + intros i j Hi Hj.
      assert (Ei : i = 0 \/ i = 1) by lia. assert (Ej : j = 0 \/ j = 1) by lia.
      destruct Ei as [-> | ->], Ej as [-> | ->]; cbn; intros E;
        first [reflexivity | discriminate E].
    + intros i _. apply lookup_empty.
Defined.

(** X25. Tagging is idempotent: under the same assumptions, calling
    [addTagsToBookmark] a second time with the same bookmark and the same
    names resolves and leaves the store as the first call left it: no tag is
    created and no id list grows. *)
Theorem addTagsToBookmark_twice (normalize : string -> string)
    (newTagId : nat -> string) (dateNow : nat -> Z)
    (db : TagDB) (bookmarkId : string) (tagNames : list string) :
  tag_index_inv db ->
  fresh_ids newTagId db (length tagNames) ->
  let db1 := fst (addTagsToBookmark normalize newTagId dateNow db bookmarkId tagNames) in
  addTagsToBookmark normalize newTagId dateNow db1 bookmarkId tagNames = (db1, true).
Proof.
  intros Hinv Hfresh db1.
  destruct (addTagsToBookmark_tagged normalize newTagId dateNow bookmarkId tagNames db
              Hinv Hfresh) as (Hinv1 & _ & Htagged).
  fold db1 in Hinv1, Htagged.
  apply addTagsToBookmark_noop; [exact (proj1 Hinv1) | exact Htagged].
Qed.

Lemma addTagsToBookmark_twice_witness :
  let db1 := fst (addTagsToBookmark ascii_normalize example_newTagId example_dateNow empty_db
                    "X" [" AI "; "News"]) in
  addTagsToBookmark ascii_normalize example_newTagId example_dateNow db1
    "X" [" AI "; "News"] = (db1, true).
Proof.
  apply (addTagsToBookmark_twice ascii_normalize example_newTagId example_dateNow empty_db
           "X" [" AI "; "News"]).
  - split; [split |]; [| | split]; cbn [tags empty_db]; intros *;
      rewrite ?lookup_empty; intros; discriminate.
  - split; cbn [created empty_db length Nat.add].
    + intros i j Hi Hj.
      assert (Ei : i = 0 \/ i = 1) by lia. assert (Ej : j = 0 \/ j = 1) by lia.
      destruct Ei as [-> | ->], Ej as [-> | ->]; cbn; intros E;
        first [reflexivity | discriminate E].
    + intros i _. apply lookup_empty.
Defined.

Lemma removeTagFromBookmark_others (db : TagDB) (bookmarkId tagId k : string) :
  store_wf (tags db) -> k <> tagId ->
  tags (removeTagFromBookmark db bookmarkId tagId) !! k = tags db !! k.
Proof.
  intros [Hkey _] Hne. unfold removeTagFromBookmark.
  destruct (tags db !! tagId) as [tag |] eqn:Htag; [| reflexivity].
  destruct (length _ =? 0)%nat; cbn [tags].
  - apply lookup_delete_ne. congruence.
  - destruct (store_put _ _) as [tags' |] eqn:Eput; [| reflexivity].
    apply store_put_Some in Eput as [-> _]. cbn [tags Tag.id].
    rewrite (Hkey tagId tag Htag). apply lookup_insert_ne. congruence.
Qed.

Lemma In_without (bookmarkId x : string) (ids : list string) :
  In x (without bookmarkId ids) <-> In x ids /\ x <> bookmarkId.
Proof.
  unfold without. rewrite filter_In, negb_true_iff, String.eqb_neq. reflexivity.
Qed.

(** X26. [removeTagFromBookmark] takes the bookmark out of the one tag and
    touches nothing else: on a store keyed by id with unique names, the
    records under the other keys are unchanged; afterwards
    [getTagsByBookmarkId] returns no tag of id [tagId] for the bookmark;
    every other bookmark of the tag still has it, under the same id and
    name; and when no tag has the id the store is left as it is. *)
Theorem removeTagFromBookmark_effect (db : TagDB) (bookmarkId tagId : string) :
  tag_index_inv db ->
  let db' := removeTagFromBookmark db bookmarkId tagId in
  (forall k, k <> tagId -> tags db' !! k = tags db !! k) /\
  (forall t, In t (getTagsByBookmarkId (tags db') bookmarkId) -> Tag.id t <> tagId) /\
  (forall other t, other <> bookmarkId ->
     In t (getTagsByBookmarkId (tags db) other) ->
     exists t', In t' (getTagsByBookmarkId (tags db') other) /\
                Tag.id t' = Tag.id t /\ Tag.name t' = Tag.name t) /\
  (tags db !! tagId = None -> db' = db).
Proof.
  intros Hinv db'.
  pose proof (removeTagFromBookmark_inv db bookmarkId tagId Hinv) as Hinv'.
  fold db' in Hinv'.
  pose proof Hinv as ([Hkey _] & _). pose proof Hinv' as ([Hkey' _] & _).
  split; [intros k Hne; apply removeTagFromBookmark_others; [exact (proj1 Hinv) | exact Hne] |].
  split; [| split].
  - intros t Ht Hid. apply In_getTagsByBookmarkId in Ht as [[k Hk] Hb].
    pose proof (Hkey' k t Hk) as Hkid. rewrite Hid in Hkid. subst k.
    destruct (tags db !! tagId) as [tag |] eqn:Htag.
    + unfold db' in Hk. rewrite (removeTagFromBookmark_lookup db bookmarkId tagId tag Hinv Htag) in Hk.
      destruct (without bookmarkId (Tag.bookmarkIds tag)) as [| i rest] eqn:Erem;
        [discriminate |].
      injection Hk as <-. cbn [Tag.bookmarkIds] in Hb. rewrite <- Erem in Hb.
      apply In_without in Hb as [_ Hb]. congruence.
    + unfold db', removeTagFromBookmark in Hk. rewrite Htag in Hk. congruence.
  - intros other t Hother Ht. apply In_getTagsByBookmarkId in Ht as [[k Hk] Hb].
    destruct (decide (k = tagId)) as [-> | Hne].
    + pose proof (removeTagFromBookmark_lookup db bookmarkId tagId t Hinv Hk) as Hlook.
      fold db' in Hlook.
      assert (Hin : In other (without bookmarkId (Tag.bookmarkIds t)))
        by (apply In_without; split; assumption).
      destruct (without bookmarkId (Tag.bookmarkIds t)) as [| i rest] eqn:Erem; [destruct Hin |].
      eexists. split; [apply In_getTagsByBookmarkId; split; [exists tagId; exact Hlook |] |].
      * cbn [Tag.bookmarkIds]. exact Hin.
      * split; reflexivity.
    + exists t. split; [| split; reflexivity]. apply In_getTagsByBookmarkId.
      split; [exists k | exact Hb].
      unfold db'. rewrite removeTagFromBookmark_others; [exact Hk | exact (proj1 Hinv) | exact Hne].
  - intros Hnone. unfold db', removeTagFromBookmark. rewrite Hnone. reflexivity.
Qed.

Lemma removeTagFromBookmark_effect_witness :
  let db := fst (addTagsToBookmark ascii_normalize example_newTagId example_dateNow
                   (fst (addTagsToBookmark ascii_normalize example_newTagId example_dateNow
                           empty_db "X" ["ai"])) "Y" ["ai"]) in
  let db' := removeTagFromBookmark db "X" "tag_1700000000000_k3j9x2m1q" in
  (forall k, k <> "tag_1700000000000_k3j9x2m1q" -> tags db' !! k = tags db !! k) /\
  (forall t, In t (getTagsByBookmarkId (tags db') "X") ->
             Tag.id t <> "tag_1700000000000_k3j9x2m1q") /\
  (forall other t, other <> "X" ->
     In t (getTagsByBookmarkId (tags db) other) ->
     exists t', In t' (getTagsByBookmarkId (tags db') other) /\
                Tag.id t' = Tag.id t /\ Tag.name t' = Tag.name t) /\
  (tags db !! "tag_1700000000000_k3j9x2m1q" = None -> db' = db).
Proof.
  apply (removeTagFromBookmark_effect
           (fst (addTagsToBookmark ascii_normalize example_newTagId example_dateNow
                   (fst (addTagsToBookmark ascii_normalize example_newTagId example_dateNow
                           empty_db "X" ["ai"])) "Y" ["ai"]))
           "X" "tag_1700000000000_k3j9x2m1q").
  apply addTagsToBookmark_inv. apply addTagsToBookmark_inv.
  split; [split |]; [| | split]; cbn [tags empty_db]; intros *;
    rewrite ?lookup_empty; intros; discriminate.
Defined.

(** X27. Tagging and untagging undo each other for a new name: when no tag
    has the normalised name and the id drawn for the new tag is not in the
    store, [addTagsToBookmark] with that one name followed by
    [removeTagFromBookmark] on the new tag leaves the stored tags exactly as
    they were. *)
Theorem add_then_remove_new_tag (normalize : string -> string)
    (newTagId : nat -> string) (dateNow : nat -> Z)
    (db : TagDB) (bookmarkId tagName : string) :
  normalize tagName <> "" ->
  getTagByName (tags db) (normalize tagName) = None ->
  tags db !! newTagId (created db) = None ->
  let db1 := fst (addTagsToBookmark normalize newTagId dateNow db bookmarkId [tagName]) in
  tags db1 !! newTagId (created db)
  = Some (Tag.mk (newTagId (created db)) (normalize tagName) [bookmarkId]
            (dateNow (created db))) /\
  tags (removeTagFromBookmark db1 bookmarkId (newTagId (created db))) = tags db.
Proof.
  intros Hne Hget Hfresh db1.
  assert (Hdb1 : tags db1 = <[newTagId (created db) :=
                   Tag.mk (newTagId (created db)) (normalize tagName) [bookmarkId]
                     (dateNow (created db))]> (tags db)).
  { unfold db1. cbn [addTagsToBookmark]. unfold addTag_step.
    apply String.eqb_neq in Hne. rewrite Hne, Hget.
    rewrite store_put_free; [reflexivity |].
    intros k t Hk Hn. exfalso. exact (getTagByName_None _ _ Hget k t Hk Hn). }
  split; [rewrite Hdb1; apply lookup_insert_eq |].
  unfold removeTagFromBookmark. rewrite Hdb1, lookup_insert_eq.
  cbn [Tag.bookmarkIds List.filter]. rewrite String.eqb_refl. cbn [negb length Nat.eqb tags].
  rewrite delete_insert_id; [reflexivity | exact Hfresh].
Qed.

Lemma add_then_remove_new_tag_witness :
  let db1 := fst (addTagsToBookmark ascii_normalize example_newTagId example_dateNow
                    empty_db "X" [" AI "]) in
  tags db1 !! example_newTagId (created empty_db)
  = Some (Tag.mk (example_newTagId (created empty_db)) (ascii_normalize " AI ") ["X"]
            (example_dateNow (created empty_db))) /\
  tags (removeTagFromBookmark db1 "X" (example_newTagId (created empty_db))) = tags empty_db.
Proof.
  apply (add_then_remove_new_tag ascii_normalize example_newTagId example_dateNow
           empty_db "X" " AI ").
  - vm_compute. discriminate.
  - reflexivity.
  - apply lookup_empty.
Defined.

(** ** Original folder names *)

Lemma for_nodes_or_cases (fallback name : string) (body : BookmarkNode -> option string)
    (nodes : list BookmarkNode) :
  (forall n, In n nodes -> body n = None \/ body n = Some name) ->
  (for_nodes_or fallback body nodes = fallback /\ forall n, In n nodes -> body n = None) \/
  for_nodes_or fallback body nodes = name.
Proof.
  induction nodes as [| n ns IH]; intros Hbody; cbn [for_nodes_or].
  - left. split; [reflexivity | intros ? []].
  - destruct (Hbody n (or_introl eq_refl)) as [Hn | Hn]; rewrite Hn; [| right; reflexivity].
    destruct IH as [[Hf Hnone] | Hname]; [intros m Hm; apply Hbody; right; exact Hm | |].
    + left. split; [exact Hf |]. intros m [<- | Hm]; [exact Hn | exact (Hnone m Hm)].
    + right. exact Hname.
Qed.

Lemma SYSTEM_FOLDER_NAMES_nonempty (k name : string) :
  SYSTEM_FOLDER_NAMES k = Some name -> name <> "".
Proof.
  unfold SYSTEM_FOLDER_NAMES.
  repeat (match goal with |- context [String.eqb k ?b] => destruct (String.eqb k b) end;
          [intros [= <-]; discriminate |]).
  discriminate.
Qed.

Lemma friendly_name_nonempty (node : BookmarkNode) : friendly_name node <> "".
Proof.
  unfold friendly_name.
  assert (Hrest : match SYSTEM_FOLDER_NAMES (id node) with
                  | Some name => name
                  | None => if truthy (Some (title node)) then title node else "未知"
                  end <> "").
  { destruct (SYSTEM_FOLDER_NAMES (id node)) as [name |] eqn:E;
      [exact (SYSTEM_FOLDER_NAMES_nonempty _ _ E) |].
    unfold truthy. destruct (String.eqb_spec (title node) "") as [E' | E']; cbn [negb];
      [discriminate | exact E']. }
  destruct (truthy (folderType node)); [| exact Hrest].
  destruct (folderType node) as [ft |]; [| exact Hrest].
  destruct (SYSTEM_FOLDER_NAMES ft) as [name |] eqn:E;
    [exact (SYSTEM_FOLDER_NAMES_nonempty _ _ E) | exact Hrest].
Qed.

(** Every value returned by the body of the loop is the name of a node of
    the subtree that has a child with the id. *)
Lemma findParentFolderName_body_parent (bookmarkId : string) (node : BookmarkNode) (r : string) :
  findParentFolderName_body bookmarkId node = Some r ->
  exists q, In q (node_list node) /\ has_child bookmarkId q = true /\ r = friendly_name q.
Proof.
  revert r.
  induction node as [i p u t ft | i p u t cs ft IH] using BookmarkNode_tree_ind;
    intros r; cbn [findParentFolderName_body children]; [discriminate |].
  destruct (existsb _ cs) eqn:Ehere.
  - intros [= <-]. eexists. split; [left; reflexivity |]. split; [| reflexivity].
    unfold has_child. cbn [children]. exact Ehere.
  - cbv zeta.
    destruct (truthy (Some (for_nodes_or "未知" (findParentFolderName_body bookmarkId) cs))
              && negb (String.eqb (for_nodes_or "未知" (findParentFolderName_body bookmarkId) cs)
                         "未知")) eqn:Efound; [| discriminate].
    intros [= <-]. apply andb_true_iff in Efound as [_ Hunk].
    apply negb_true_iff, String.eqb_neq in Hunk.
    assert (Hsub : exists c r', In c cs /\ findParentFolderName_body bookmarkId c = Some r' /\
                     for_nodes_or "未知" (findParentFolderName_body bookmarkId) cs = r').
    { clear IH Ehere. induction cs as [| c cs' IHcs]; cbn [for_nodes_or] in *; [congruence |].
      destruct (findParentFolderName_body bookmarkId c) as [r' |] eqn:Ec.
      - exists c, r'. split; [left; reflexivity | split; [exact Ec | reflexivity]].
      - destruct (IHcs Hunk) as (c' & r' & Hin & Hc' & Hr').
        exists c', r'. split; [right; exact Hin | split; assumption]. }
    destruct Hsub as (c & r' & Hin & Hc & ->).
    rewrite List.Forall_forall in IH.
    destruct (IH c Hin r' Hc) as (q & Hq & Hchild & Hname).
    exists q. split; [| split; assumption].
    right. cbn [children]. apply in_flat_map. exists c. split; assumption.
Qed.

(** When every node of the subtree that has a child with the id has the same
    name, the body returns that name or falls through, and it returns the
    name when there is such a node and the name is not the fallback. *)
Lemma findParentFolderName_body_name (bookmarkId name : string) (node : BookmarkNode) :
  (forall q, In q (node_list node) -> has_child bookmarkId q = true ->
             friendly_name q = name) ->
  (findParentFolderName_body bookmarkId node = None \/
   findParentFolderName_body bookmarkId node = Some name) /\
  (name <> "未知" ->
   (exists q, In q (node_list node) /\ has_child bookmarkId q = true) ->
   findParentFolderName_body bookmarkId node = Some name).
Proof.
  intros Hsame. split.
  - destruct (findParentFolderName_body bookmarkId node) as [r |] eqn:E; [| left; reflexivity].
    right. apply findParentFolderName_body_parent in E as (q & Hq & Hchild & ->).
    rewrite (Hsame q Hq Hchild). reflexivity.
  - intros Hname. revert Hsame.
    induction node as [i p u t ft | i p u t cs ft IH] using BookmarkNode_tree_ind;
      intros Hsame (q & Hq & Hchild).
    + cbn [node_list children] in Hq. destruct Hq as [<- | []]. discriminate Hchild.
    + cbn [findParentFolderName_body children].
      destruct (existsb _ cs) eqn:Ehere.
      * f_equal. apply Hsame; [left; reflexivity | exact Ehere].
      * cbv zeta. cbn [node_list children] in Hq. destruct Hq as [<- | Hq].
        { unfold has_child in Hchild. cbn [children] in Hchild. congruence. }
        apply in_flat_map in Hq as (c & Hc & Hqc).
        assert (Hfound : for_nodes_or "未知" (findParentFolderName_body bookmarkId) cs = name).
        { assert (Hcs : forall n, In n cs ->
                    findParentFolderName_body bookmarkId n = None \/
                    findParentFolderName_body bookmarkId n = Some name).
          { intros n Hn.
            destruct (findParentFolderName_body bookmarkId n) as [r |] eqn:E;
              [| left; reflexivity].
            right. apply findParentFolderName_body_parent in E as (q' & Hq' & Hchild' & ->).
            rewrite (Hsame q'); [reflexivity | | exact Hchild'].
            right. cbn [children]. apply in_flat_map. exists n. split; assumption. }
          destruct (for_nodes_or_cases "未知" name _ cs Hcs) as [[_ Hnone] | Hr]; [| exact Hr].
          exfalso. rewrite List.Forall_forall in IH.
          assert (Hc' : findParentFolderName_body bookmarkId c = Some name).
          { apply (IH c Hc).
            - intros q' Hq' Hchild'. apply Hsame; [| exact Hchild'].
              right. cbn [children]. apply in_flat_map. exists c. split; assumption.
            - exists q. split; assumption. }
          rewrite (Hnone c Hc) in Hc'. discriminate Hc'. }
        rewrite Hfound.
        assert (Hne : name <> "").
        { rewrite <- (Hsame q); [apply friendly_name_nonempty | | exact Hchild].
          right. cbn [children]. apply in_flat_map. exists c. split; assumption. }
        unfold truthy. apply String.eqb_neq in Hne, Hname. rewrite Hne, Hname. reflexivity.
Qed.

(** X28. On a tree whose ids and folder types are plain keys,
    [findParentFolderName] returns the fallback ['未知'] or the display
    name of a node of the tree that has a child with the given id (the
    system name of its [folderType], else that of its id, else its title, else
    the fallback); it returns the fallback when no node of the tree has such
    a child. *)
Theorem findParentFolderName_result (nodes : list BookmarkNode) (bookmarkId : string) :
  plain_keys nodes = true ->
  (findParentFolderName nodes bookmarkId = "未知" \/
   exists q, In q (all_nodes nodes) /\ has_child bookmarkId q = true /\
             findParentFolderName nodes bookmarkId = friendly_name q) /\
  ((forall q, In q (all_nodes nodes) -> has_child bookmarkId q = false) ->
   findParentFolderName nodes bookmarkId = "未知").
Proof.
  intros _.
  assert (Hres : findParentFolderName nodes bookmarkId = "未知" \/
                 exists q, In q (all_nodes nodes) /\ has_child bookmarkId q = true /\
                           findParentFolderName nodes bookmarkId = friendly_name q).
  { unfold findParentFolderName, all_nodes.
    induction nodes as [| n ns IH]; cbn [for_nodes_or flat_map]; [left; reflexivity |].
    destruct (findParentFolderName_body bookmarkId n) as [r |] eqn:E.
    - right. apply findParentFolderName_body_parent in E as (q & Hq & Hchild & ->).
      exists q. split; [apply in_or_app; left; exact Hq | split; [exact Hchild | reflexivity]].
    - destruct IH as [IH | (q & Hq & Hchild & Hr)]; [left; exact IH |].
      right. exists q. split; [apply in_or_app; right; exact Hq | split; assumption]. }
  split; [exact Hres |].
  intros Hnone. destruct Hres as [Hres | (q & Hq & Hchild & _)]; [exact Hres |].
  rewrite (Hnone q Hq) in Hchild. discriminate Hchild.
Qed.

Lemma findParentFolderName_result_witness :
  (findParentFolderName scenario_tree "0" = "未知" \/
   exists q, In q (all_nodes scenario_tree) /\ has_child "0" q = true /\
             findParentFolderName scenario_tree "0" = friendly_name q) /\
  ((forall q, In q (all_nodes scenario_tree) -> has_child "0" q = false) ->
   findParentFolderName scenario_tree "0" = "未知").
Proof.
  apply (findParentFolderName_result scenario_tree "0"). reflexivity.
Defined.

(** X29. On a tree whose ids and folder types are plain keys: when the
    nodes of the tree that have a child with the given id all have the same
    display name, as they do when ids are unique, and there is
    such a node, [findParentFolderName] returns that name, at whatever depth
    the parent lies. *)
Theorem findParentFolderName_parent (nodes : list BookmarkNode) (bookmarkId : string)
    (parent : BookmarkNode) :
  plain_keys nodes = true ->
  In parent (all_nodes nodes) -> has_child bookmarkId parent = true ->
  (forall q, In q (all_nodes nodes) -> has_child bookmarkId q = true ->
             friendly_name q = friendly_name parent) ->
  findParentFolderName nodes bookmarkId = friendly_name parent.
Proof.
  intros _ Hparent Hchild Hsame.
  assert (Hbodies : forall n, In n nodes ->
            findParentFolderName_body bookmarkId n = None \/
            findParentFolderName_body bookmarkId n = Some (friendly_name parent)).
  { intros n Hn. apply findParentFolderName_body_name.
    intros q Hq. apply Hsame. unfold all_nodes. apply in_flat_map. exists n. split; assumption. }
  unfold findParentFolderName.
  destruct (for_nodes_or_cases "未知" (friendly_name parent) _ nodes Hbodies)
    as [[Hf Hnone] | Hr]; [| exact Hr].
  rewrite Hf. destruct (String.eqb_spec (friendly_name parent) "未知") as [E | Hne];
    [symmetry; exact E |].
  exfalso. unfold all_nodes in Hparent. apply in_flat_map in Hparent as (n & Hn & Hpn).
  assert (Hsome : findParentFolderName_body bookmarkId n = Some (friendly_name parent)).
  { apply findParentFolderName_body_name; [| exact Hne | exists parent; split; assumption].
    intros q Hq. apply Hsame. unfold all_nodes. apply in_flat_map. exists n. split; assumption. }
  rewrite (Hnone n Hn) in Hsome. discriminate Hsome.
Qed.

Lemma findParentFolderName_parent_witness :
  findParentFolderName scenario_tree "11" = friendly_name folderA.
Proof.
  apply (findParentFolderName_parent scenario_tree "11" folderA).
  - reflexivity.
  - right. right. left. reflexivity.
  - reflexivity.
  - intros q Hq Hchild. cbn in Hq.
    destruct Hq as [<- | [<- | [<- | [<- | [<- | []]]]]];
      first [reflexivity | discriminate Hchild].
Defined.

Example findParentFolderName_examples :
  findParentFolderName scenario_tree "11" = "FolderA" /\
  findParentFolderName scenario_tree "12" = "书签栏" /\
  findParentFolderName scenario_tree "1" = "根" /\
  findParentFolderName scenario_tree "0" = "未知".
Proof. repeat split; reflexivity. Qed.

(** ** The analysis run *)

Section StartProcessFacts.
Variable callAI : nat -> nat -> list BookmarkNode -> option string.
Variable parseResponse : string -> option Json.
Variable tree : list BookmarkNode.

Lemma process_loop_spec (batches : list (list BookmarkNode)) :
  Forall (fun b => 0 < length b /\ length b <= batchSize) batches ->
  forall j results trace,
    fst (process_loop callAI parseResponse tree batches j results trace)
    = results ++
      concat (imap (fun k b =>
                      map (result_for tree (batch_entries (callAI (j + k)) parseResponse 0 b)) b)
                batches) /\
    classify_calls (snd (process_loop callAI parseResponse tree batches j results trace))
    = classify_calls trace ++ batches.
Proof.
  induction 1 as [| b bs [Hpos Hle] _ IH]; intros j results trace; cbn [process_loop].
  - cbn. rewrite !app_nil_r. split; reflexivity.
  - destruct (getOrganizeSuggestions_small (callAI j) parseResponse false b Hpos Hle)
      as [Hcalls Hfst].
    destruct (IH (S j)
                (results ++ map (result_for tree
                                   (fst (getOrganizeSuggestions (callAI j) parseResponse false b))) b)
                (trace ++ snd (getOrganizeSuggestions (callAI j) parseResponse false b)))
      as [IH1 IH2].
    split.
    + rewrite IH1, Hfst, imap_cons. cbn [concat]. rewrite Nat.add_0_r, <- app_assoc.
      do 3 f_equal. apply imap_ext. intros k x _. cbn.
      replace (S (j + k)) with (j + S k) by lia. reflexivity.
    + rewrite IH2. unfold classify_calls at 1. rewrite flat_map_app.
      fold (classify_calls trace).
      fold (classify_calls (snd (getOrganizeSuggestions (callAI j) parseResponse false b))).
      rewrite Hcalls, <- app_assoc. reflexivity.
Qed.

Lemma results_ids (batches : list (list BookmarkNode)) :
  forall g : nat -> list BookmarkNode -> gmap string Suggestion.t,
    map OrganizeResult.bookmarkId
      (concat (imap (fun k b => map (result_for tree (g k b)) b) batches))
    = map id (concat batches).
Proof.
  induction batches as [| b bs IH]; intros g; [reflexivity |].
  rewrite imap_cons. cbn [concat]. rewrite !map_app.
  f_equal; [rewrite map_map; reflexivity | exact (IH (fun k => g (S k)))].
Qed.

Lemma In_concat_imap {A B : Type} (f : nat -> A -> list B) (l : list A) (y : B) :
  In y (concat (imap f l)) -> exists k x, l !! k = Some x /\ In y (f k x).
Proof.
  intros Hin. apply in_concat in Hin as (ys & Hys & Hy).
  apply list_elem_of_In, list_elem_of_lookup in Hys as [k Hk].
  rewrite list_lookup_imap in Hk.
  destruct (l !! k) as [x |] eqn:Ex; [| discriminate Hk].
  cbn in Hk. injection Hk as <-. exists k, x. split; [exact Ex | exact Hy].
Qed.

Lemma result_for_explained (selected : list BookmarkNode) (j : nat)
    (batch : list BookmarkNode) (bookmark : BookmarkNode) :
  make_batches selected !! j = Some batch ->
  result_explained callAI parseResponse tree selected
    (result_for tree (batch_entries (callAI j) parseResponse 0 batch) bookmark).
Proof.
  intros Hj. unfold result_explained, result_for. cbv zeta.
  cbn [OrganizeResult.originalFolder OrganizeResult.bookmarkId
         OrganizeResult.suggestedFolder OrganizeResult.isNewCategory].
  split; [reflexivity |].
  destruct (batch_entries (callAI j) parseResponse 0 batch !! id bookmark) as [s |] eqn:Es;
    [| left; split; reflexivity].
  right. unfold batch_entries, classify_batch in Es.
  destruct (callAI j 0 batch) as [response |] eqn:Ec;
    [| rewrite lookup_empty in Es; discriminate Es].
  destruct (parseResponse response) as [[parsed |] |] eqn:Ep;
    try (rewrite lookup_empty in Es; discriminate Es).
  apply forEach_set_from in Es as [Es | (item & Hitem & Hid & ->)];
    [rewrite lookup_empty in Es; discriminate Es |].
  exists j, batch, response, parsed, item.
  cbn [Suggestion.category Suggestion.isNewCategory]. unfold truthy.
  destruct (String.eqb (Item.category item) ""); cbn [negb]; auto 10.
Qed.
End StartProcessFacts.

(** X30. [handleStartProcess] on a tree whose ids and folder types are plain
    keys. When the snapshot can be stored, the run ends at the preview: the
    whole tree has been stored as a snapshot, the classifier has been called
    exactly once for each group of 20 selected bookmarks, in order, there is
    one result for each selected bookmark, in the order of the selection, and
    every result records what [findParentFolderName] gives for its bookmark
    and either proposes to leave the bookmark there or proposes what an
    element of one of the answers says for its id. When
    the snapshot's id is already stored, the run goes back to the analysis
    step without calling the classifier and without changing the store. *)
Theorem handleStartProcess_preview
    (callAI : nat -> nat -> list BookmarkNode -> option string)
    (parseResponse : string -> option Json)
    (snapshots : gmap string Snapshot.t) (now_id now_stamp : Z)
    (tree : list BookmarkNode) (selectedIds : list string) :
  plain_keys tree = true ->
  let selected := selectedBookmarks tree selectedIds in
  let run := handleStartProcess callAI parseResponse snapshots now_id now_stamp
               tree selectedIds in
  (snapshots !! ("snapshot_" +:+ decimal now_id) = None ->
   exists results snapshot,
     run = (Preview results, <[Snapshot.id snapshot := snapshot]> snapshots,
            snd run) /\
     Snapshot.id snapshot = "snapshot_" +:+ decimal now_id /\
     Snapshot.treeData snapshot = tree /\
     classify_calls (snd run) = make_batches selected /\
     map OrganizeResult.bookmarkId results = map id selected /\
     Forall (result_explained callAI parseResponse tree selected) results) /\
  (snapshots !! ("snapshot_" +:+ decimal now_id) <> None ->
   run = (BackToAnalyze, snapshots, [])).
Proof.
  intros _ selected run. unfold run, handleStartProcess, createSnapshot, store_add.
  fold selected. cbv zeta. cbn [Snapshot.id].
  destruct (snapshots !! ("snapshot_" +:+ decimal now_id)) as [old |] eqn:Ekey.
  - split; [discriminate | reflexivity].
  - split; [| congruence]. intros _.
    pose proof (batches_from_partition batchSize ltac:(unfold batchSize; lia) selected)
      as (_ & Hconcat & Hgroups).
    fold (make_batches selected) in Hconcat, Hgroups.
    assert (Hall : Forall (fun b => 0 < length b /\ length b <= batchSize)
                     (make_batches selected)).
    { apply List.Forall_forall. intros b Hb.
      apply list_elem_of_In, list_elem_of_lookup in Hb as [k Hk].
      destruct (Hgroups k b Hk) as (_ & Hpos & Hle & _). split; assumption. }
    destruct (process_loop_spec callAI parseResponse tree (make_batches selected) Hall 0 [] [])
      as [Hres Hcalls].
    eexists _, (Snapshot.mk _ _ _ _ _). cbn [snd fst Snapshot.id Snapshot.treeData].
    split; [reflexivity |]. split; [reflexivity |]. split; [reflexivity |].
    split; [exact Hcalls |]. rewrite Hres. cbn [app]. split.
    + rewrite (results_ids tree (make_batches selected)
                 (fun k b => batch_entries (callAI (0 + k)) parseResponse 0 b)).
      rewrite Hconcat. reflexivity.
    + apply List.Forall_forall. intros r Hr.
      apply In_concat_imap in Hr as (k & b & Hk & Hr).
      apply in_map_iff in Hr as (bookmark & <- & _).
      apply result_for_explained. exact Hk.
Qed.

Lemma handleStartProcess_preview_witness :
  let selected := selectedBookmarks scenario_tree ["11"; "12"] in
  let run := handleStartProcess (fun _ => flaky_callAI) example_parse ∅ 1700000000000
               1700000000001 scenario_tree ["11"; "12"] in
  ((∅ : gmap string Snapshot.t) !! ("snapshot_" +:+ decimal 1700000000000) = None ->
   exists results snapshot,
     run = (Preview results, <[Snapshot.id snapshot := snapshot]> ∅, snd run) /\
     Snapshot.id snapshot = "snapshot_" +:+ decimal 1700000000000 /\
     Snapshot.treeData snapshot = scenario_tree /\
     classify_calls (snd run) = make_batches selected /\
     map OrganizeResult.bookmarkId results = map id selected /\
     Forall (result_explained (fun _ => flaky_callAI) example_parse scenario_tree selected)
       results) /\
  ((∅ : gmap string Snapshot.t) !! ("snapshot_" +:+ decimal 1700000000000) <> None ->
   run = (BackToAnalyze, ∅, [])).
Proof.
  apply (handleStartProcess_preview (fun _ => flaky_callAI) example_parse ∅ 1700000000000
           1700000000001 scenario_tree ["11"; "12"]).
  reflexivity.
Defined.
